(** * SmartPrint-3D: the smart keying pipeline

    A shallow embedding of [smart_splitter.py] (class [SmartSplitter]) and of
    the two request handlers of [main.py] that drive it.

    Modelling conventions.
    - A Python [float] is an exact rational ([Q]); comparisons are the
      boolean tests the interpreter performs.  Infinities and NaN are
      outside the model, and so is rounding, with one exception: the hole
      radius, whose exact value the specification speaks of, is computed as
      the interpreter computes it, each operation rounded to the nearest
      binary64 number ([Double]).
    - A raised exception is a value: code that may raise lives in the
      [result] monad, [try ... except Exception] is [try_except].
    - trimesh, shapely and the numpy trigonometric table are libraries, not
      code of this repository: each is an interface ([Trimesh], [Shapely],
      [cos_theta]/[sin_theta]) whose operations the model calls where the
      source calls them. *)

From Stdlib Require Import QArith Qabs Qminmax Qround Qpower ZArith List Bool.
From Stdlib Require Import String Ascii Lia Lqa Sorted.
Import ListNotations.
Open Scope Q_scope.

Set Implicit Arguments.

(** ** Python numbers *)

Module Py.

(** [x < y] on floats. *)
Definition ltb (x y : Q) : bool := negb (Qle_bool y x).
(** [x >= y] on floats. *)
Definition geb (x y : Q) : bool := Qle_bool y x.

(** The builtin [max(a, b)]: the first argument is kept unless the second
    is strictly greater. *)
Definition max (a b : Q) : Q := if ltb a b then b else a.
(** The builtin [min(a, b)]: the first argument is kept unless the second
    is strictly smaller. *)
Definition min (a b : Q) : Q := if ltb b a then b else a.

End Py.

Notation "x <? y" := (Py.ltb x y) : Q_scope.
Notation "x >? y" := (Py.ltb y x) : Q_scope.
Notation "x >=? y" := (Py.geb x y) : Q_scope.

(** ** Python floats, rounded

    A [float] is an IEEE 754 binary64 number: 53 significant bits, and the
    exact result of an operation rounded to the nearest such number, to the
    one with an even significand on a tie.  Overflow and subnormal numbers
    are outside this model (no exponent bound). *)

Module Double.

(** The integer nearest to [q], the even one of two equally near. *)
Definition round_half_even (q : Q) : Z :=
  let f := Qfloor q in
  match Qcompare (q - inject_Z f) (1 # 2) with
  | Lt => f
  | Gt => (f + 1)%Z
  | Eq => if Z.even f then f else (f + 1)%Z
  end.

(** The binary exponent [e] of a nonzero [x]: 2^e <= |x| < 2^(e+1). *)
Definition exponent (x : Q) : Z :=
  let a := Qabs x in
  if Qle_bool 1 a then Z.log2 (Qfloor a)
  else (- Z.log2_up (Qceiling (/ a)))%Z.

(** The binary64 number nearest to [x]: a multiple of 2^(e-52), [e] the
    exponent of [x]. *)
Definition round (x : Q) : Q :=
  if Qeq_bool x 0 then 0
  else
    let e := exponent x in
    inject_Z (round_half_even (x * 2 ^ (52 - e))) * 2 ^ (e - 52).

(** [a + b] and [a / b] on floats ([b] nonzero). *)
Definition add (a b : Q) : Q := round (a + b).
Definition div (a b : Q) : Q := round (a / b).

End Double.

(** ** Exceptions *)

Inductive exn : Type :=
| IndexError
| TypeError
| ValueError
| ZeroDivisionError
| UnboundLocalError (name : string)
| LibraryError (msg : string).

Inductive result (A : Type) : Type :=
| Ok (a : A)
| Raise (e : exn).
Arguments Ok {A} a.
Arguments Raise {A} e.

Definition bind {A B : Type} (m : result A) (k : A -> result B) : result B :=
  match m with
  | Ok a => k a
  | Raise e => Raise e
  end.

Notation "x <- m ;; k" := (bind m (fun x => k))
  (at level 61, m at next level, right associativity).
Notation "' pat <- m ;; k" := (bind m (fun x => match x with pat => k end))
  (at level 61, pat pattern, m at next level, right associativity).

(** [try: body except Exception: handler]. *)
Definition try_except {A : Type} (body : result A) (handler : exn -> result A)
  : result A :=
  match body with
  | Ok a => Ok a
  | Raise e => handler e
  end.

Fixpoint mapM {A B : Type} (f : A -> result B) (l : list A) : result (list B) :=
  match l with
  | [] => Ok []
  | a :: l' => b <- f a ;; bs <- mapM f l' ;; Ok (b :: bs)
  end.

(** [seq[i]] for a non-negative index: [IndexError] past the end. *)
Definition getitem {A : Type} (l : list A) (i : nat) : result A :=
  match nth_error l i with
  | Some a => Ok a
  | None => Raise IndexError
  end.

(** The builtin [max] of a list ([ValueError] on an empty one). *)
Definition max_list (l : list Q) : result Q :=
  match l with
  | [] => Raise ValueError
  | a :: l' => Ok (fold_left Py.max l' a)
  end.

(** The builtin [min] of a list. *)
Definition min_list (l : list Q) : result Q :=
  match l with
  | [] => Raise ValueError
  | a :: l' => Ok (fold_left Py.min l' a)
  end.

(** Float division [a / b]: [ZeroDivisionError] on a zero divisor. *)
Definition truediv (a b : Q) : result Q :=
  if Qeq_bool b 0 then Raise ZeroDivisionError else Ok (a / b).

(** ** Vectors, matrices and meshes *)

Definition vec3 : Type := Q * Q * Q.
Definition pt2 : Type := Q * Q.
Definition row4 : Type := Q * Q * Q * Q.
Definition mat4 : Type := row4 * row4 * row4 * row4.
Definition face : Type := nat * nat * nat.

Definition vsub (a b : vec3) : vec3 :=
  let '(ax, ay, az) := a in let '(bx, by_, bz) := b in
  (ax - bx, ay - by_, az - bz).

Definition vneg (a : vec3) : vec3 :=
  let '(ax, ay, az) := a in (- ax, - ay, - az).

Definition vscale (k : Q) (a : vec3) : vec3 :=
  let '(ax, ay, az) := a in (k * ax, k * ay, k * az).

(** [np.dot] of two 3-vectors. *)
Definition dot (a b : vec3) : Q :=
  let '(ax, ay, az) := a in let '(bx, by_, bz) := b in
  ax * bx + ay * by_ + az * bz.

Definition dot4 (r : row4) (v : row4) : Q :=
  let '(a, b, c, d) := r in let '(x, y, z, w) := v in
  a * x + b * y + c * z + d * w.

(** [np.dot(M, v)[:3]] for a 4x4 matrix and a homogeneous 4-vector. *)
Definition dot_mat4_xyz (m : mat4) (v : row4) : vec3 :=
  let '(r0, r1, r2, _) := m in (dot4 r0 v, dot4 r1 v, dot4 r2 v).

(** An index into an array of length 3, with Python's negative indices. *)
Definition index3 (i : Z) : result nat :=
  if ((0 <=? i) && (i <? 3))%Z then Ok (Z.to_nat i)
  else if ((-3 <=? i) && (i <? 0))%Z then Ok (Z.to_nat (i + 3))
  else Raise IndexError.

Definition vget (v : vec3) (i : Z) : result Q :=
  k <- index3 i ;;
  let '(x, y, z) := v in
  Ok (match k with O => x | S O => y | _ => z end).

Definition vset (v : vec3) (i : Z) (q : Q) : result vec3 :=
  k <- index3 i ;;
  let '(x, y, z) := v in
  Ok (match k with O => (q, y, z) | S O => (x, q, z) | _ => (x, y, q) end).

(** [np.argmax]: the first index holding the maximum. *)
Fixpoint argmax_from (best : Q) (best_i : nat) (i : nat) (l : list Q) : nat :=
  match l with
  | [] => best_i
  | a :: l' =>
      if best <? a then argmax_from a i (S i) l'
      else argmax_from best best_i (S i) l'
  end.

Definition np_argmax (v : vec3) : Z :=
  let '(x, y, z) := v in Z.of_nat (argmax_from x 0 1 [y; z]).

(** A triangle mesh: the [vertices] and [faces] arrays of a [trimesh.Trimesh]. *)
Record mesh : Type := Trimesh_arrays {
  vertices : list vec3;
  faces : list face
}.

Definition z_axis : vec3 := (0, 0, 1).

(** ** The libraries the core calls *)

(** The shapely operations used by the cap analysis.  A [geometry] is a
    [Polygon] or a [MultiPolygon]; a [Point] is its coordinate pair. *)
Class Shapely : Type := {
  geometry : Type;
  is_empty : geometry -> bool;
  is_multipolygon : geometry -> bool;
  is_valid : geometry -> bool;
  unary_union : geometry -> result geometry;
  (** [g.buffer(0)] *)
  buffer0 : geometry -> result geometry;
  (** [g.minimum_rotated_rectangle.exterior.coords.xy] *)
  minimum_rotated_rectangle_xy : geometry -> result (list Q * list Q);
  (** [Point(a).distance(Point(b))] *)
  point_distance : pt2 -> pt2 -> Q;
  (** [g.centroid] *)
  centroid2 : geometry -> result pt2;
  (** [g.contains(pt)] *)
  contains : geometry -> pt2 -> bool;
  (** [g.covers(pt)]: containment that counts the boundary; used in
      statements only. *)
  covers : geometry -> pt2 -> bool;
  (** [polylabel(g, tolerance)] *)
  polylabel : geometry -> Q -> result pt2;
  (** [LineString([a, b]).interpolate(fraction, normalized=True)] *)
  line_interpolate : pt2 -> pt2 -> Q -> result pt2;
  (** [pt.distance(g.boundary)] *)
  boundary_distance : pt2 -> geometry -> result Q
}.

(** The trimesh operations used by the splitter and the request handlers. *)
Class Trimesh `{Shapely} : Type := {
  (** [mesh.bounds], [mesh.extents]: [None] on an empty mesh *)
  bounds : mesh -> option (vec3 * vec3);
  extents : mesh -> option vec3;
  centroid : mesh -> vec3;
  (** lines 54-99 of [suggest_split]: the section of the mesh by the plane,
      triangulated for display, with its box fallback *)
  section_visualization : mesh -> vec3 -> vec3 -> result (option mesh);
  (** [trimesh.intersections.slice_mesh_plane(mesh, origin, normal, cap=True)] *)
  slice_mesh_plane : mesh -> vec3 -> vec3 -> result mesh;
  (** [mesh.submesh([indices], append=True)] *)
  submesh : mesh -> list nat -> result mesh;
  translation_matrix : vec3 -> mat4;
  align_vectors : vec3 -> vec3 -> result mat4;
  concatenate_matrices : mat4 -> mat4 -> mat4;
  inverse_matrix : mat4 -> result mat4;
  merge_vertices : mesh -> result mesh;
  (** [trimesh.path.polygons.projected(mesh, normal=, origin=)] *)
  projected : mesh -> vec3 -> vec3 -> result (option geometry);
  (** the constructor [trimesh.Trimesh(vertices=, faces=)] *)
  Trimesh_new : list vec3 -> list face -> result mesh;
  apply_transform : mesh -> mat4 -> result mesh;
  apply_translation : mesh -> vec3 -> result mesh;
  (** [trimesh.util.concatenate] *)
  concatenate : list mesh -> result mesh;
  (** [trimesh.boolean.union], [trimesh.boolean.difference]: a mesh, or the
      meshes of a [Scene] *)
  boolean_union : list mesh -> result (mesh + list mesh);
  boolean_difference : list mesh -> result (mesh + list mesh)
}.

(** [np.cos(theta)], [np.sin(theta)] for
    [theta = np.linspace(0, 2*np.pi, sections, endpoint=False)], by index. *)
Class TrigTable : Type := {
  cos_theta : nat -> Q;
  sin_theta : nat -> Q
}.

(** ** [SmartSplitter._create_chamfered_pin] *)

Definition sections : nat := 32.

Section ChamferedPin.
Context `{TG : TrigTable}.

Definition needed_height (chamfer : Q) (taper_top flare_bottom : bool) : Q :=
  let needed_height := 0 in
  let needed_height :=
    if taper_top then needed_height + chamfer else needed_height in
  let needed_height :=
    if flare_bottom then needed_height + chamfer else needed_height in
  needed_height.

(** The chamfer after "Ensure chamfer isn't too big". *)
Definition fitted_chamfer (height chamfer : Q) (taper_top flare_bottom : bool)
  : Q :=
  if needed_height chamfer taper_top flare_bottom >=? height
  then height / 3.0 else chamfer.

(** The profile, a list of (Z, R) pairs. *)
Definition profile (radius height chamfer : Q) (taper_top flare_bottom : bool)
  : list (Q * Q) :=
  let chamfer := fitted_chamfer height chamfer taper_top flare_bottom in
  let profile := [] in
  let profile :=
    if flare_bottom
    then (profile ++ [(0.0, radius + chamfer)]) ++ [(chamfer, radius)]
    else profile ++ [(0.0, radius)] in
  let profile :=
    if taper_top
    then (profile ++ [(height - chamfer, radius)])
           ++ [(height, radius - chamfer)]
    else profile ++ [(height, radius)] in
  profile.

(** [np.column_stack((r * cos_theta, r * sin_theta, np.full(sections, z)))] *)
Definition ring_v (z r : Q) : list vec3 :=
  map (fun j => (r * cos_theta j, r * sin_theta j, z)) (seq 0 sections).

Definition ring_vertices (profile : list (Q * Q)) : list vec3 :=
  flat_map (fun '(z, r) => ring_v z r) profile.

(** The two triangles of the quad (i, j), (i, j_next), (i+1, j_next), (i+1, j). *)
Definition quad_faces (i j : nat) : list face :=
  let base_i := (i * sections)%nat in
  let base_next := ((i + 1) * sections)%nat in
  let j_next := ((j + 1) mod sections)%nat in
  [ ((base_i + j)%nat, (base_i + j_next)%nat, (base_next + j)%nat);
    ((base_next + j)%nat, (base_i + j_next)%nat, (base_next + j_next)%nat) ].

Definition side_faces (num_rings : nat) : list face :=
  flat_map (fun i => flat_map (quad_faces i) (seq 0 sections))
           (seq 0 (num_rings - 1)).

Definition bottom_faces (bottom_center_idx : nat) : list face :=
  map (fun j =>
         let j_next := ((j + 1) mod sections)%nat in
         (bottom_center_idx, j_next, j))
      (seq 0 sections).

Definition top_faces (top_center_idx base_top : nat) : list face :=
  map (fun j =>
         let j_next := ((j + 1) mod sections)%nat in
         (top_center_idx, (base_top + j)%nat, (base_top + j_next)%nat))
      (seq 0 sections).

(** The [vertices] and [faces] handed to the [trimesh.Trimesh] constructor. *)
Definition chamfered_pin_arrays (radius height chamfer : Q)
           (taper_top flare_bottom : bool) : list vec3 * list face :=
  let profile := profile radius height chamfer taper_top flare_bottom in
  let vertices := ring_vertices profile in
  let num_rings := List.length profile in
  let faces := side_faces num_rings in
  (* Cap the bottom *)
  let vertices := vertices ++ [(0, 0, fst (hd (0, 0) profile))] in
  let bottom_center_idx := (List.length vertices - 1)%nat in
  let faces := faces ++ bottom_faces bottom_center_idx in
  (* Cap the top *)
  let vertices := vertices ++ [(0, 0, fst (last profile (0, 0)))] in
  let top_center_idx := (List.length vertices - 1)%nat in
  let base_top := ((num_rings - 1) * sections)%nat in
  let faces := faces ++ top_faces top_center_idx base_top in
  (vertices, faces).

Context `{TM : Trimesh}.

Definition _create_chamfered_pin (radius height chamfer : Q)
           (taper_top flare_bottom : bool) : result mesh :=
  let '(vertices, faces) :=
    chamfered_pin_arrays radius height chamfer taper_top flare_bottom in
  Trimesh_new vertices faces.

End ChamferedPin.

(** ** [SmartSplitter] *)

(** The dict returned by [_analyze_cap_surface]. *)
Record cap_data : Type := Cap_data {
  centers : list vec3;
  max_radius : Q
}.

(** [np.where(mask)[0]] *)
Fixpoint np_where (i : nat) (mask : list bool) : list nat :=
  match mask with
  | [] => []
  | b :: mask' => if b then i :: np_where (S i) mask' else np_where (S i) mask'
  end.

Definition unwrap {A : Type} (o : option A) : result A :=
  match o with
  | Some a => Ok a
  | None => Raise TypeError
  end.

Section SmartSplitter.
Context `{SH : Shapely} `{TM : @Trimesh SH} `{TG : TrigTable}.

(** *** [suggest_split] *)

Definition suggest_split (self_mesh : mesh) (axis_idx : option Z)
  : result (vec3 * vec3 * option mesh) :=
  let bounds := bounds self_mesh in
  let extents := extents self_mesh in
  let axis_idx :=
    match axis_idx with
    | Some i => i
    | None => match extents with Some e => np_argmax e | None => 0%Z end
    end in
  (* the progress line reads axis_names[axis_idx] and extents[axis_idx] *)
  _ <- index3 axis_idx ;;
  e <- unwrap extents ;;
  _ <- vget e axis_idx ;;
  b <- unwrap bounds ;;
  lo <- vget (fst b) axis_idx ;;
  hi <- vget (snd b) axis_idx ;;
  let mid_point := (lo + hi) / 2.0 in
  origin <- vset (centroid self_mesh) axis_idx mid_point ;;
  normal <- vset (0, 0, 0) axis_idx 1.0 ;;
  section_mesh <- section_visualization self_mesh origin normal ;;
  Ok (origin, normal, section_mesh).

(** *** [_analyze_cap_surface] *)

(** 1. Identify faces on the cut plane *)
Definition on_plane_mask (m : mesh) (plane_origin plane_normal : vec3)
  : list bool :=
  let vectors := map (fun v => vsub v plane_origin) (vertices m) in
  let distances := map (fun v => dot v plane_normal) vectors in
  map (fun d => Qabs d <? 1e-4) distances.

Definition face_mask (m : mesh) (plane_origin plane_normal : vec3)
  : result (list bool) :=
  let on_plane_mask := on_plane_mask m plane_origin plane_normal in
  mapM (fun f : face =>
          let '(a, b, c) := f in
          ma <- getitem on_plane_mask a ;;
          mb <- getitem on_plane_mask b ;;
          mc <- getitem on_plane_mask c ;;
          Ok (ma && mb && mc))
       (faces m).

Definition cap_faces_indices (m : mesh) (plane_origin plane_normal : vec3)
  : result (list nat) :=
  face_mask <- face_mask m plane_origin plane_normal ;;
  Ok (np_where 0 face_mask).

(** 5. Analyze Shape for Multiple Pins *)
Definition edge_lengths (x y : list Q) : result (list Q) :=
  mapM (fun i =>
          xi <- getitem x i ;;
          yi <- getitem y i ;;
          xj <- getitem x (i + 1) ;;
          yj <- getitem y (i + 1) ;;
          Ok (point_distance (xi, yi) (xj, yj)))
       (seq 0 4).

Definition aspect_ratio (edge_lengths : list Q) : result Q :=
  length_ <- max_list edge_lengths ;;
  width <- min_list edge_lengths ;;
  (* Avoid division by zero *)
  let width := if width <? 0.1 then 0.1 else width in
  truediv length_ width.

(** Determine number of pins *)
Definition num_pins (aspect_ratio : Q) : nat :=
  if aspect_ratio >? 10.0 then 3
  else if aspect_ratio >? 3.0 then 2
  else 1.

(** [num_pins == 1]: use centroid *)
Definition single_center (main_poly : geometry) : result (list pt2) :=
  pt <- centroid2 main_poly ;;
  pt <- (if negb (contains main_poly pt) then polylabel main_poly 0.1
         else Ok pt) ;;
  Ok [pt].

(** The centerline [(start, end)] of the rectangle.  In the [else] branch
    the source reads [p3], which is bound in the [if] branch only. *)
Definition centerline (x y : list Q) : result (pt2 * pt2) :=
  x0 <- getitem x 0 ;; y0 <- getitem y 0 ;;
  x1 <- getitem x 1 ;; y1 <- getitem y 1 ;;
  x2 <- getitem x 2 ;; y2 <- getitem y 2 ;;
  let p0 := (x0, y0) in
  let p1 := (x1, y1) in
  let p2 := (x2, y2) in
  let dist01 := point_distance p0 p1 in
  let dist12 := point_distance p1 p2 in
  if dist01 >=? dist12 then
    x3 <- getitem x 3 ;; y3 <- getitem y 3 ;;
    let p3 := (x3, y3) in
    let start := ((fst p0 + fst p3) / 2, (snd p0 + snd p3) / 2) in
    let end_ := ((fst p1 + fst p2) / 2, (snd p1 + snd p2) / 2) in
    Ok (start, end_)
  else
    Raise (UnboundLocalError "p3").

(** [for i in range(num_pins)], over the remaining values [range_] of [i]. *)
Fixpoint place_pins (main_poly : geometry) (start end_ : pt2) (num_pins : nat)
         (range_ : list nat) (centers_2d : list pt2) : result (list pt2) :=
  match range_ with
  | [] => Ok centers_2d
  | i :: range_ =>
      let fraction :=
        inject_Z (Z.of_nat (2 * i + 1)) / inject_Z (Z.of_nat (2 * num_pins)) in
      pt <- line_interpolate start end_ fraction ;;
      if contains main_poly pt
      then place_pins main_poly start end_ num_pins range_ (centers_2d ++ [pt])
      else place_pins main_poly start end_ num_pins range_ centers_2d
  end.

(** The 2D centers: steps 5 and the fallback "if all generated points
    failed". *)
Definition plan_centers (main_poly : geometry) (x y : list Q) (num_pins : nat)
  : result (list pt2) :=
  centers_2d <-
    (if (num_pins =? 1)%nat then single_center main_poly
     else
       '(start, end_) <- centerline x y ;;
       place_pins main_poly start end_ num_pins (seq 0 num_pins) []) ;;
  match centers_2d with
  | [] => pt <- polylabel main_poly 0.1 ;; Ok [pt]
  | _ => Ok centers_2d
  end.

(** Steps 6 and 7: the safe radius, from the first center, and the centers
    back in 3D. *)
Definition cap_data_of (to_3d : mat4) (main_poly : geometry)
           (centers_2d : list pt2) : result cap_data :=
  (* 6. Calculate Max Radius: use the first center *)
  c0 <- getitem centers_2d 0 ;;
  max_radius <- boundary_distance c0 main_poly ;;
  (* 7. Transform Centers back to 3D *)
  let centers_3d :=
    map (fun c2d : pt2 => dot_mat4_xyz to_3d (fst c2d, snd c2d, 0, 1))
        centers_2d in
  Ok {| centers := centers_3d; max_radius := max_radius |}.

(** The body of the [try] block. *)
Definition analyze_cap_surface_body (m : mesh) (plane_origin plane_normal : vec3)
  : result (option cap_data) :=
  cap_faces_indices <- cap_faces_indices m plane_origin plane_normal ;;
  if (List.length cap_faces_indices =? 0)%nat then Ok None else
  (* 2. Create a sub-mesh of just the cap *)
  cap_mesh <- submesh m cap_faces_indices ;;
  (* 3. Transform to 2D plane *)
  let T_trans := translation_matrix (vneg plane_origin) in
  T_rot <- align_vectors plane_normal z_axis ;;
  let to_2d := concatenate_matrices T_rot T_trans in
  to_3d <- inverse_matrix to_2d ;;
  cap_2d <- merge_vertices cap_mesh ;;
  _ <- apply_transform cap_2d to_2d ;;
  (* 4. Extract Polygons *)
  poly_or_multi <- projected cap_mesh plane_normal plane_origin ;;
  match poly_or_multi with
  | None => Ok None
  | Some poly_or_multi =>
      if is_empty poly_or_multi then Ok None else
      main_poly <- (if is_multipolygon poly_or_multi
                    then unary_union poly_or_multi else Ok poly_or_multi) ;;
      main_poly <- (if negb (is_valid main_poly)
                    then buffer0 main_poly else Ok main_poly) ;;
      (* 5. Analyze Shape for Multiple Pins *)
      '(x, y) <- minimum_rotated_rectangle_xy main_poly ;;
      edge_lengths <- edge_lengths x y ;;
      aspect_ratio <- aspect_ratio edge_lengths ;;
      let num_pins := num_pins aspect_ratio in
      centers_2d <- plan_centers main_poly x y num_pins ;;
      data <- cap_data_of to_3d main_poly centers_2d ;;
      Ok (Some data)
  end.

(** [try: ... except Exception: return None] *)
Definition _analyze_cap_surface (m : mesh) (plane_origin plane_normal : vec3)
  : option cap_data :=
  match analyze_cap_surface_body m plane_origin plane_normal with
  | Ok data => data
  | Raise _ => None
  end.

(** *** [perform_split_and_key] *)

(** Smart Sizing *)
Definition pin_radius (max_radius : Q) : Q :=
  let pin_radius := max_radius * 0.6 in
  Py.max 2.0 (Py.min pin_radius 20.0).

Definition pin_height (pin_radius : Q) : Q :=
  let pin_height := pin_radius * 3.0 in
  Py.max 10.0 (Py.min pin_height 30.0).

Definition tolerance : Q := 0.4.

(** [pin_radius + (tolerance / 2.0)], rounded as the interpreter rounds
    it.  The literal 0.4 is read as the rational it spells: halving is
    exact on floats, so the quotient is the float nearest 0.2 either way. *)
Definition hole_radius (pin_radius : Q) : Q :=
  Double.add pin_radius (Double.div tolerance 2.0).

Definition hole_height (pin_height : Q) : Q := pin_height.

(** [for center in centers_3d], accumulating [pins] and [hole_cutters]. *)
Fixpoint make_keys (rotation : mat4) (pin_radius pin_diameter pin_height : Q)
         (centers_3d : list vec3) (pins hole_cutters : list mesh)
  : result (list mesh * list mesh) :=
  match centers_3d with
  | [] => Ok (pins, hole_cutters)
  | center :: centers_3d =>
      (* Chamfer = 10% of diameter *)
      let pin_chamfer := 0.1 * pin_diameter in
      pin <- _create_chamfered_pin pin_radius pin_height pin_chamfer
               true true ;;
      pin <- apply_transform pin rotation ;;
      pin <- apply_translation pin center ;;
      let pins := pins ++ [pin] in
      let hole_radius := hole_radius pin_radius in
      let hole_diameter := 2 * hole_radius in
      let hole_height := hole_height pin_height in
      let hole_chamfer := 0.1 * hole_diameter in
      hole_cutter <- _create_chamfered_pin hole_radius hole_height hole_chamfer
                       false true ;;
      hole_cutter <- apply_transform hole_cutter rotation ;;
      hole_cutter <- apply_translation hole_cutter center ;;
      let hole_cutters := hole_cutters ++ [hole_cutter] in
      make_keys rotation pin_radius pin_diameter pin_height centers_3d
                pins hole_cutters
  end.

(** A boolean result that is a [Scene] is concatenated into one mesh. *)
Definition collapse_scene (r : mesh + list mesh) : result mesh :=
  match r with
  | inl m => Ok m
  | inr geometry_values => concatenate geometry_values
  end.

(** [concatenate(parts) if len(parts) > 1 else parts[0]] *)
Definition combine (parts : list mesh) : result mesh :=
  if (1 <? List.length parts)%nat then concatenate parts else getitem parts 0.

(** "Applying Boolean operations...": the pins are united with half A,
    the cutters subtracted from half B. *)
Definition apply_boolean_operations (mesh_a mesh_b : mesh)
           (pins hole_cutters : list mesh) : result (mesh * mesh) :=
  (* Union Pins to Mesh A *)
  mesh_a_keyed <-
    try_except
      (all_pins <- combine pins ;;
       r <- boolean_union [mesh_a; all_pins] ;;
       collapse_scene r)
      (fun _ => concatenate ([mesh_a] ++ pins)) ;;
  (* Difference Holes from Mesh B *)
  mesh_b_keyed <-
    try_except
      (all_cutters <- combine hole_cutters ;;
       r <- boolean_difference [mesh_b; all_cutters] ;;
       collapse_scene r)
      (fun _ => Ok mesh_b) ;;
  Ok (mesh_a_keyed, mesh_b_keyed).

Definition perform_split_and_key (self_mesh : mesh) (origin normal : vec3)
  : result (mesh * mesh) :=
  mesh_a <- slice_mesh_plane self_mesh origin normal ;;
  let neg_normal := vneg normal in
  mesh_b <- slice_mesh_plane self_mesh origin neg_normal ;;
  let cap_data := _analyze_cap_surface mesh_a origin normal in
  match cap_data with
  | None => Ok (mesh_a, mesh_b)
  | Some cap_data =>
      let centers_3d := centers cap_data in
      let max_radius := max_radius cap_data in
      let pin_radius := pin_radius max_radius in
      let pin_diameter := 2 * pin_radius in
      let pin_height := pin_height pin_radius in
      let target_direction := vneg normal in
      rotation <- align_vectors z_axis target_direction ;;
      '(pins, hole_cutters) <-
        make_keys rotation pin_radius pin_diameter pin_height centers_3d [] [] ;;
      apply_boolean_operations mesh_a mesh_b pins hole_cutters
  end.

End SmartSplitter.

(** ** The request handlers of [main.py] *)

(** [str.lower] on ASCII letters. *)
Definition lower_ascii (c : ascii) : ascii :=
  let n := nat_of_ascii c in
  if ((65 <=? n) && (n <=? 90))%nat then ascii_of_nat (n + 32) else c.

Fixpoint lower (s : string) : string :=
  match s with
  | EmptyString => EmptyString
  | String c s' => String (lower_ascii c) (lower s')
  end.

(** [axis_map.get(key)] for [axis_map = {'x': 0, 'y': 1, 'z': 2}]. *)
Definition axis_map_get (key : string) : option Z :=
  if String.eqb key "x" then Some 0%Z
  else if String.eqb key "y" then Some 1%Z
  else if String.eqb key "z" then Some 2%Z
  else None.

(** The [axis_idx] the handler passes on for the request field [axis]. *)
Definition request_axis_idx (axis : option string) : option Z :=
  match axis with
  | None => None
  | Some a => if String.eqb a "" then None else axis_map_get (lower a)
  end.

Section Handlers.
Context `{SH : Shapely} `{TM : @Trimesh SH} `{TG : TrigTable}.

(** [POST /suggest_split]: the position, the normal and the visualization
    mesh of the response. *)
Definition suggest_split_request (self_mesh : mesh) (axis : option string)
  : result (vec3 * vec3 * option mesh) :=
  suggest_split self_mesh (request_axis_idx axis).

(** Move to floor (Z=0) *)
Definition move_to_floor (part : mesh) : result mesh :=
  match bounds part with
  | Some b => let '(_, _, z) := fst b in apply_translation part (0, 0, - z)
  | None => Ok part
  end.

(** [POST /perform_split], up to the export of the two parts. *)
Definition perform_split (self_mesh : mesh) (origin normal : vec3)
           (addKeys : bool) : result (mesh * mesh) :=
  '(part_a, part_b) <-
    (if addKeys then perform_split_and_key self_mesh origin normal
     else
       part_a <- slice_mesh_plane self_mesh origin normal ;;
       part_b <- slice_mesh_plane self_mesh origin (vneg normal) ;;
       Ok (part_a, part_b)) ;;
  (* Rotate parts to lay flat on cut surface *)
  let z_down : vec3 := (0, 0, - (1)) in
  part_a <-
    try_except
      (T_a <- align_vectors (vneg normal) z_down ;; apply_transform part_a T_a)
      (fun _ => Ok part_a) ;;
  part_b <-
    try_except
      (T_b <- align_vectors normal z_down ;; apply_transform part_b T_b)
      (fun _ => Ok part_b) ;;
  part_a <- move_to_floor part_a ;;
  part_b <- move_to_floor part_b ;;
  Ok (part_a, part_b).

End Handlers.

(** ** Vocabulary of the statements *)

(** Coordinate [i] of a vector, the vector with coordinate [i] replaced, and
    the positive unit vector of axis [i] (for [i] in 0..2). *)
Definition coord (v : vec3) (i : nat) : Q :=
  let '(x, y, z) := v in match i with O => x | S O => y | _ => z end.

Definition replace_coord (v : vec3) (i : nat) (q : Q) : vec3 :=
  let '(x, y, z) := v in
  match i with O => (q, y, z) | S O => (x, q, z) | _ => (x, y, q) end.

Definition unit_vector (i : nat) : vec3 := replace_coord (0, 0, 0) i 1.0.

(** [clamp(x, lo, hi)] as the spec writes it. *)
Definition clamp (x lo hi : Q) : Q := Qmax lo (Qmin x hi).

(** A flag counted as a number, as in [taper_top + flare_bottom]. *)
Definition flag (b : bool) : Q := if b then 1 else 0.

(** The fraction of the centerline at which pin [i] of [n] is proposed:
    (2 i + 1) / (2 n). *)
Definition pin_fraction (i n : nat) : Q :=
  inject_Z (Z.of_nat (2 * i + 1)) / inject_Z (Z.of_nat (2 * n)).

(** Rationals equal as numbers, coordinate by coordinate. *)
Definition pt2_eq (p q : pt2) : Prop := fst p == fst q /\ snd p == snd q.

(** The vertices within [eps] of the plane through [origin], measured
    along [n], and the faces with all three vertices among them: the
    selection of the cap at a tolerance [eps]. *)
Definition vertices_within (eps : Q) (m : mesh) (origin n : vec3) : list bool :=
  map (fun v => Qabs (dot (vsub v origin) n) <? eps) (vertices m).

Definition faces_within (eps : Q) (m : mesh) (origin n : vec3)
  : result (list nat) :=
  let mask := vertices_within eps m origin n in
  face_mask <-
    mapM (fun f : face =>
            let '(a, b, c) := f in
            ma <- getitem mask a ;;
            mb <- getitem mask b ;;
            mc <- getitem mask c ;;
            Ok (ma && mb && mc))
         (faces m) ;;
  Ok (np_where 0 face_mask).

(** *** Mesh topology *)

Definition edge : Type := nat * nat.

(** The three directed edges of a triangle, in winding order. *)
Definition face_edges (f : face) : list edge :=
  let '(a, b, c) := f in [(a, b); (b, c); (c, a)].

Definition all_edges (fs : list face) : list edge := flat_map face_edges fs.

Definition edge_eqb (e1 e2 : edge) : bool :=
  ((fst e1 =? fst e2) && (snd e1 =? snd e2))%nat.

Definition edge_rev (e : edge) : edge := (snd e, fst e).

Definition same_edge (e1 e2 : edge) : bool :=
  edge_eqb e1 e2 || edge_eqb e1 (edge_rev e2).

Definition count_edges (p : edge -> bool) (es : list edge) : nat :=
  List.length (filter p es).

(** Every edge belongs to exactly two triangles (trimesh's [is_watertight]). *)
Definition watertight (fs : list face) : bool :=
  let es := all_edges fs in
  forallb (fun e => (count_edges (same_edge e) es =? 2)%nat) es.

(** The two triangles on an edge run through it in opposite directions
    (trimesh's [is_winding_consistent]). *)
Definition winding_consistent (fs : list face) : bool :=
  let es := all_edges fs in
  forallb (fun e => ((count_edges (edge_eqb e) es =? 1)
                     && (count_edges (edge_eqb (edge_rev e)) es =? 1))%nat) es.

(** Every face indexes existing vertices. *)
Definition faces_in_range (n : nat) (fs : list face) : bool :=
  forallb (fun f : face =>
             let '(a, b, c) := f in ((a <? n) && (b <? n) && (c <? n))%nat) fs.

(** The faces of a pin of [num_rings] rings: the bands between the rings,
    the fan around the bottom center (vertex [num_rings * sections]) and the
    fan around the top center (the vertex after it). *)
Definition pin_faces (num_rings : nat) : list face :=
  (side_faces num_rings ++ bottom_faces (num_rings * sections))
    ++ top_faces (num_rings * sections + 1) ((num_rings - 1) * sections).

(** The vertices of the surface of revolution of a profile: its rings, then
    the bottom center and the top center. *)
Definition revolved_vertices `{TG : TrigTable} (p : list (Q * Q)) : list vec3 :=
  (ring_vertices p ++ [(0, 0, fst (hd (0, 0) p))])
    ++ [(0, 0, fst (last p (0, 0)))].

(** *** Face orientation *)

Definition vadd (a b : vec3) : vec3 :=
  let '(ax, ay, az) := a in let '(bx, by_, bz) := b in
  (ax + bx, ay + by_, az + bz).

Definition cross (a b : vec3) : vec3 :=
  let '(ax, ay, az) := a in let '(bx, by_, bz) := b in
  (ay * bz - az * by_, az * bx - ax * bz, ax * by_ - ay * bx).

(** The normal of the triangle (pa, pb, pc) by the right-hand rule. *)
Definition triangle_normal (pa pb pc : vec3) : vec3 :=
  cross (vsub pb pa) (vsub pc pa).

(** A triangle of a solid of revolution about the Z axis that spans the
    heights 0..[height] faces outward when its normal points away from the
    axis; a triangle perpendicular to the axis (a cap) faces outward when
    its normal points away from mid-height: [g] being three times the
    centroid of the triangle, [gz / 3 - height / 2] and [2 * gz - 3 * height]
    have the same sign. *)
Definition triangle_outward (height : Q) (pa pb pc : vec3) : Prop :=
  let '(nx, ny, nz) := triangle_normal pa pb pc in
  let '(gx, gy, gz) := vadd (vadd pa pb) pc in
  let radial := nx * gx + ny * gy in
  0 < radial \/ (radial == 0 /\ 0 < nz * (2 * gz - 3 * height)).

Definition triangle_outwardb (height : Q) (pa pb pc : vec3) : bool :=
  let '(nx, ny, nz) := triangle_normal pa pb pc in
  let '(gx, gy, gz) := vadd (vadd pa pb) pc in
  let radial := nx * gx + ny * gy in
  (0 <? radial) || (Qeq_bool radial 0 && (0 <? nz * (2 * gz - 3 * height))).

Definition face_outward (height : Q) (vs : list vec3) (f : face) : Prop :=
  let '(a, b, c) := f in
  exists pa pb pc,
    nth_error vs a = Some pa /\ nth_error vs b = Some pb /\
    nth_error vs c = Some pc /\ triangle_outward height pa pb pc.

Definition face_outwardb (height : Q) (vs : list vec3) (f : face) : bool :=
  let '(a, b, c) := f in
  match nth_error vs a, nth_error vs b, nth_error vs c with
  | Some pa, Some pb, Some pc => triangle_outwardb height pa pb pc
  | _, _, _ => false
  end.

(** The heights of a profile increase strictly from each point to the
    next. *)
Fixpoint rising (p : list (Q * Q)) : Prop :=
  match p with
  | a :: (b :: _) as rest => fst a < fst b /\ rising rest
  | _ => True
  end.

(** A profile that bounds a solid between the heights 0 and [height]: at
    least two points, rising from 0 to [height], every radius positive. *)
Definition solid_profile (height : Q) (p : list (Q * Q)) : Prop :=
  (2 <= List.length p)%nat /\
  rising p /\
  Forall (fun a : Q * Q => 0 < snd a) p /\
  fst (hd (0, 0) p) == 0 /\
  fst (last p (0, 0)) == height.

(** The angular samples run counter-clockwise around the axis: each sample
    direction turns left into the next one. *)
Definition counter_clockwise `{TG : TrigTable} : Prop :=
  forall j, (j < sections)%nat ->
    let j_next := ((j + 1) mod sections)%nat in
    0 < cos_theta j * sin_theta j_next - sin_theta j * cos_theta j_next.

(** A pin (or cutter) placed as the loop of [perform_split_and_key] places
    it: rotated, then translated to its center. *)
Definition placed `{TM : Trimesh} (rotation : mat4) (center : vec3) (m : mesh)
  : result mesh :=
  m <- apply_transform m rotation ;; apply_translation m center.

(** ** Sample data and stand-ins for the libraries

    Small, exact stand-ins on which the model runs inside Rocq: polygons are
    axis-parallel rectangles, meshes are transformed vertex by vertex, and
    the operations that need the real libraries raise [LibraryError]. *)

Module Sample.

(** *** Rectangles for shapely: (minx, miny, maxx, maxy) *)

Definition rect : Type := Q * Q * Q * Q.

Definition rect_xy (g : rect) : list Q * list Q :=
  let '(x0, y0, x1, y1) := g in
  ([x0; x1; x1; x0; x0], [y0; y0; y1; y1; y0]).

Definition rect_center (g : rect) : pt2 :=
  let '(x0, y0, x1, y1) := g in ((x0 + x1) / 2, (y0 + y1) / 2).

Definition rect_contains (g : rect) (p : pt2) : bool :=
  let '(x0, y0, x1, y1) := g in
  (x0 <? fst p) && (fst p <? x1) && (y0 <? snd p) && (snd p <? y1).

Definition rect_covers (g : rect) (p : pt2) : bool :=
  let '(x0, y0, x1, y1) := g in
  Qle_bool x0 (fst p) && Qle_bool (fst p) x1
  && Qle_bool y0 (snd p) && Qle_bool (snd p) y1.

(** The distance of two points on a line parallel to an axis. *)
Definition axis_distance (a b : pt2) : Q :=
  Qabs (fst a - fst b) + Qabs (snd a - snd b).

Definition rect_boundary_distance (p : pt2) (g : rect) : Q :=
  let '(x0, y0, x1, y1) := g in
  Qmin (Qmin (Qabs (fst p - x0)) (Qabs (x1 - fst p)))
       (Qmin (Qabs (snd p - y0)) (Qabs (y1 - snd p))).

Definition lerp (a b : pt2) (fraction : Q) : pt2 :=
  (fst a + fraction * (fst b - fst a), snd a + fraction * (snd b - snd a)).

Definition shapely : Shapely := {|
  geometry := rect;
  is_empty := fun _ => false;
  is_multipolygon := fun _ => false;
  is_valid := fun _ => true;
  unary_union := fun g => Ok g;
  buffer0 := fun g => Ok g;
  minimum_rotated_rectangle_xy := fun g => Ok (rect_xy g);
  point_distance := axis_distance;
  centroid2 := fun g => Ok (rect_center g);
  contains := rect_contains;
  covers := rect_covers;
  polylabel := fun g _ => Ok (rect_center g);
  line_interpolate := fun a b fraction => Ok (lerp a b fraction);
  boundary_distance := fun p g => Ok (rect_boundary_distance p g)
|}.

(** *** Vertex-wise meshes for trimesh *)

Definition vmin (a b : vec3) : vec3 :=
  let '(ax, ay, az) := a in let '(bx, by_, bz) := b in
  (Qmin ax bx, Qmin ay by_, Qmin az bz).

Definition vmax (a b : vec3) : vec3 :=
  let '(ax, ay, az) := a in let '(bx, by_, bz) := b in
  (Qmax ax bx, Qmax ay by_, Qmax az bz).

Definition mesh_bounds (m : mesh) : option (vec3 * vec3) :=
  match vertices m with
  | [] => None
  | v :: vs => Some (fold_left vmin vs v, fold_left vmax vs v)
  end.

Definition mesh_extents (m : mesh) : option vec3 :=
  match mesh_bounds m with
  | Some (lo, hi) => Some (vsub hi lo)
  | None => None
  end.

(** The middle of the bounding box, standing in for the centroid. *)
Definition mesh_center (m : mesh) : vec3 :=
  match mesh_bounds m with
  | Some (lo, hi) => vscale (1 / 2) (vadd lo hi)
  | None => (0, 0, 0)
  end.

Definition identity_matrix : mat4 :=
  ((1, 0, 0, 0), (0, 1, 0, 0), (0, 0, 1, 0), (0, 0, 0, 1)).

Definition translation (t : vec3) : mat4 :=
  let '(x, y, z) := t in
  ((1, 0, 0, x), (0, 1, 0, y), (0, 0, 1, z), (0, 0, 0, 1)).

Definition column (m : mat4) (k : nat) : row4 :=
  let pick (r : row4) :=
    let '(a, b, c, d) := r in
    match k with O => a | S O => b | S (S O) => c | _ => d end in
  let '(r0, r1, r2, r3) := m in (pick r0, pick r1, pick r2, pick r3).

Definition matmul (a b : mat4) : mat4 :=
  let row (r : row4) : row4 :=
    (dot4 r (column b 0), dot4 r (column b 1),
     dot4 r (column b 2), dot4 r (column b 3)) in
  let '(r0, r1, r2, r3) := a in (row r0, row r1, row r2, row r3).

Definition transform (m : mesh) (t : mat4) : mesh :=
  {| vertices :=
       map (fun v : vec3 => let '(x, y, z) := v in dot_mat4_xyz t (x, y, z, 1))
           (vertices m);
     faces := faces m |}.

Definition translate (m : mesh) (t : vec3) : mesh :=
  {| vertices := map (fun v => vadd v t) (vertices m); faces := faces m |}.

Definition shift_face (offset : nat) (f : face) : face :=
  let '(a, b, c) := f in ((a + offset)%nat, (b + offset)%nat, (c + offset)%nat).

Definition append_mesh (a b : mesh) : mesh :=
  {| vertices := vertices a ++ vertices b;
     faces := faces a ++ map (shift_face (List.length (vertices a))) (faces b) |}.

Definition vec3_eqb (a b : vec3) : bool :=
  let '(ax, ay, az) := a in let '(bx, by_, bz) := b in
  Qeq_bool ax bx && Qeq_bool ay by_ && Qeq_bool az bz.

(** A mesh wholly on one side of the plane is returned whole or emptied;
    cutting through triangles needs the real slicer. *)
Definition slice_uncut (m : mesh) (origin normal : vec3) : result mesh :=
  let side := map (fun v => dot (vsub v origin) normal) (vertices m) in
  if forallb (fun d => Qle_bool 0 d) side then Ok m
  else if forallb (fun d => Qle_bool d 0) side
       then Ok {| vertices := []; faces := [] |}
       else Raise (LibraryError "the plane crosses the mesh").

(** The rotation between equal directions, and the half turn about X
    between the two directions of the Z axis. *)
Definition align_axis (a b : vec3) : result mat4 :=
  if vec3_eqb a b then Ok identity_matrix
  else if vec3_eqb a (vneg b) && vec3_eqb (replace_coord a 2 0) (0, 0, 0)
       then Ok ((1, 0, 0, 0), (0, - (1), 0, 0), (0, 0, - (1), 0), (0, 0, 0, 1))
       else Raise (LibraryError "no rotation between these directions").

(** The inverse of a rigid motion: the rotation transposed, the
    translation rotated back and negated. *)
Definition rigid_inverse (t : mat4) : mat4 :=
  let '(a0, a1, a2, tx) := column t 0 in
  let '(b0, b1, b2, ty) := column t 1 in
  let '(c0, c1, c2, tz) := column t 2 in
  let '(d0, d1, d2, _) := column t 3 in
  ((a0, a1, a2, - (a0 * d0 + a1 * d1 + a2 * d2)),
   (b0, b1, b2, - (b0 * d0 + b1 * d1 + b2 * d2)),
   (c0, c1, c2, - (c0 * d0 + c1 * d1 + c2 * d2)),
   (0, 0, 0, 1)).

(** The outline of a mesh seen along Z, for meshes whose outline is a
    rectangle: the bounding rectangle of its vertices, relative to the
    origin of the plane. *)
Definition project_along_z (m : mesh) (normal origin : vec3)
  : result (option (@geometry shapely)) :=
  if vec3_eqb normal z_axis then
    match mesh_bounds m with
    | Some (lo, hi) =>
        let '(lx, ly, _) := vsub lo origin in
        let '(hx, hy, _) := vsub hi origin in
        Ok (Some ((lx, ly, hx, hy) : rect))
    | None => Ok None
    end
  else Raise (LibraryError "no polygon extraction off the Z axis").

(** The faces picked by index, on the vertices they use. *)
Definition pick_faces (m : mesh) (idx : list nat) : result mesh :=
  fs <- mapM (getitem (faces m)) idx ;;
  vs <- mapM (fun f : face =>
                let '(a, b, c) := f in
                pa <- getitem (vertices m) a ;;
                pb <- getitem (vertices m) b ;;
                pc <- getitem (vertices m) c ;;
                Ok [pa; pb; pc]) fs ;;
  Ok {| vertices := List.concat vs;
        faces := map (fun k => (3 * k, 3 * k + 1, 3 * k + 2)%nat)
                     (seq 0 (List.length fs)) |}.

Definition trimesh : @Trimesh shapely := {|
  bounds := mesh_bounds;
  extents := mesh_extents;
  centroid := mesh_center;
  section_visualization := fun _ _ _ => Ok None;
  slice_mesh_plane := slice_uncut;
  submesh := pick_faces;
  translation_matrix := translation;
  align_vectors := align_axis;
  concatenate_matrices := matmul;
  inverse_matrix := fun t => Ok (rigid_inverse t);
  merge_vertices := fun m => Ok m;
  projected := project_along_z;
  Trimesh_new := fun vs fs => Ok {| vertices := vs; faces := fs |};
  apply_transform := fun m t => Ok (transform m t);
  apply_translation := fun m t => Ok (translate m t);
  concatenate := fun ms =>
    Ok (fold_left append_mesh ms {| vertices := []; faces := [] |});
  boolean_union := fun _ => Raise (LibraryError "no boolean backend");
  boolean_difference := fun _ => Raise (LibraryError "no boolean backend")
|}.

(** *** A table of cosines and sines

    [cos(2 pi j / 32)] and [sin(2 pi j / 32)] to four decimals. *)

Definition cos_table : list Q :=
  [ 1.0; 0.9808; 0.9239; 0.8315; 0.7071; 0.5556; 0.3827; 0.1951;
    0.0; - 0.1951; - 0.3827; - 0.5556; - 0.7071; - 0.8315; - 0.9239; - 0.9808;
    - 1.0; - 0.9808; - 0.9239; - 0.8315; - 0.7071; - 0.5556; - 0.3827; - 0.1951;
    0.0; 0.1951; 0.3827; 0.5556; 0.7071; 0.8315; 0.9239; 0.9808 ].

Definition sin_table : list Q :=
  [ 0.0; 0.1951; 0.3827; 0.5556; 0.7071; 0.8315; 0.9239; 0.9808;
    1.0; 0.9808; 0.9239; 0.8315; 0.7071; 0.5556; 0.3827; 0.1951;
    0.0; - 0.1951; - 0.3827; - 0.5556; - 0.7071; - 0.8315; - 0.9239; - 0.9808;
    - 1.0; - 0.9808; - 0.9239; - 0.8315; - 0.7071; - 0.5556; - 0.3827; - 0.1951 ].

Definition trig : TrigTable := {|
  cos_theta := fun j => nth j cos_table 0;
  sin_theta := fun j => nth j sin_table 0
|}.

(** *** A box that touches the slab of the cut plane

    The box 0.00007 <= x <= 10, 0 <= y, z <= 10: it lies on the positive
    side of the plane x = 0, its nearest face 0.07 micrometres away. *)

Definition near_box : mesh := {|
  vertices :=
    [ (0.00007, 0, 0); (0.00007, 10, 0); (0.00007, 10, 10); (0.00007, 0, 10);
      (10, 0, 0); (10, 10, 0); (10, 10, 10); (10, 0, 10) ];
  faces :=
    [ (0, 2, 1); (0, 3, 2);
      (4, 5, 6); (4, 6, 7);
      (0, 1, 5); (0, 5, 4);
      (3, 7, 6); (3, 6, 2);
      (0, 4, 7); (0, 7, 3);
      (1, 2, 6); (1, 6, 5) ]%nat
|}.

(** A bar 50 x 5 x 10 standing on the plane z = 0: the upper half of a
    bar cut at that plane, its cap the rectangle 50 x 5. *)
Definition bar : mesh := {|
  vertices :=
    [ (0, 0, 0); (0, 5, 0); (0, 5, 10); (0, 0, 10);
      (50, 0, 0); (50, 5, 0); (50, 5, 10); (50, 0, 10) ];
  faces := faces near_box
|}.

(** The same bar turned by a quarter turn about Z: 5 x 50 x 10, its cap the
    rectangle 5 x 50 whose first edge is the short one. *)
Definition bar_across : mesh := {|
  vertices :=
    [ (0, 0, 0); (0, 50, 0); (0, 50, 10); (0, 0, 10);
      (5, 0, 0); (5, 50, 0); (5, 50, 10); (5, 0, 10) ];
  faces := faces near_box
|}.

Definition empty_mesh : mesh := {| vertices := []; faces := [] |}.

(** The cap of [bar]: the rectangle 50 x 5, and what the analysis and
    the key loop make of it. *)
Definition bar_cap_polygon : rect := (0, 0, 50, 5).

Definition bar_centers_2d : list pt2 :=
  match plan_centers (SH := shapely) bar_cap_polygon
          (fst (rect_xy bar_cap_polygon)) (snd (rect_xy bar_cap_polygon)) 2 with
  | Ok cs => cs
  | Raise _ => []
  end.

Definition bar_cap : cap_data :=
  match _analyze_cap_surface (TM := trimesh) bar (0, 0, 0) (0, 0, 1) with
  | Some cap => cap
  | None => {| centers := []; max_radius := 0 |}
  end.

Definition half_turn : mat4 :=
  ((1, 0, 0, 0), (0, - (1), 0, 0), (0, 0, - (1), 0), (0, 0, 0, 1)).

Definition bar_keys : list mesh * list mesh :=
  let pr := pin_radius (max_radius bar_cap) in
  match make_keys (TM := trimesh) (TG := trig) half_turn pr (2 * pr)
          (pin_height pr) (centers bar_cap) [] [] with
  | Ok keys => keys
  | Raise _ => ([], [])
  end.

(** A box 100 x 50 x 20, the mesh of the headless test. *)
Definition test_box : mesh := {|
  vertices :=
    [ (- 50, - 25, - 10); (- 50, 25, - 10); (- 50, 25, 10); (- 50, - 25, 10);
      (50, - 25, - 10); (50, 25, - 10); (50, 25, 10); (50, - 25, 10) ];
  faces := faces near_box
|}.

End Sample.

(** ** Polygons by their outline, and the grid search for the pole

    A second stand-in for shapely, for caps that are not rectangles: a
    polygon without holes is the list of the vertices of its exterior
    ring, the closing vertex not repeated.  Containment, distances and the
    centroid are the exact ones, square roots taken to 15 decimals;
    [polylabel] is the grid search of [shapely.algorithms.polylabel] over
    the priority queue of [heapq].  The rectangle of a polygon is its
    bounding box, which is its minimum rotated rectangle for the polygons
    used here. *)

Module Outline.

Definition polygon : Type := list pt2.

(** The edges of the ring, the last one closing it. *)
Definition ring_edges (g : polygon) : list (pt2 * pt2) :=
  match g with
  | [] => []
  | p :: ps => List.combine g (ps ++ [p])
  end.

Definition sq (a : Q) : Q := a * a.

(** The square root to 15 decimals, rounded down. *)
Definition sqrt15 (q : Q) : Q :=
  Qred (inject_Z (Z.sqrt (Qfloor (q * 10 ^ 30))) / 10 ^ 15).

(** The squared distance of [p] to the segment [e]: to its foot on the
    segment's line, moved to the nearer end when it falls outside. *)
Definition segment_distance2 (p : pt2) (e : pt2 * pt2) : Q :=
  let '(a, b) := e in
  let dx := fst b - fst a in
  let dy := snd b - snd a in
  let l2 := sq dx + sq dy in
  let t :=
    if Qeq_bool l2 0 then 0
    else Qmax 0 (Qmin 1 (((fst p - fst a) * dx + (snd p - snd a) * dy) / l2)) in
  Qred (sq (fst p - (fst a + t * dx)) + sq (snd p - (snd a + t * dy))).

Definition ring_distance2 (g : polygon) (p : pt2) : Q :=
  match map (segment_distance2 p) (ring_edges g) with
  | [] => 0
  | d :: ds => fold_left Qmin ds d
  end.

(** [pt.distance(g.boundary)] *)
Definition ring_distance (g : polygon) (p : pt2) : Q :=
  sqrt15 (ring_distance2 g p).

Definition on_ring (g : polygon) (p : pt2) : bool :=
  Qeq_bool (ring_distance2 g p) 0.

(** The edge crosses the horizontal ray from [p] to the right. *)
Definition crosses_ray (p : pt2) (e : pt2 * pt2) : bool :=
  let '(a, b) := e in
  if negb (Bool.eqb (snd p <? snd a) (snd p <? snd b))
  then fst p <? fst a + (snd p - snd a) * (fst b - fst a) / (snd b - snd a)
  else false.

Definition inside_ring (g : polygon) (p : pt2) : bool :=
  Nat.odd (List.length (filter (crosses_ray p) (ring_edges g))).

(** [g.contains(pt)]: in the interior, the boundary excluded. *)
Definition ring_contains (g : polygon) (p : pt2) : bool :=
  negb (on_ring g p) && inside_ring g p.

(** [g.covers(pt)]: in the interior or on the boundary. *)
Definition ring_covers (g : polygon) (p : pt2) : bool :=
  on_ring g p || inside_ring g p.

Definition sumQ (l : list Q) : Q := fold_left Qplus l 0.

(** [g.centroid]: the center of area. *)
Definition ring_centroid (g : polygon) : result pt2 :=
  let es := ring_edges g in
  let w (e : pt2 * pt2) := fst (fst e) * snd (snd e) - fst (snd e) * snd (fst e) in
  let area := sumQ (map w es) / 2 in
  if Qeq_bool area 0 then Raise (LibraryError "no area")
  else
    Ok (Qred (sumQ (map (fun e => (fst (fst e) + fst (snd e)) * w e) es)
              / (6 * area)),
        Qred (sumQ (map (fun e => (snd (fst e) + snd (snd e)) * w e) es)
              / (6 * area))).

(** [g.bounds]: (minx, miny, maxx, maxy). *)
Definition ring_bounds (g : polygon) : Q * Q * Q * Q :=
  match g with
  | [] => (0, 0, 0, 0)
  | p :: ps =>
      (fold_left Qmin (map fst ps) (fst p), fold_left Qmin (map snd ps) (snd p),
       fold_left Qmax (map fst ps) (fst p), fold_left Qmax (map snd ps) (snd p))
  end.

(** The ring of [shapely.geometry.box(minx, miny, maxx, maxy)], closed:
    from (maxx, miny) up, then left, down and back. *)
Definition box_xy (g : polygon) : list Q * list Q :=
  let '(minx, miny, maxx, maxy) := ring_bounds g in
  ([maxx; maxx; minx; minx; maxx], [miny; maxy; maxy; miny; miny]).

Definition euclidean (a b : pt2) : Q :=
  sqrt15 (sq (fst a - fst b) + sq (snd a - snd b)).

(** *** [shapely.algorithms.polylabel] *)

(** A [Cell]: its center, half its size, the signed distance of the
    center to the outline (negative outside) and the largest distance a
    point of the cell can have. *)
Record cell : Type := Cell {
  cell_x : Q;
  cell_y : Q;
  cell_h : Q;
  distance : Q;
  max_distance : Q
}.

Definition signed_distance (g : polygon) (p : pt2) : Q :=
  let distance := ring_distance g p in
  if ring_contains g p then distance else - distance.

Definition new_cell (g : polygon) (x y h : Q) : cell :=
  let distance := signed_distance g (x, y) in
  {| cell_x := Qred x; cell_y := Qred y; cell_h := Qred h;
     distance := distance;
     max_distance := Qred (distance + h * 1.4142135623730951) |}.

(** [Cell.__lt__]: the cell with the larger [max_distance] comes first. *)
Definition cell_lt (self other : cell) : bool :=
  max_distance self >? max_distance other.

Definition no_cell : cell :=
  {| cell_x := 0; cell_y := 0; cell_h := 0; distance := 0; max_distance := 0 |}.

Definition heap_get (heap : list cell) (pos : nat) : cell := nth pos heap no_cell.

Definition heap_set (heap : list cell) (pos : nat) (item : cell) : list cell :=
  firstn pos heap ++ item :: skipn (S pos) heap.

(** [heapq._siftdown(heap, startpos, pos)], for [newitem = heap[pos]];
    [steps] bounds the iterations of the loop, [pos] suffices. *)
Fixpoint siftdown (steps : nat) (heap : list cell) (startpos pos : nat)
         (newitem : cell) : list cell :=
  match steps with
  | O => heap_set heap pos newitem
  | S steps =>
      if (startpos <? pos)%nat then
        let parentpos := ((pos - 1) / 2)%nat in
        let parent := heap_get heap parentpos in
        if cell_lt newitem parent
        then siftdown steps (heap_set heap pos parent) startpos parentpos newitem
        else heap_set heap pos newitem
      else heap_set heap pos newitem
  end.

Definition heappush (heap : list cell) (item : cell) : list cell :=
  let heap := heap ++ [item] in
  let pos := (List.length heap - 1)%nat in
  siftdown pos heap 0 pos item.

(** The first loop of [heapq._siftup]: the smaller child moves up until a
    leaf is reached; the position of the leaf is returned. *)
Fixpoint bubble_up (steps : nat) (heap : list cell) (endpos pos : nat)
  : list cell * nat :=
  match steps with
  | O => (heap, pos)
  | S steps =>
      let childpos := (2 * pos + 1)%nat in
      if (childpos <? endpos)%nat then
        let rightpos := (childpos + 1)%nat in
        let childpos :=
          if (rightpos <? endpos)%nat
             && negb (cell_lt (heap_get heap childpos) (heap_get heap rightpos))
          then rightpos else childpos in
        bubble_up steps (heap_set heap pos (heap_get heap childpos)) endpos childpos
      else (heap, pos)
  end.

Definition siftup (heap : list cell) (pos : nat) : list cell :=
  let endpos := List.length heap in
  let startpos := pos in
  let newitem := heap_get heap pos in
  let '(heap, pos) := bubble_up endpos heap endpos pos in
  siftdown pos heap startpos pos newitem.

(** [heapq.heappop]: [None] stands for the [IndexError] on an empty heap. *)
Definition heappop (heap : list cell) : option (cell * list cell) :=
  match rev heap with
  | [] => None
  | lastelt :: front =>
      let heap := rev front in
      match heap with
      | [] => Some (lastelt, [])
      | returnitem :: _ => Some (returnitem, siftup (heap_set heap 0 lastelt) 0)
      end
  end.

(** [while y < maxy: heappush(...); y += cell_size] *)
Fixpoint grid_column (steps : nat) (g : polygon) (x y maxy cell_size h : Q)
         (cell_queue : list cell) : list cell :=
  match steps with
  | O => cell_queue
  | S steps =>
      if y <? maxy
      then grid_column steps g x (y + cell_size) maxy cell_size h
             (heappush cell_queue (new_cell g (x + h) (y + h) h))
      else cell_queue
  end.

(** [while x < maxx: ...; x += cell_size] *)
Fixpoint grid (steps : nat) (g : polygon) (x miny maxx maxy cell_size h : Q)
         (cell_queue : list cell) : list cell :=
  match steps with
  | O => cell_queue
  | S steps =>
      if x <? maxx
      then grid steps g (x + cell_size) miny maxx maxy cell_size h
             (grid_column (S (Z.to_nat (Qceiling ((maxy - miny) / cell_size))))
                g x miny maxy cell_size h cell_queue)
      else cell_queue
  end.

(** [while cell_queue: ...], for at most [steps] cells. *)
Fixpoint search (steps : nat) (g : polygon) (tolerance : Q)
         (cell_queue : list cell) (best_cell : cell) : result cell :=
  match steps with
  | O => Raise (LibraryError "the search was cut short")
  | S steps =>
      match heappop cell_queue with
      | None => Ok best_cell
      | Some (cell, cell_queue) =>
          (* update the best cell if we find a better one *)
          let best_cell :=
            if distance cell >? distance best_cell then cell else best_cell in
          (* continue if we can't find a better solution based on tolerance *)
          if Qle_bool (max_distance cell - distance best_cell) tolerance
          then search steps g tolerance cell_queue best_cell
          else
            (* split the cell into quadrants *)
            let h := cell_h cell / 2.0 in
            let cell_queue :=
              heappush cell_queue
                (new_cell g (cell_x cell - h) (cell_y cell - h) h) in
            let cell_queue :=
              heappush cell_queue
                (new_cell g (cell_x cell + h) (cell_y cell - h) h) in
            let cell_queue :=
              heappush cell_queue
                (new_cell g (cell_x cell - h) (cell_y cell + h) h) in
            let cell_queue :=
              heappush cell_queue
                (new_cell g (cell_x cell + h) (cell_y cell + h) h) in
            search steps g tolerance cell_queue best_cell
      end
  end.

(** The search gives up after this many cells. *)
Definition search_budget : nat := 5000.

(** [polylabel(polygon, tolerance)].  A polygon without width or height,
    on which the grid loops of the library do not advance, and a search
    longer than the budget are reported as library errors. *)
Definition ring_polylabel (g : polygon) (tolerance : Q) : result pt2 :=
  let '(minx, miny, maxx, maxy) := ring_bounds g in
  let width := maxx - minx in
  let height := maxy - miny in
  let cell_size := Qmin width height in
  if Qeq_bool cell_size 0 then Raise (LibraryError "a polygon without width")
  else
    let h := cell_size / 2.0 in
    (* First best cell approximation is one constructed from the centroid *)
    c <- ring_centroid g ;;
    let best_cell := new_cell g (fst c) (snd c) 0 in
    (* Special case for rectangular polygons *)
    let bbox_cell :=
      new_cell g (minx + width / 2.0) (miny + height / 2) 0 in
    let best_cell :=
      if distance bbox_cell >? distance best_cell then bbox_cell
      else best_cell in
    (* build a regular square grid covering the polygon *)
    let cell_queue :=
      grid (S (Z.to_nat (Qceiling (width / cell_size))))
        g minx miny maxx maxy cell_size h [] in
    best_cell <- search search_budget g tolerance cell_queue best_cell ;;
    Ok (cell_x best_cell, cell_y best_cell).

Definition shapely : Shapely := {|
  geometry := polygon;
  is_empty := fun g => match g with [] => true | _ => false end;
  is_multipolygon := fun _ => false;
  is_valid := fun _ => true;
  unary_union := fun g => Ok g;
  buffer0 := fun g => Ok g;
  minimum_rotated_rectangle_xy := fun g => Ok (box_xy g);
  point_distance := euclidean;
  centroid2 := ring_centroid;
  contains := ring_contains;
  covers := ring_covers;
  polylabel := ring_polylabel;
  line_interpolate := fun a b fraction => Ok (Sample.lerp a b fraction);
  boundary_distance := fun p g => Ok (ring_distance g p)
|}.

(** A cap 5 x 60 with a notch 4 x 4 cut into the middle of its right
    side. *)
Definition notched_bar : polygon :=
  [ (0, 0); (5, 0); (5, 28); (1, 28); (1, 32); (5, 32); (5, 60); (0, 60) ].

(** An angle bracket: two arms 2 long and 0.05 wide. *)
Definition bracket : polygon :=
  [ (0, 0); (2, 0); (2, 0.05); (0.05, 0.05); (0.05, 2); (0, 2) ].

End Outline.

(** * The rest of the program

    The cut-plane visualization of [suggest_split], the loader and
    [save_parts] of [SmartSplitter], and the three stateful handlers of
    [main.py] with the registry they share. *)

(** ** More libraries *)

(** What [trimesh.creation.triangulate_polygon] hands back: [None], the
    tuple (vertices, faces), an object with [vertices] and [faces], or
    something else.  The vertices of a triangulation are 2D. *)
Inductive triangulation : Type :=
| TriNone
| TriTuple (tv : list pt2) (tf : list face)
| TriObject (tv : list pt2) (tf : list face)
| TriOther.

(** The trimesh operations on paths, used to draw the cut. *)
Class TrimeshPath `{SH : Shapely} : Type := {
  path3d : Type;
  path2d : Type;
  (** [mesh.section(plane_origin=, plane_normal=)]: [None] when the plane
      misses the mesh *)
  mesh_section : mesh -> vec3 -> vec3 -> result (option path3d);
  (** [section.to_planar()] *)
  to_planar : path3d -> result (path2d * mat4);
  (** [planar_section.polygons_full] *)
  polygons_full : path2d -> result (list geometry);
  triangulate_polygon : geometry -> result triangulation;
  (** [m.visual.face_colors = rgba] *)
  set_face_colors : mesh -> nat * nat * nat * nat -> result mesh;
  (** [trimesh.creation.box(extents=, transform=)] *)
  creation_box : vec3 -> mat4 -> result mesh;
  (** [scene.show()] for a scene of these geometries *)
  scene_show : list mesh -> result unit
}.

(** Reading and writing files. *)
Class TrimeshIO : Type := {
  (** [trimesh.load(path)]: a mesh, or the geometries of a [Scene] *)
  trimesh_load : string -> result (mesh + list mesh);
  is_watertight : mesh -> bool;
  (** [trimesh.repair.fill_holes(mesh)], in place *)
  fill_holes : mesh -> result mesh;
  (** [mesh.export(path)] *)
  export : mesh -> string -> result unit;
  (** [mesh.volume] *)
  volume : mesh -> result Q;
  (** [with open(path, "wb") as buffer: shutil.copyfileobj(file.file, buffer)] *)
  write_upload : string -> result unit
}.

(** [os.path] *)
Class OsPath : Type := {
  path_join : string -> string -> string;
  basename : string -> string;
  dirname : string -> string;
  (** [os.path.splitext(p)]: the pair (root, ext) *)
  splitext : string -> string * string
}.

(** ** [suggest_split], lines 52-99: the visualization of the cut *)

(** [tf + offset] on one face. *)
Definition face_add (offset : nat) (f : face) : face :=
  let '(a, b, c) := f in ((a + offset)%nat, (b + offset)%nat, (c + offset)%nat).

Section SectionMesh.
Context `{SH : Shapely} `{TM : @Trimesh SH} `{TP : @TrimeshPath SH}.

(** [for poly in planar_section.polygons_full], accumulating [v], [f] and
    [offset]. *)
Fixpoint triangulate_polygons (polys : list geometry)
         (v : list (list pt2)) (f : list (list face)) (offset : nat)
  : result (list (list pt2) * list (list face)) :=
  match polys with
  | [] => Ok (v, f)
  | poly :: polys =>
      tri <- triangulate_polygon poly ;;
      match tri with
      | TriTuple tv tf | TriObject tv tf =>
          triangulate_polygons polys (v ++ [tv])
            (f ++ [map (face_add offset) tf]) (offset + List.length tv)
      | TriNone | TriOther => triangulate_polygons polys v f offset
      end
  end.

(** The body of the [try] block: the section as a flat mesh, moved back
    into 3D. *)
Definition flat_section_mesh (section : path3d) : result (option mesh) :=
  '(planar_section, to_3d) <- to_planar section ;;
  polys <- polygons_full planar_section ;;
  '(v, f) <- triangulate_polygons polys [] [] 0 ;;
  match v with
  | [] => Ok None
  | _ :: _ =>
      let v := List.concat v in
      let f := List.concat f in
      (* Vertices are 2D (x, y). We need 3D (x, y, 0) for the transform *)
      let v := map (fun p : pt2 => (fst p, snd p, 0)) v in
      flat_mesh <- Trimesh_new v f ;;
      flat_mesh <- apply_transform flat_mesh to_3d ;;
      section_mesh <- set_face_colors flat_mesh (0, 255, 0, 150)%nat ;;
      Ok (Some section_mesh)
  end.

(** The [section_mesh] of lines 54-99, for the [extents] read at line 34. *)
Definition section_mesh (self_mesh : mesh) (extents origin normal : vec3)
  : result (option mesh) :=
  section <- mesh_section self_mesh origin normal ;;
  match section with
  | None => Ok None
  | Some section =>
      try_except (flat_section_mesh section)
        (fun _ =>
           (* Fallback: Create a small box at the cut *)
           let '(ex, ey, _) := extents in
           box <- creation_box (ex, ey, 1) (translation_matrix origin) ;;
           Ok (Some box))
  end.

End SectionMesh.

(** ** [SmartSplitter]: loading, previewing and saving *)

(** The attributes of a [SmartSplitter]. *)
Record SmartSplitter : Type := {
  file_path : string;
  mesh_of : mesh;
  filename : string;
  base_dir : string
}.

Section Files.
Context `{SH : Shapely} `{TM : @Trimesh SH} `{TG : TrigTable}
        `{TP : @TrimeshPath SH} `{IO : TrimeshIO} `{OS : OsPath}.

Definition _load_mesh (path : string) : result mesh :=
  m <- trimesh_load path ;;
  m <- (match m with
        | inl m => Ok m
        | inr geometry_values => concatenate geometry_values
        end) ;;
  m <- (if negb (is_watertight m) then fill_holes m else Ok m) ;;
  Ok m.

(** [SmartSplitter.__init__] *)
Definition SmartSplitter_init (file_path : string) : result SmartSplitter :=
  m <- _load_mesh file_path ;;
  Ok {| file_path := file_path;
        mesh_of := m;
        filename := basename file_path;
        base_dir := dirname file_path |}.

(** The two paths [save_parts] writes to. *)
Definition part_paths (self : SmartSplitter) : string * string :=
  let base := fst (splitext (filename self)) in
  let path_a := path_join (base_dir self) (base ++ "_part_a.stl")%string in
  let path_b := path_join (base_dir self) (base ++ "_part_b.stl")%string in
  (path_a, path_b).

Definition save_parts (self : SmartSplitter) (mesh_a mesh_b : mesh)
  : result unit :=
  let '(path_a, path_b) := part_paths self in
  _ <- export mesh_a path_a ;;
  _ <- export mesh_b path_b ;;
  Ok tt.

(** [preview_split]: the mesh, recoloured, as the splitter keeps it. *)
Definition preview_split (self : SmartSplitter) (origin normal : vec3)
           (section_mesh : option mesh) : result SmartSplitter :=
  m <- set_face_colors (mesh_of self) (200, 200, 200, 100)%nat ;;
  let self := {| file_path := file_path self; mesh_of := m;
                 filename := filename self; base_dir := base_dir self |} in
  let scene :=
    [m] ++ (match section_mesh with Some s => [s] | None => [] end) in
  _ <- try_except (scene_show scene) (fun _ => Ok tt) ;;
  Ok self.

(** The script, from [splitter = SmartSplitter(INPUT_FILE)] on, for the
    answer [response] typed at the prompt: the paths written, if any. *)
Definition script (INPUT_FILE response : string)
  : result (option (string * string)) :=
  splitter <- SmartSplitter_init INPUT_FILE ;;
  (* 1. Suggest Split *)
  '(origin, normal, section_mesh) <- suggest_split (mesh_of splitter) None ;;
  (* 2. Preview *)
  splitter <- preview_split splitter origin normal section_mesh ;;
  (* 3. Confirm *)
  if String.eqb (lower response) "y" then
    (* 4. Perform Split & Key *)
    '(part_a, part_b) <- perform_split_and_key (mesh_of splitter) origin normal ;;
    (* 5. Save *)
    _ <- save_parts splitter part_a part_b ;;
    Ok (Some (part_paths splitter))
  else Ok None.

End Files.

(** ** [main.py]: the registry and the handlers *)

Module Server.

(** A [dict] with string keys, in insertion order. *)
Definition dict (V : Type) : Type := list (string * V).

(** [d.get(k)] *)
Fixpoint get {V : Type} (d : dict V) (k : string) : option V :=
  match d with
  | [] => None
  | (k', v) :: d' => if String.eqb k k' then Some v else get d' k
  end.

(** [d[k] = v] *)
Fixpoint set {V : Type} (d : dict V) (k : string) (v : V) : dict V :=
  match d with
  | [] => [(k, v)]
  | (k', v') :: d' =>
      if String.eqb k k' then (k, v) :: d' else (k', v') :: set d' k v
  end.

(** [k in d] *)
Definition mem {V : Type} (d : dict V) (k : string) : bool :=
  match get d k with Some _ => true | None => false end.

(** The [detail] of an [HTTPException]: a text, or [str(e)]. *)
Inductive detail : Type :=
| Text (s : string)
| Str (e : exn).

(** How a request ends: with a response body, with an [HTTPException], or
    with an exception no handler code catches. *)
Inductive outcome (A : Type) : Type :=
| Response (body : A)
| HTTPException (status_code : nat) (detail_ : detail)
| Unhandled (e : exn).
Arguments Response {A} body.
Arguments HTTPException {A} status_code detail_.
Arguments Unhandled {A} e.

Record upload_body : Type := {
  success : bool;
  fileId : string;
  url : string;
  message : string
}.

Record suggestion : Type := {
  position : vec3;
  normal : vec3;
  axis : string;
  visualizationMesh : option (list vec3 * list face)
}.

Record part : Type := {
  id : string;
  part_url : string;
  part_volume : Q
}.

Record split_body : Type := {
  partA : part;
  partB : part
}.

(** The names of the two exported files. *)
Definition name_a (base_name id_a : string) : string :=
  (base_name ++ "_part_a_" ++ id_a ++ ".stl")%string.

Definition name_b (base_name id_b : string) : string :=
  (base_name ++ "_part_b_" ++ id_b ++ ".stl")%string.

Section App.
Context `{SH : Shapely} `{TM : @Trimesh SH} `{TG : TrigTable}
        `{TP : @TrimeshPath SH} `{IO : TrimeshIO} `{OS : OsPath}.
Variables UPLOAD_DIR OUTPUT_DIR : string.

(** [POST /upload], for the uuid drawn and the name of the uploaded file. *)
Definition upload_file (file_registry : dict string) (file_id filename : string)
  : outcome upload_body * dict string :=
  let file_path := path_join UPLOAD_DIR (file_id ++ "_" ++ filename)%string in
  match write_upload file_path with
  | Raise e => (Unhandled e, file_registry)
  | Ok _ =>
      let file_registry := set file_registry file_id file_path in
      (Response {| success := true;
                   fileId := file_id;
                   url := ("/uploads/" ++ file_id ++ "_" ++ filename)%string;
                   message := "File uploaded successfully" |},
       file_registry)
  end.

(** [POST /suggest_split] *)
Definition suggest_split (file_registry : dict string)
           (req_fileId : string) (req_axis : option string)
  : outcome suggestion :=
  match get file_registry req_fileId with
  | None => HTTPException 404 (Text "File not found")
  | Some file_path =>
      match
        (splitter <- SmartSplitter_init file_path ;;
         '(origin, normal, section_mesh) <-
           suggest_split_request (mesh_of splitter) req_axis ;;
         (* Extract visualization mesh data if available *)
         let viz_mesh :=
           match section_mesh with
           | Some section_mesh => Some (vertices section_mesh, faces section_mesh)
           | None => None
           end in
         Ok {| position := origin;
               normal := normal;
               axis := "auto";
               visualizationMesh := viz_mesh |})
      with
      | Ok body => Response body
      | Raise e => HTTPException 500 (Str e)
      end
  end.

(** The part of [POST /perform_split] inside the [try] that precedes the
    registration: the split, the orientation and the two exports. *)
Definition split_and_export (file_path : string) (origin normal : vec3)
           (addKeys : bool) (id_a id_b : string)
  : result (mesh * mesh * string * string) :=
  splitter <- SmartSplitter_init file_path ;;
  '(part_a, part_b) <- perform_split (mesh_of splitter) origin normal addKeys ;;
  (* Save parts *)
  let base_name := fst (splitext (basename file_path)) in
  let path_a := path_join OUTPUT_DIR (name_a base_name id_a) in
  let path_b := path_join OUTPUT_DIR (name_b base_name id_b) in
  _ <- export part_a path_a ;;
  _ <- export part_b path_b ;;
  Ok (part_a, part_b, path_a, path_b).

(** [POST /perform_split], for the two uuids drawn. *)
Definition perform_split (file_registry : dict string) (req_fileId : string)
           (req_origin req_normal : vec3) (req_addKeys : bool)
           (id_a id_b : string)
  : outcome split_body * dict string :=
  match get file_registry req_fileId with
  | None => (HTTPException 404 (Text "File not found"), file_registry)
  | Some file_path =>
      match split_and_export file_path req_origin req_normal req_addKeys
              id_a id_b with
      | Raise e => (HTTPException 500 (Str e), file_registry)
      | Ok (part_a, part_b, path_a, path_b) =>
          (* Register new files *)
          let file_registry := set file_registry id_a path_a in
          let file_registry := set file_registry id_b path_b in
          let base_url := "http://localhost:8000"%string in
          match
            (volume_a <- volume part_a ;;
             volume_b <- volume part_b ;;
             Ok {| partA :=
                     {| id := id_a;
                        part_url := (base_url ++ "/outputs/" ++ basename path_a)%string;
                        part_volume := volume_a |};
                   partB :=
                     {| id := id_b;
                        part_url := (base_url ++ "/outputs/" ++ basename path_b)%string;
                        part_volume := volume_b |} |})
          with
          | Ok body => (Response body, file_registry)
          | Raise e => (HTTPException 500 (Str e), file_registry)
          end
      end
  end.

End App.

End Server.

(** ** Vocabulary of the further statements *)

(** Vertex [a] of the mesh exists and lies within 1e-4 of the plane,
    measured along the normal as supplied. *)
Definition on_plane (m : mesh) (plane_origin plane_normal : vec3) (a : nat)
  : Prop :=
  exists v, nth_error (vertices m) a = Some v /\
            Qabs (dot (vsub v plane_origin) plane_normal) < 1e-4.

(** Face [i] of the mesh exists and its three vertices lie on the plane. *)
Definition cap_face (m : mesh) (plane_origin plane_normal : vec3) (i : nat)
  : Prop :=
  exists a b c,
    nth_error (faces m) i = Some (a, b, c) /\
    on_plane m plane_origin plane_normal a /\
    on_plane m plane_origin plane_normal b /\
    on_plane m plane_origin plane_normal c.

(** A part rests on the build plate: the lower corner of its bounding box
    has height 0; a part without bounds is empty. *)
Definition rests_on_floor `{TM : Trimesh} (part : mesh) : Prop :=
  match bounds part with
  | Some (lo, _) => coord lo 2 == 0
  | None => True
  end.

(** The three points a face refers to. *)
Definition triangle_of {A : Type} (vs : list A) (f : face)
  : option (A * A * A) :=
  let '(a, b, c) := f in
  match nth_error vs a, nth_error vs b, nth_error vs c with
  | Some pa, Some pb, Some pc => Some (pa, pb, pc)
  | _, _, _ => None
  end.

(** The vertex and face arrays a triangulation contributes to the section
    mesh, if any. *)
Definition triangulated (tri : triangulation) : list (list pt2 * list face) :=
  match tri with
  | TriTuple tv tf | TriObject tv tf => [(tv, tf)]
  | TriNone | TriOther => []
  end.

(** The face arrays of a list of parts, each moved past the vertices of the
    parts before it, [offset] vertices preceding the first. *)
Fixpoint rebased (offset : nat) (parts : list (list pt2 * list face))
  : list (list face) :=
  match parts with
  | [] => []
  | (tv, tf) :: parts =>
      map (face_add offset) tf :: rebased (offset + List.length tv) parts
  end.

(** The radius of a profile at height [z], by linear interpolation between
    its points. *)
Fixpoint radius_at (p : list (Q * Q)) (z : Q) : Q :=
  match p with
  | [] => 0
  | (z0, r0) :: rest =>
      match rest with
      | [] => r0
      | (z1, r1) :: _ =>
          if Qle_bool z z1
          then r0 + (r1 - r0) * ((z - z0) / (z1 - z0))
          else radius_at rest z
      end
  end.

(** ** Stand-ins for the file system, the loader and the path operations *)

Module SampleHost.

(** *** [os.path] on plain POSIX paths *)

Fixpoint after_last (sep : ascii) (p : string) : option string :=
  match p with
  | EmptyString => None
  | String c p' =>
      match after_last sep p' with
      | Some r => Some r
      | None => if Ascii.eqb c sep then Some p' else None
      end
  end.

Fixpoint before_last (sep : ascii) (p : string) : option string :=
  match p with
  | EmptyString => None
  | String c p' =>
      match before_last sep p' with
      | Some r => Some (String c r)
      | None => if Ascii.eqb c sep then Some EmptyString else None
      end
  end.

Definition os : OsPath := {|
  path_join := fun a b =>
    if String.eqb a "" then b else (a ++ "/" ++ b)%string;
  basename := fun p =>
    match after_last "/" p with Some r => r | None => p end;
  dirname := fun p =>
    match before_last "/" p with Some r => r | None => EmptyString end;
  splitext := fun p =>
    match before_last "." p, after_last "." p with
    | Some root, Some ext =>
        if String.eqb root "" then (p, EmptyString) else (root, String "." ext)
    | _, _ => (p, EmptyString)
    end
|}.

(** *** Three files on disk *)

Fixpoint ends_with (s suffix : string) : bool :=
  String.eqb s suffix
  || match s with
     | EmptyString => false
     | String _ s' => ends_with s' suffix
     end.

Definition io : TrimeshIO := {|
  trimesh_load := fun path =>
    if ends_with path "bar.stl" then Ok (inl Sample.bar)
    else if ends_with path "box.stl" then Ok (inl Sample.test_box)
    else if ends_with path "pair.glb"
         then Ok (inr [Sample.bar; Sample.near_box])
         else Raise (LibraryError "file not found");
  is_watertight := fun m => watertight (faces m);
  fill_holes := fun m => Ok m;
  export := fun _ _ => Ok tt;
  volume := fun m =>
    match Sample.mesh_extents m with
    | Some (x, y, z) => Ok (x * y * z)
    | None => Ok 0
    end;
  write_upload := fun _ => Ok tt
|}.

(** *** Horizontal sections of boxes *)

(** The outline of a horizontal section: a rectangle and its height. *)
Definition outline : Type := Sample.rect * Q.

Definition cut (m : mesh) (origin normal : vec3) : result (option outline) :=
  if Sample.vec3_eqb normal z_axis then
    match Sample.mesh_bounds m with
    | Some (lo, hi) =>
        let '(lx, ly, lz) := lo in
        let '(hx, hy, hz) := hi in
        let '(_, _, oz) := origin in
        if (lz <? oz) && (oz <? hz)
        then Ok (Some ((lx, ly, hx, hy), oz))
        else Ok None
    | None => Ok None
    end
  else Raise (LibraryError "no section off the Z axis").

(** A rectangle as two triangles. *)
Definition corners (g : Sample.rect) : triangulation :=
  let '(x0, y0, x1, y1) := g in
  TriTuple [(x0, y0); (x1, y0); (x1, y1); (x0, y1)] [(0, 1, 2); (0, 2, 3)]%nat.

Definition box_mesh (extents : vec3) (t : mat4) : mesh :=
  let '(ex, ey, ez) := extents in
  let x := ex / 2 in let y := ey / 2 in let z := ez / 2 in
  Sample.transform
    {| vertices :=
         [ (- x, - y, - z); (- x, y, - z); (- x, y, z); (- x, - y, z);
           (x, - y, - z); (x, y, - z); (x, y, z); (x, - y, z) ];
       faces := faces Sample.near_box |} t.

Definition polygons (p : list Sample.rect)
  : result (list (@geometry Sample.shapely)) := Ok p.

Definition path : @TrimeshPath Sample.shapely := {|
  path3d := outline;
  path2d := list Sample.rect;
  mesh_section := cut;
  to_planar := fun s => Ok ([fst s], Sample.translation (0, 0, snd s));
  polygons_full := polygons;
  triangulate_polygon := fun g => Ok (corners g);
  set_face_colors := fun m _ => Ok m;
  creation_box := fun e t => Ok (box_mesh e t);
  scene_show := fun _ => Raise (LibraryError "no display")
|}.

(** *** A slicer for boxes

    A box with axis-parallel faces, cut by a plane across an axis: every
    vertex beyond the plane is moved onto it, so the face that was beyond
    becomes the cap.  Other cuts are left to [Sample.slice_uncut]. *)

Definition clamp_coord (i : nat) (keep_upper : bool) (o : Q) (v : vec3) : vec3 :=
  replace_coord v i
    (if keep_upper then Qmax (coord v i) o else Qmin (coord v i) o).

Definition slice_across (i : nat) (m : mesh) (origin normal : vec3)
  : option mesh :=
  if Sample.vec3_eqb normal (unit_vector i) then
    Some {| vertices := map (clamp_coord i true (coord origin i)) (vertices m);
            faces := faces m |}
  else if Sample.vec3_eqb normal (vneg (unit_vector i)) then
    Some {| vertices := map (clamp_coord i false (coord origin i)) (vertices m);
            faces := faces m |}
  else None.

Definition slice_box (m : mesh) (origin normal : vec3) : result mesh :=
  match slice_across 0 m origin normal, slice_across 1 m origin normal,
        slice_across 2 m origin normal with
  | Some r, _, _ => Ok r
  | None, Some r, _ => Ok r
  | None, None, Some r => Ok r
  | None, None, None => Sample.slice_uncut m origin normal
  end.

Definition trimesh : @Trimesh Sample.shapely := {|
  bounds := Sample.mesh_bounds;
  extents := Sample.mesh_extents;
  centroid := Sample.mesh_center;
  section_visualization := fun _ _ _ => Ok None;
  slice_mesh_plane := slice_box;
  submesh := Sample.pick_faces;
  translation_matrix := Sample.translation;
  align_vectors := Sample.align_axis;
  concatenate_matrices := Sample.matmul;
  inverse_matrix := fun t => Ok (Sample.rigid_inverse t);
  merge_vertices := fun m => Ok m;
  projected := Sample.project_along_z;
  Trimesh_new := fun vs fs => Ok {| vertices := vs; faces := fs |};
  apply_transform := fun m t => Ok (Sample.transform m t);
  apply_translation := fun m t => Ok (Sample.translate m t);
  concatenate := fun ms =>
    Ok (fold_left Sample.append_mesh ms {| vertices := []; faces := [] |});
  boolean_union := fun _ => Raise (LibraryError "no boolean backend");
  boolean_difference := fun _ => Raise (LibraryError "no boolean backend")
|}.

(** The registry after the upload of [box.stl] under the id [f1]. *)
Definition registry : Server.dict string := [("f1", "uploads/f1_box.stl")]%string.

End SampleHost.

(** * Theorems *)

(** ** Comparisons *)

Lemma ltb_lt (x y : Q) : (x <? y) = true <-> x < y.
Proof.
  unfold Py.ltb. rewrite negb_true_iff.
  split; intro H.
  - apply Qnot_le_lt. intro Hle. apply Qle_bool_iff in Hle. congruence.
  - destruct (Qle_bool y x) eqn:E; [|reflexivity].
    apply Qle_bool_iff in E. exfalso. apply (Qlt_not_le _ _ H E).
Qed.

Lemma ltb_ge (x y : Q) : (x <? y) = false <-> y <= x.
Proof.
  unfold Py.ltb. rewrite negb_false_iff. apply Qle_bool_iff.
Qed.

Lemma geb_le (x y : Q) : (x >=? y) = true <-> y <= x.
Proof. apply Qle_bool_iff. Qed.

Lemma geb_lt (x y : Q) : (x >=? y) = false <-> x < y.
Proof.
  unfold Py.geb. split; intro H.
  - apply Qnot_le_lt. intro Hle. apply Qle_bool_iff in Hle. congruence.
  - destruct (Qle_bool y x) eqn:E; [|reflexivity].
    apply Qle_bool_iff in E. exfalso. apply (Qlt_not_le _ _ H E).
Qed.

(** Splitting a conjunction into its parts, and nothing else. *)
Ltac split_all := repeat match goal with |- _ /\ _ => split end.

(** Case analysis on a float comparison, leaving the order fact. *)
Ltac case_ltb x y :=
  let E := fresh "E" in
  destruct (x <? y) eqn:E;
  [apply ltb_lt in E | apply ltb_ge in E].

Lemma py_max_Qmax (a b : Q) : Py.max a b == Qmax a b.
Proof.
  unfold Py.max. case_ltb a b.
  - symmetry. apply Q.max_r. lra.
  - symmetry. apply Q.max_l. exact E.
Qed.

Lemma py_min_Qmin (a b : Q) : Py.min a b == Qmin a b.
Proof.
  unfold Py.min. case_ltb b a.
  - symmetry. apply Q.min_r. lra.
  - symmetry. apply Q.min_l. exact E.
Qed.

#[export] Instance py_max_proper : Proper (Qeq ==> Qeq ==> Qeq) Py.max.
Proof.
  intros a a' Ha b b' Hb. rewrite !py_max_Qmax. now rewrite Ha, Hb.
Qed.

#[export] Instance py_min_proper : Proper (Qeq ==> Qeq ==> Qeq) Py.min.
Proof.
  intros a a' Ha b b' Hb. rewrite !py_min_Qmin. now rewrite Ha, Hb.
Qed.

(** ** Dimensioning of pins and holes *)

Lemma pin_radius_clamp (max_radius : Q) :
  pin_radius max_radius == clamp (0.6 * max_radius) 2.0 20.0.
Proof.
  unfold pin_radius, clamp.
  rewrite py_max_Qmax, py_min_Qmin.
  assert (H : max_radius * 0.6 == 0.6 * max_radius) by ring.
  now rewrite H.
Qed.

Lemma pin_height_clamp (pin_radius : Q) :
  pin_height pin_radius == clamp (3 * pin_radius) 10.0 30.0.
Proof.
  unfold pin_height, clamp.
  rewrite py_max_Qmax, py_min_Qmin.
  assert (H : pin_radius * 3.0 == 3 * pin_radius) by (field).
  now rewrite H.
Qed.

Lemma clamp_range (x lo hi : Q) : lo <= hi -> lo <= clamp x lo hi <= hi.
Proof.
  intro Hlh. unfold clamp. split.
  - apply Q.le_max_l.
  - apply Q.max_lub; [exact Hlh | apply Q.le_min_r].
Qed.

Lemma pin_radius_range (max_radius : Q) : 2 <= pin_radius max_radius <= 20.
Proof.
  rewrite pin_radius_clamp.
  pose proof (@clamp_range (0.6 * max_radius) 2.0 20.0 ltac:(lra)). lra.
Qed.

Lemma pin_height_range (pin_radius : Q) : 10 <= pin_height pin_radius <= 30.
Proof.
  rewrite pin_height_clamp.
  pose proof (@clamp_range (3 * pin_radius) 10.0 30.0 ltac:(lra)). lra.
Qed.

(** *** The rounding of the hole radius *)

(** Rounding to an integer moves a number by at most one half. *)
Lemma round_half_even_error (q : Q) :
  Qabs (inject_Z (Double.round_half_even q) - q) <= 1 # 2.
Proof.
  unfold Double.round_half_even.
  pose proof (Qfloor_le q) as Hlo. pose proof (Qlt_floor q) as Hhi.
  rewrite inject_Z_plus in Hhi. change (inject_Z 1) with 1 in Hhi.
  set (f := Qfloor q) in *.
  assert (Hup : 1 # 2 <= q - inject_Z f ->
                Qabs (inject_Z (f + 1) - q) <= 1 # 2).
  { intro H. rewrite inject_Z_plus. change (inject_Z 1) with 1.
    apply Qabs_Qle_condition. lra. }
  assert (Hdown : q - inject_Z f <= 1 # 2 ->
                  Qabs (inject_Z f - q) <= 1 # 2).
  { intro H. apply Qabs_Qle_condition. lra. }
  destruct (Qcompare (q - inject_Z f) (1 # 2)) eqn:E.
  - apply Qeq_alt in E.
    destruct (Z.even f); [apply Hdown | apply Hup]; lra.
  - apply Qlt_alt in E. apply Hdown. lra.
  - apply Qgt_alt in E. apply Hup. lra.
Qed.

(** Rounding to a float moves a number of exponent at most [e_max] by at
    most half a unit in the last place, 2^(e_max - 53). *)
Lemma round_error (x : Q) (e_max : Z) :
  (Double.exponent x <= e_max)%Z ->
  Qabs (Double.round x - x) <= 2 ^ (e_max - 53).
Proof.
  intro He. unfold Double.round.
  destruct (Qeq_bool x 0) eqn:E0.
  - apply Qeq_bool_iff in E0. rewrite E0.
    setoid_replace (0 - 0) with 0 by ring. cbn [Qabs Z.abs Qnum Qden].
    apply Qpower_0_le. lra.
  - set (e := Double.exponent x) in *.
    set (y := x * 2 ^ (52 - e)).
    assert (Hp : 2 ^ (52 - e) * 2 ^ (e - 52) == 1).
    { rewrite <- Qpower_plus by lra.
      replace (52 - e + (e - 52))%Z with 0%Z by lia. reflexivity. }
    assert (Hx : x == y * 2 ^ (e - 52)).
    { unfold y. rewrite <- Qmult_assoc, Hp. ring. }
    assert (Hd : inject_Z (Double.round_half_even y) * 2 ^ (e - 52) - x
                 == (inject_Z (Double.round_half_even y) - y) * 2 ^ (e - 52)).
    { rewrite Hx at 1. ring. }
    rewrite Hd, Qabs_Qmult.
    assert (Hpos : 0 < 2 ^ (e - 52)) by (apply Qpower_0_lt; lra).
    rewrite (Qabs_pos (2 ^ (e - 52))) by lra.
    pose proof (round_half_even_error y) as Hr.
    assert (Hmono : 2 ^ (e - 52) <= 2 ^ (e_max - 52)).
    { apply Qpower_le_compat_l; [lia | lra]. }
    assert (Hhalf : 2 ^ (e_max - 53) == (1 # 2) * 2 ^ (e_max - 52)).
    { replace (e_max - 52)%Z with (1 + (e_max - 53))%Z by lia.
      rewrite Qpower_plus by lra. change (2 ^ 1) with 2. field. }
    rewrite Hhalf.
    apply Qle_trans with ((1 # 2) * 2 ^ (e - 52)).
    + apply Qmult_le_compat_r; [exact Hr | lra].
    + apply Qmult_le_l; [reflexivity | exact Hmono].
Qed.

Lemma exponent_upper (x : Q) (k : Z) :
  1 <= x -> x < inject_Z (2 ^ (k + 1)) -> (0 <= k)%Z ->
  (Double.exponent x <= k)%Z.
Proof.
  intros H1 Hx Hk. unfold Double.exponent. cbv zeta.
  assert (Ha : Qabs x == x) by (apply Qabs_pos; lra).
  assert (E : Qle_bool 1 (Qabs x) = true) by (apply Qle_bool_iff; lra).
  rewrite E, (Qfloor_comp _ _ Ha).
  assert (Hf : (Qfloor x < 2 ^ (k + 1))%Z).
  { rewrite Zlt_Qlt. apply Qle_lt_trans with x; [apply Qfloor_le | exact Hx]. }
  assert (Hf1 : (1 <= Qfloor x)%Z).
  { change 1%Z with (Qfloor 1). now apply Qfloor_resp_le. }
  apply Z.lt_succ_r.
  apply (proj1 (Z.log2_lt_pow2 (Qfloor x) (Z.succ k) ltac:(lia))).
  replace (Z.succ k) with (k + 1)%Z by lia. exact Hf.
Qed.

(** The float 0.2 of the program, [tolerance / 2.0]: the same whether the
    literal 0.4 is read exactly or as the float nearest to it. *)
Lemma half_tolerance :
  Double.div tolerance 2.0 == 3602879701896397 # 18014398509481984 /\
  Double.div (Double.round tolerance) 2.0 == Double.div tolerance 2.0.
Proof. split; vm_compute; reflexivity. Qed.

(** For a pin radius in the range of the clamp the hole radius is
    pin_radius + 0.2 up to the two roundings: within 2^-48. *)
Lemma hole_radius_error (pin_radius : Q) :
  2 <= pin_radius <= 20 ->
  Qabs (hole_radius pin_radius - pin_radius - 0.2) <= 1 # 2 ^ 48.
Proof.
  intros [Hlo Hhi]. unfold hole_radius, Double.add.
  set (t := Double.div tolerance 2.0).
  assert (Ht : t == 3602879701896397 # 18014398509481984)
    by apply half_tolerance.
  assert (Ht1 : 0 < t - 0.2 /\ t - 0.2 <= 1 # 2 ^ 50).
  { rewrite Ht. split; [reflexivity | vm_compute; discriminate]. }
  assert (He : (Double.exponent (pin_radius + t) <= 4)%Z).
  { apply exponent_upper; [lra | | lia].
    change (inject_Z (2 ^ (4 + 1))) with 32. lra. }
  pose proof (@round_error (pin_radius + t) 4 He) as Hr.
  change (2 ^ (4 - 53)) with (1 # 2 ^ 49) in Hr.
  apply Qabs_Qle_condition in Hr. apply Qabs_Qle_condition.
  assert (H48 : (1 # 2 ^ 48) == (1 # 2 ^ 49) + (1 # 2 ^ 49)) by reflexivity.
  assert (H50 : (1 # 2 ^ 50) <= (1 # 2 ^ 49)) by (vm_compute; discriminate).
  rewrite H48. lra.
Qed.

Lemma hole_radius_bounds (max_radius : Q) :
  let pr := pin_radius max_radius in
  pr + 0.2 - (1 # 2 ^ 48) <= hole_radius pr <= pr + 0.2 + (1 # 2 ^ 48).
Proof.
  cbv zeta.
  pose proof (hole_radius_error (pin_radius_range max_radius)) as H.
  apply Qabs_Qle_condition in H. lra.
Qed.

(** C3, as the code has it.  Whenever keys are placed the orchestrator
    sizes them from the safe radius [max_radius] alone: the pin radius is
    clamp(0.6 * max_radius, 2.0, 20.0), hence within [2.0, 20.0]; the pin
    height is clamp(3 * pin_radius, 10.0, 30.0), hence within [10.0, 30.0];
    the hole radius is the float nearest to the sum of the pin radius and
    the float 0.2 (half of the 0.4 tolerance on the diameter), so it
    exceeds the pin radius by 0.2 up to rounding, within 2^-48; the hole is
    as high as the pin. *)
Theorem C3_dimensioning (max_radius : Q) :
  let pr := pin_radius max_radius in
  let ph := pin_height pr in
  pr == clamp (0.6 * max_radius) 2.0 20.0 /\
  2.0 <= pr <= 20.0 /\
  ph == clamp (3 * pr) 10.0 30.0 /\
  10.0 <= ph <= 30.0 /\
  hole_radius pr = Double.round (pr + Double.round (tolerance / 2.0)) /\
  Qabs (Double.round (tolerance / 2.0) - 0.2) <= 1 # 2 ^ 56 /\
  Qabs (hole_radius pr - pr - 0.2) <= 1 # 2 ^ 48 /\
  tolerance / 2 == 0.2 /\
  hole_height ph = ph.
Proof.
  cbv zeta.
  split_all.
  - apply pin_radius_clamp.
  - rewrite pin_radius_clamp. apply clamp_range. lra.
  - rewrite pin_radius_clamp. apply clamp_range. lra.
  - apply pin_height_clamp.
  - rewrite pin_height_clamp. apply clamp_range. lra.
  - rewrite pin_height_clamp. apply clamp_range. lra.
  - reflexivity.
  - vm_compute. discriminate.
  - apply hole_radius_error. apply pin_radius_range.
  - unfold tolerance. field.
  - reflexivity.
Qed.

(** C3 fails as stated: the difference is not exactly 0.2.  The smallest
    pin has radius 2.0 and its hole the radius 2.2 as a float,
    2476979795053773 / 2^50, which exceeds 2.0 by 0.20000000000000018; the
    largest pin has radius 20.0 and its hole the float 20.2, which exceeds
    20.0 by 0.1999999999999993, less than 0.2. *)
Lemma C3_counterexample :
  pin_radius 1 == 2.0 /\
  hole_radius (pin_radius 1) == 2476979795053773 # 1125899906842624 /\
  ~ hole_radius (pin_radius 1) - pin_radius 1 == 0.2 /\
  0.2 < hole_radius (pin_radius 1) - pin_radius 1 /\
  pin_radius 40 == 20.0 /\
  hole_radius (pin_radius 40) - pin_radius 40 < 0.2.
Proof.
  split_all; try (vm_compute; reflexivity).
  vm_compute. discriminate.
Qed.

(** ** The aspect ratio and the number of pins *)

Lemma clamped_width (W : Q) :
  let width := if W <? 0.1 then 0.1 else W in
  0.1 <= width /\ width == Qmax W 0.1.
Proof.
  cbv zeta. case_ltb W 0.1.
  - split; [lra|]. symmetry. apply Q.max_r. lra.
  - split; [exact E|]. symmetry. apply Q.max_l. exact E.
Qed.

Lemma truediv_nonzero (a b : Q) : ~ b == 0 -> truediv a b = Ok (a / b).
Proof.
  intro Hb. unfold truediv.
  destruct (Qeq_bool b 0) eqn:E; [|reflexivity].
  apply Qeq_bool_iff in E. contradiction.
Qed.

(** The division of [aspect_ratio] is by the clamped width. *)
Lemma aspect_ratio_eq (e : Q) (es : list Q) :
  let L := fold_left Py.max es e in
  let W := fold_left Py.min es e in
  aspect_ratio (e :: es) = Ok (L / (if W <? 0.1 then 0.1 else W)).
Proof.
  cbv zeta. unfold aspect_ratio. simpl.
  apply truediv_nonzero.
  pose proof (clamped_width (fold_left Py.min es e)) as [H _].
  intro H0. rewrite H0 in H. lra.
Qed.

Lemma num_pins_cases (r : Q) :
  (10 < r -> num_pins r = 3%nat) /\
  (3 < r /\ r <= 10 -> num_pins r = 2%nat) /\
  (r <= 3 -> num_pins r = 1%nat).
Proof.
  unfold num_pins.
  case_ltb 10.0 r; [|case_ltb 3.0 r]; split_all; intros; try reflexivity; lra.
Qed.

Lemma num_pins_values (r : Q) :
  num_pins r = 1%nat \/ num_pins r = 2%nat \/ num_pins r = 3%nat.
Proof.
  unfold num_pins.
  destruct (r >? 10.0); [|destruct (r >? 3.0)]; auto.
Qed.

Lemma num_pins_monotone (a b : Q) : a <= b -> (num_pins a <= num_pins b)%nat.
Proof.
  intro Hab. unfold num_pins.
  case_ltb 10.0 a; case_ltb 10.0 b; try lra; try lia;
    case_ltb 3.0 a; case_ltb 3.0 b; try lra; lia.
Qed.

(** C9.  The aspect ratio is never computed by a division by zero: the width
    of the minimum rectangle is raised to at least 0.1 before the division
    length / width, so for every list of edge lengths the quotient exists;
    no [ZeroDivisionError] is raised on any input. *)
Theorem C9_no_division_by_zero (e : Q) (es : list Q) :
  (forall l : list Q, aspect_ratio l <> Raise ZeroDivisionError) /\
  exists L W r : Q,
    max_list (e :: es) = Ok L /\ min_list (e :: es) = Ok W /\
    let width := if W <? 0.1 then 0.1 else W in
    0.1 <= width /\ ~ width == 0 /\
    aspect_ratio (e :: es) = Ok r /\ r = L / width /\ r * width == L.
Proof.
  split.
  - intros [|a l].
    + discriminate.
    + rewrite aspect_ratio_eq. discriminate.
  - exists (fold_left Py.max es e), (fold_left Py.min es e).
    eexists. split; [reflexivity|]. split; [reflexivity|]. cbv zeta.
    pose proof (clamped_width (fold_left Py.min es e)) as [Hpos _].
    cbv zeta in Hpos.
    assert (Hnz : ~ (if fold_left Py.min es e <? 0.1 then 0.1
                     else fold_left Py.min es e) == 0).
    { intro H0. rewrite H0 in Hpos. lra. }
    split_all.
    + exact Hpos.
    + exact Hnz.
    + apply aspect_ratio_eq.
    + reflexivity.
    + field. exact Hnz.
Qed.

(** ** The profile of the chamfered pin *)

Lemma needed_height_flags (chamfer : Q) (taper_top flare_bottom : bool) :
  needed_height chamfer taper_top flare_bottom
  == (flag taper_top + flag flare_bottom) * chamfer.
Proof.
  unfold needed_height, flag. destruct taper_top, flare_bottom; ring.
Qed.

Lemma fitted_chamfer_cases (height chamfer : Q) (taper_top flare_bottom : bool) :
  let c := fitted_chamfer height chamfer taper_top flare_bottom in
  (height <= (flag taper_top + flag flare_bottom) * chamfer -> c = height / 3.0) /\
  ((flag taper_top + flag flare_bottom) * chamfer < height -> c = chamfer).
Proof.
  cbv zeta. unfold fitted_chamfer.
  destruct (needed_height chamfer taper_top flare_bottom >=? height) eqn:E.
  - apply geb_le in E. rewrite needed_height_flags in E.
    split; intro H; [reflexivity | lra].
  - apply geb_lt in E. rewrite needed_height_flags in E.
    split; intro H; [lra | reflexivity].
Qed.

(** C5.  For every call [_create_chamfered_pin(r, h, c, taper_top,
    flare_bottom)] (in particular for c > 0): when
    (taper_top + flare_bottom) * c >= h the chamfer used is h / 3, otherwise
    it is c unchanged; with c' the chamfer used, the profile is, bottom to
    top, (0, r + c') then (c', r) when flare_bottom else (0, r), followed by
    (h - c', r) then (h, r - c') when taper_top else (h, r). *)
Theorem C5_profile (r h c : Q) (taper_top flare_bottom : bool) :
  let c' := fitted_chamfer h c taper_top flare_bottom in
  ((flag taper_top + flag flare_bottom) * c >= h -> c' == h / 3) /\
  ((flag taper_top + flag flare_bottom) * c < h -> c' = c) /\
  Forall2 pt2_eq
    (profile r h c taper_top flare_bottom)
    ((if flare_bottom then [(0, r + c'); (c', r)] else [(0, r)])
     ++ (if taper_top then [(h - c', r); (h, r - c')] else [(h, r)])).
Proof.
  cbv zeta.
  destruct (fitted_chamfer_cases h c taper_top flare_bottom) as [Hge Hlt].
  cbv zeta in Hge, Hlt.
  split_all.
  - intro H. rewrite (Hge H). field.
  - exact Hlt.
  - unfold profile.
    destruct flare_bottom, taper_top; cbn [app];
      repeat constructor; cbn [fst snd]; reflexivity.
Qed.

(** ** The suggested plane *)

Lemma np_argmax_first_maximum (e : vec3) :
  exists k : nat,
    (k < 3)%nat /\ np_argmax e = Z.of_nat k /\
    (forall j, (j < 3)%nat -> coord e j <= coord e k) /\
    (forall j, (j < k)%nat -> coord e j < coord e k).
Proof.
  destruct e as [[x y] z]. unfold np_argmax. cbn [argmax_from].
  case_ltb x y; [case_ltb y z | case_ltb x z].
  all: match goal with |- context [Z.of_nat ?n = _] => exists n end.
  all: split; [lia|]; split; [reflexivity|]; split; intros j Hj.
  all: destruct j as [|[|[|j]]]; cbn [coord]; try lia; lra.
Qed.

Lemma index3_of_nat (i : nat) : (i < 3)%nat -> index3 (Z.of_nat i) = Ok i.
Proof.
  intro Hi. destruct i as [|[|[|i]]]; try lia; reflexivity.
Qed.

Lemma request_axis_idx_values :
  request_axis_idx None = None /\
  request_axis_idx (Some "auto"%string) = None /\
  request_axis_idx (Some ""%string) = None /\
  request_axis_idx (Some "x"%string) = Some 0%Z /\
  request_axis_idx (Some "X"%string) = Some 0%Z /\
  request_axis_idx (Some "y"%string) = Some 1%Z /\
  request_axis_idx (Some "Y"%string) = Some 1%Z /\
  request_axis_idx (Some "z"%string) = Some 2%Z /\
  request_axis_idx (Some "Z"%string) = Some 2%Z.
Proof. repeat split. Qed.

Section SuggestSplit.
Context `{SH : Shapely} `{TM : @Trimesh SH}.

(** C7.  On a mesh with bounds (lo, hi) and extents e, [suggest_split]
    with no axis (what the handler passes for an absent axis and for
    "auto") selects i = argmax(e), the first index of the largest extent;
    for any selected axis i it returns the normal e_i, the positive unit
    vector of the axis, and as origin the centroid with coordinate i
    replaced by the midpoint (lo_i + hi_i) / 2.  The third component is
    the visualization of the section by that plane. *)
Theorem C7_suggest_split (m : mesh) (lo hi e : vec3) :
  bounds m = Some (lo, hi) ->
  extents m = Some e ->
  (exists k : nat,
      (k < 3)%nat /\ np_argmax e = Z.of_nat k /\
      (forall j, (j < 3)%nat -> coord e j <= coord e k) /\
      (forall j, (j < k)%nat -> coord e j < coord e k) /\
      suggest_split m None = suggest_split m (Some (Z.of_nat k))) /\
  suggest_split_request m None = suggest_split m None /\
  suggest_split_request m (Some "auto"%string) = suggest_split m None /\
  forall i : nat, (i < 3)%nat ->
    let origin :=
      replace_coord (centroid m) i ((coord lo i + coord hi i) / 2.0) in
    let normal := unit_vector i in
    suggest_split m (Some (Z.of_nat i))
    = (section_mesh <- section_visualization m origin normal ;;
       Ok (origin, normal, section_mesh)).
Proof.
  intros Hb He. split_all.
  - destruct (np_argmax_first_maximum e) as (k & Hk & Harg & Hmax & Hfirst).
    exists k. split_all; auto.
    unfold suggest_split. rewrite He, Harg. reflexivity.
  - reflexivity.
  - reflexivity.
  - intros i Hi. cbv zeta. unfold suggest_split.
    rewrite Hb, He. rewrite (index3_of_nat Hi). cbn [bind unwrap].
    unfold vget, vset. rewrite (index3_of_nat Hi). cbn [bind fst snd].
    destruct e as [[ex ey] ez], lo as [[lx ly] lz], hi as [[hx hy] hz].
    destruct (centroid m) as [[cx cy] cz] eqn:Hc.
    destruct i as [|[|[|i]]]; try lia;
      cbn [bind coord replace_coord unit_vector]; reflexivity.
Qed.

End SuggestSplit.

(** The headless test: the box 100 x 50 x 20 is split across X at its
    middle. *)
Lemma C7_suggest_split_witness :
  suggest_split (TM := Sample.trimesh) Sample.test_box (Some 0%Z)
  = Ok (replace_coord (centroid (Trimesh := Sample.trimesh) Sample.test_box)
                      0 ((- 50 + 50) / 2.0),
        unit_vector 0, None).
Proof.
  pose proof (@C7_suggest_split Sample.shapely Sample.trimesh Sample.test_box
                (- 50, - 25, - 10) (50, 25, 10) (100, 50, 20)
                eq_refl eq_refl) as (_ & _ & _ & H).
  exact (H 0%nat ltac:(lia)).
Defined.

(** ** Exceptions and the orchestrator *)

Lemma bind_ok {A B : Type} (m : result A) (k : A -> result B) (b : B) :
  bind m k = Ok b -> exists a, m = Ok a /\ k a = Ok b.
Proof.
  destruct m as [a|e]; cbn [bind]; intro H; [eauto | discriminate].
Qed.

(** One step through a monadic computation known to return. *)
Ltac step H :=
  match type of H with
  | bind ?m _ = Ok _ =>
      let a := fresh "a" in
      let Ha := fresh "Ha" in
      apply bind_ok in H; destruct H as (a & Ha & H)
  | (if ?b then _ else _) = Ok _ =>
      let E := fresh "E" in destruct b eqn:E; try discriminate H
  | match ?x with _ => _ end = Ok _ =>
      let E := fresh "E" in destruct x eqn:E; try discriminate H
  end.

Section Keying.
Context `{SH : Shapely} `{TM : @Trimesh SH} `{TG : TrigTable}.

Lemma cap_data_of_first (to_3d : mat4) (main_poly : geometry)
      (centers_2d : list pt2) (cap : cap_data) :
  cap_data_of to_3d main_poly centers_2d = Ok cap ->
  exists c0 rest,
    centers_2d = c0 :: rest /\
    boundary_distance c0 main_poly = Ok (max_radius cap) /\
    centers cap
    = map (fun c2d : pt2 => dot_mat4_xyz to_3d (fst c2d, snd c2d, 0, 1))
          centers_2d.
Proof.
  unfold cap_data_of. intro H.
  destruct centers_2d as [|c0 rest]; [discriminate H|].
  cbn [getitem nth_error bind] in H. step H.
  injection H as <-. cbn [max_radius centers]. eauto.
Qed.



(** The loop appends one placed pin and one placed cutter per center. *)
Lemma make_keys_spec (rotation : mat4) (pr pd ph : Q) (centers_3d : list vec3) :
  forall pins0 cutters0 pins cutters,
    make_keys rotation pr pd ph centers_3d pins0 cutters0 = Ok (pins, cutters) ->
    exists ps qs,
      pins = pins0 ++ ps /\ cutters = cutters0 ++ qs /\
      Forall2 (fun center pin =>
                 exists shape,
                   _create_chamfered_pin pr ph (0.1 * pd) true true = Ok shape /\
                   placed rotation center shape = Ok pin)
              centers_3d ps /\
      Forall2 (fun center cutter =>
                 exists shape,
                   _create_chamfered_pin (hole_radius pr) (hole_height ph)
                     (0.1 * (2 * hole_radius pr)) false true = Ok shape /\
                   placed rotation center shape = Ok cutter)
              centers_3d qs.
Proof.
  induction centers_3d as [|center rest IH]; intros pins0 cutters0 pins cutters H.
  - cbn [make_keys] in H. injection H as <- <-.
    exists [], []. rewrite !app_nil_r. repeat split; constructor.
  - cbn [make_keys] in H.
    apply bind_ok in H as (pin0 & Hpin0 & H).
    apply bind_ok in H as (pin1 & Hpin1 & H).
    apply bind_ok in H as (pin2 & Hpin2 & H).
    apply bind_ok in H as (cut0 & Hcut0 & H).
    apply bind_ok in H as (cut1 & Hcut1 & H).
    apply bind_ok in H as (cut2 & Hcut2 & H).
    apply IH in H as (ps & qs & -> & -> & Hps & Hqs).
    exists (pin2 :: ps), (cut2 :: qs).
    rewrite <- !app_assoc. cbn [app]. split_all; try reflexivity.
    + constructor; [|exact Hps].
      exists pin0. split; [exact Hpin0|].
      unfold placed. rewrite Hpin1. exact Hpin2.
    + constructor; [|exact Hqs].
      exists cut0. split; [exact Hcut0|].
      unfold placed. rewrite Hcut1. exact Hcut2.
Qed.

(** C8.  The cap analysis never raises: whatever exception its body
    raises, and not only when no face lies on the plane, it returns
    [None]; and whenever it returns [None], [perform_split_and_key]
    returns the two halves exactly as the slicer produced them, no pin
    united and no hole subtracted. *)
Theorem C8_analysis_total_keying_skipped
        (self_mesh mesh_a mesh_b : mesh) (origin normal : vec3) :
  slice_mesh_plane self_mesh origin normal = Ok mesh_a ->
  slice_mesh_plane self_mesh origin (vneg normal) = Ok mesh_b ->
  (forall e : exn,
      analyze_cap_surface_body mesh_a origin normal = Raise e ->
      _analyze_cap_surface mesh_a origin normal = None) /\
  (cap_faces_indices mesh_a origin normal = Ok [] ->
   _analyze_cap_surface mesh_a origin normal = None) /\
  (_analyze_cap_surface mesh_a origin normal = None ->
   perform_split_and_key self_mesh origin normal = Ok (mesh_a, mesh_b)).
Proof.
  intros Ha Hb. split_all.
  - intros e He. unfold _analyze_cap_surface. now rewrite He.
  - intro H. unfold _analyze_cap_surface, analyze_cap_surface_body.
    now rewrite H.
  - intro H. unfold perform_split_and_key.
    rewrite Ha. cbn [bind]. rewrite Hb. cbn [bind]. now rewrite H.
Qed.


End Keying.

(** The bar standing on z = 0 and a plane at z = -1 below it: no face lies
    on the plane, the analysis returns [None] and the halves come back as
    sliced, the bar and the empty mesh. *)
Lemma C8_analysis_total_keying_skipped_witness :
  perform_split_and_key (TM := Sample.trimesh) (TG := Sample.trig)
    Sample.bar (0, 0, - (1)) (0, 0, 1)
  = Ok (Sample.bar, Sample.empty_mesh).
Proof.
  refine (proj2 (proj2
    (@C8_analysis_total_keying_skipped Sample.shapely Sample.trimesh Sample.trig
       Sample.bar Sample.bar Sample.empty_mesh (0, 0, - (1)) (0, 0, 1) _ _)) _);
    vm_compute; reflexivity.
Defined.


(** ** The 2D centers *)

Section Centers.
Context `{SH : Shapely}.

(** The loop keeps, in order, the proposed points that the polygon
    contains. *)
Lemma place_pins_filter (P : geometry) (start end_ : pt2) (n : nat) :
  forall (range_ : list nat) (centers_2d pts : list pt2),
    mapM (fun i => line_interpolate start end_ (pin_fraction i n)) range_ = Ok pts ->
    place_pins P start end_ n range_ centers_2d
    = Ok (centers_2d ++ filter (contains P) pts).
Proof.
  induction range_ as [|i range_ IH]; intros centers_2d pts H.
  - cbn [mapM] in H. injection H as <-. cbn [place_pins filter].
    now rewrite app_nil_r.
  - cbn [mapM] in H.
    apply bind_ok in H as (pt & Hpt & H).
    apply bind_ok in H as (pts' & Hpts' & H). injection H as <-.
    cbn [place_pins]. fold (pin_fraction i n). rewrite Hpt. cbn [bind filter].
    destruct (contains P pt).
    + rewrite (IH _ _ Hpts'). now rewrite <- app_assoc.
    + apply IH. exact Hpts'.
Qed.

(** A loop that returns has interpolated every proposed point. *)
Lemma place_pins_ok (P : geometry) (start end_ : pt2) (n : nat) :
  forall (range_ : list nat) (centers_2d cs : list pt2),
    place_pins P start end_ n range_ centers_2d = Ok cs ->
    exists pts,
      mapM (fun i => line_interpolate start end_ (pin_fraction i n)) range_ = Ok pts.
Proof.
  induction range_ as [|i range_ IH]; intros centers_2d cs H.
  - exists []. reflexivity.
  - cbn [place_pins] in H. fold (pin_fraction i n) in H.
    apply bind_ok in H as (pt & Hpt & H).
    assert (exists pts, mapM (fun i => line_interpolate start end_ (pin_fraction i n))
                             range_ = Ok pts) as [pts Hpts].
    { destruct (contains P pt); eapply IH; exact H. }
    exists (pt :: pts). cbn [mapM]. rewrite Hpt. cbn [bind]. rewrite Hpts.
    reflexivity.
Qed.

(** In multi-pin mode, when the library calls return, so does the
    planner: with the contained points, or with the fallback alone. *)
Lemma plan_centers_multi (P : geometry) (x y : list Q) (n : nat)
      (start end_ : pt2) (pts : list pt2) :
  n <> 1%nat ->
  centerline x y = Ok (start, end_) ->
  mapM (fun i => line_interpolate start end_ (pin_fraction i n)) (seq 0 n) = Ok pts ->
  plan_centers P x y n
  = match filter (contains P) pts with
    | [] => pt <- polylabel P 0.1 ;; Ok [pt]
    | cs => Ok cs
    end.
Proof.
  intros Hn Hline Hpts. unfold plan_centers.
  apply Nat.eqb_neq in Hn. rewrite Hn, Hline. cbn [bind].
  rewrite (place_pins_filter P _ _ _ _ [] Hpts). cbn [bind app].
  destruct (filter (contains P) pts); reflexivity.
Qed.

(** A single pin goes to the centroid when the polygon contains it, and
    to the point [polylabel] returns otherwise. *)
Lemma plan_centers_single (P : geometry) (x y : list Q) (cs : list pt2) :
  plan_centers P x y 1 = Ok cs ->
  exists pt,
    centroid2 P = Ok pt /\
    (contains P pt = true -> cs = [pt]) /\
    (contains P pt = false ->
     exists pole, polylabel P 0.1 = Ok pole /\ cs = [pole]).
Proof.
  intro H. unfold plan_centers, single_center in H. cbn [Nat.eqb] in H.
  apply bind_ok in H as (l & Hl & H).
  apply bind_ok in Hl as (pt & Hpt & Hl).
  apply bind_ok in Hl as (pt' & Hpt' & Hl).
  injection Hl as <-. injection H as <-.
  exists pt. split; [exact Hpt|].
  destruct (contains P pt) eqn:E; cbn [negb] in Hpt'; split; intro H;
    try discriminate H.
  - injection Hpt' as <-. reflexivity.
  - exists pt'. split; [exact Hpt' | reflexivity].
Qed.

(** C4, as the code has it.  The planner returns at least one center.
    Every center it returns either passed the test [P.contains], and then
    lies inside P, or is the single fallback center, the point
    [polylabel(P, 0.1)], which is appended without a test.  With one pin
    the center is the centroid when P contains it and the fallback
    otherwise.  In multi-pin mode the centers are the proposed centerline
    points that P contains, the others being discarded; if all are
    discarded exactly one center is returned, the fallback. *)
Theorem C4_centers_inside (P : geometry) (x y : list Q) (n : nat)
        (cs : list pt2) :
  plan_centers P x y n = Ok cs ->
  cs <> [] /\
  (forall c, In c cs ->
     contains P c = true \/ (cs = [c] /\ polylabel P 0.1 = Ok c)) /\
  ((forall pt, contains P pt = true -> covers P pt = true) ->
   forall c, In c cs ->
     covers P c = true \/ (cs = [c] /\ polylabel P 0.1 = Ok c)) /\
  (n = 1%nat ->
   exists pt,
     centroid2 P = Ok pt /\
     (contains P pt = true -> cs = [pt]) /\
     (contains P pt = false ->
      exists pole, polylabel P 0.1 = Ok pole /\ cs = [pole])) /\
  (n <> 1%nat ->
   exists (start end_ : pt2) (pts : list pt2),
     centerline x y = Ok (start, end_) /\
     mapM (fun i => line_interpolate start end_ (pin_fraction i n)) (seq 0 n)
     = Ok pts /\
     (filter (contains P) pts <> [] -> cs = filter (contains P) pts) /\
     (filter (contains P) pts = [] ->
      exists pt, polylabel P 0.1 = Ok pt /\ cs = [pt])).
Proof.
  intro H.
  assert (Hin : cs <> [] /\
                forall c, In c cs ->
                  contains P c = true \/ (cs = [c] /\ polylabel P 0.1 = Ok c)).
  { destruct (Nat.eq_dec n 1) as [->|Hn].
    - destruct (plan_centers_single _ _ _ H) as (pt & _ & Hyes & Hno).
      destruct (contains P pt) eqn:E.
      + rewrite (Hyes eq_refl). split; [discriminate|].
        intros c [<-|[]]. left. exact E.
      + destruct (Hno eq_refl) as (pole & Hpole & ->). split; [discriminate|].
        intros c [<-|[]]. right. split; [reflexivity | exact Hpole].
    - pose proof H as H0. unfold plan_centers in H0.
      pose proof Hn as Hn'. apply Nat.eqb_neq in Hn'. rewrite Hn' in H0.
      apply bind_ok in H0 as (l & Hl & _).
      apply bind_ok in Hl as ([start end_] & Hline & Hl).
      destruct (place_pins_ok _ _ _ _ _ _ Hl) as [pts Hpts].
      rewrite (plan_centers_multi P x y Hn Hline Hpts) in H.
      destruct (filter (contains P) pts) as [|c0 l'] eqn:Hf.
      + apply bind_ok in H as (pt & Hpt & H). injection H as <-.
        split; [discriminate|].
        intros c [<-|[]]. right. split; [reflexivity | exact Hpt].
      + injection H as <-. split; [discriminate|].
        intros c Hc. left. rewrite <- Hf in Hc.
        apply filter_In in Hc as [_ Hc]. exact Hc. }
  destruct Hin as [Hne Hin].
  split_all.
  - exact Hne.
  - exact Hin.
  - intros Hcov c Hc. destruct (Hin c Hc) as [Hc'|Hc']; auto.
  - intros ->. apply plan_centers_single with (x := x) (y := y). exact H.
  - intro Hn.
    pose proof H as H0. unfold plan_centers in H0.
    pose proof Hn as Hn'. apply Nat.eqb_neq in Hn'. rewrite Hn' in H0.
    apply bind_ok in H0 as (l & Hl & _).
    apply bind_ok in Hl as ([start end_] & Hline & Hl).
    destruct (place_pins_ok _ _ _ _ _ _ Hl) as [pts Hpts].
    rewrite (plan_centers_multi P x y Hn Hline Hpts) in H.
    exists start, end_, pts. split; [exact Hline|]. split; [exact Hpts|].
    destruct (filter (contains P) pts) as [|c0 l'] eqn:Hf.
    + apply bind_ok in H as (pt & Hpt & H). injection H as <-.
      split; [intro Hc; contradiction | intros _; eauto].
    + injection H as <-.
      split; [reflexivity | intro Hc; discriminate Hc].
Qed.

End Centers.

Lemma rect_contains_covers (g : Sample.rect) (pt : pt2) :
  Sample.rect_contains g pt = true -> Sample.rect_covers g pt = true.
Proof.
  destruct g as [[[x0 y0] x1] y1]. unfold Sample.rect_contains, Sample.rect_covers.
  rewrite !andb_true_iff, !ltb_lt, !Qle_bool_iff.
  intros [[[? ?] ?] ?]. repeat split; apply Qlt_le_weak; assumption.
Qed.

(** The cap 50 x 5 of the bar: two pins are proposed on the centerline, at
    the fractions 1/4 and 3/4, and both lie in the rectangle. *)
Lemma C4_centers_inside_witness :
  Forall (fun c => contains (Shapely := Sample.shapely) Sample.bar_cap_polygon c = true)
         Sample.bar_centers_2d.
Proof.
  apply Forall_forall. intros c Hc.
  destruct (proj1 (proj2
    (@C4_centers_inside Sample.shapely Sample.bar_cap_polygon
       (fst (Sample.rect_xy Sample.bar_cap_polygon))
       (snd (Sample.rect_xy Sample.bar_cap_polygon)) 2 Sample.bar_centers_2d
       ltac:(vm_compute; reflexivity))) c Hc) as [H|[H _]].
  - exact H.
  - vm_compute in H. discriminate H.
Defined.

(** C4 fails as stated.  An angle bracket with arms 2 long and 0.05 wide:
    its rectangle is the square of side 2, the aspect ratio 1, one pin.
    The centroid, about (0.519, 0.519), lies in the empty corner, so the
    planner falls back on [polylabel(P, 0.1)].  The grid search stops
    refining a cell once no point of it can beat the best center by more
    than the tolerance 0.1; no cell center ever falls into the arms, and
    the best center, (0.0625, 0.1875), lies 0.0125 outside the bracket.
    The planner returns it as the only center. *)
Lemma C4_counterexample :
  minimum_rotated_rectangle_xy (Shapely := Outline.shapely) Outline.bracket
  = Ok ([2; 2; 0; 0; 2], [0; 2; 2; 0; 0]) /\
  edge_lengths (SH := Outline.shapely) [2; 2; 0; 0; 2] [0; 2; 2; 0; 0]
  = Ok [2; 2; 2; 2] /\
  (exists r, aspect_ratio [2; 2; 2; 2] = Ok r /\ r == 1 /\ num_pins r = 1%nat) /\
  centroid2 (Shapely := Outline.shapely) Outline.bracket
  = Ok (1639 # 3160, 1639 # 3160) /\
  contains (Shapely := Outline.shapely) Outline.bracket (1639 # 3160, 1639 # 3160)
  = false /\
  polylabel (Shapely := Outline.shapely) Outline.bracket 0.1
  = Ok (1 # 16, 3 # 16) /\
  plan_centers (SH := Outline.shapely) Outline.bracket
    [2; 2; 0; 0; 2] [0; 2; 2; 0; 0] 1
  = Ok [(1 # 16, 3 # 16)] /\
  covers (Shapely := Outline.shapely) Outline.bracket (1 # 16, 3 # 16) = false /\
  boundary_distance (Shapely := Outline.shapely) (1 # 16, 3 # 16) Outline.bracket
  = Ok (1 # 80).
Proof.
  split_all; try (vm_compute; reflexivity).
  eexists. split; [apply aspect_ratio_eq|]. split; reflexivity.
Qed.

Lemma mapM_length {A B : Type} (f : A -> result B) (l : list A) :
  forall bs, mapM f l = Ok bs -> List.length bs = List.length l.
Proof.
  induction l as [|a l IH]; intros bs H; cbn [mapM] in H.
  - injection H as <-. reflexivity.
  - apply bind_ok in H as (b & _ & H).
    apply bind_ok in H as (bs' & Hbs' & H). injection H as <-.
    cbn [List.length]. f_equal. apply IH. exact Hbs'.
Qed.

(** *** The rectangle and its centerline *)

Section Rectangle.
Context `{SH : Shapely}.

(** The edge list that reaches [aspect_ratio] has four entries. *)
Lemma edge_lengths_four (x y : list Q) (es : list Q) :
  edge_lengths x y = Ok es ->
  exists e0 e1 e2 e3, es = [e0; e1; e2; e3].
Proof.
  unfold edge_lengths. intro H. apply mapM_length in H. cbn in H.
  destruct es as [|e0 [|e1 [|e2 [|e3 [|e4 es]]]]]; try discriminate H.
  eauto.
Qed.

(** When the second edge of the rectangle is the longer one the source
    reads the local [p3] before binding it: the centerline is never built,
    and in multi-pin mode the planner raises. *)
Lemma centerline_second_edge_longer (x0 x1 x2 y0 y1 y2 : Q) (xs ys : list Q) :
  point_distance (x0, y0) (x1, y1) < point_distance (x1, y1) (x2, y2) ->
  centerline (x0 :: x1 :: x2 :: xs) (y0 :: y1 :: y2 :: ys)
  = Raise (UnboundLocalError "p3").
Proof.
  intro H. unfold centerline. cbn [getitem nth_error bind].
  apply geb_lt in H. rewrite H. reflexivity.
Qed.

Lemma plan_centers_second_edge_longer
      (P : geometry) (x0 x1 x2 y0 y1 y2 : Q) (xs ys : list Q) (n : nat) :
  n <> 1%nat ->
  point_distance (x0, y0) (x1, y1) < point_distance (x1, y1) (x2, y2) ->
  plan_centers P (x0 :: x1 :: x2 :: xs) (y0 :: y1 :: y2 :: ys) n
  = Raise (UnboundLocalError "p3").
Proof.
  intros Hn H. unfold plan_centers.
  apply Nat.eqb_neq in Hn. rewrite Hn.
  rewrite (@centerline_second_edge_longer x0 x1 x2 y0 y1 y2 xs ys H). reflexivity.
Qed.

(** The planner returns between one and [num_pins] centers. *)
Lemma plan_centers_count (P : geometry) (x y : list Q) (n : nat) (cs : list pt2) :
  (1 <= n)%nat ->
  plan_centers P x y n = Ok cs ->
  (1 <= List.length cs <= n)%nat.
Proof.
  intros Hn H.
  destruct (Nat.eq_dec n 1) as [->|Hne].
  - unfold plan_centers, single_center in H. cbn [Nat.eqb] in H.
    apply bind_ok in H as (l & Hl & H).
    apply bind_ok in Hl as (pt & _ & Hl).
    apply bind_ok in Hl as (pt' & _ & Hl).
    injection Hl as <-. injection H as <-. cbn. lia.
  - pose proof H as H0. unfold plan_centers in H0.
    pose proof Hne as Hn'. apply Nat.eqb_neq in Hn'. rewrite Hn' in H0.
    apply bind_ok in H0 as (l & Hl & _).
    apply bind_ok in Hl as ([start end_] & Hline & Hl).
    destruct (place_pins_ok _ _ _ _ _ _ Hl) as [pts Hpts].
    rewrite (plan_centers_multi P x y Hne Hline Hpts) in H.
    assert (Hlen : (List.length (filter (contains P) pts) <= n)%nat).
    { etransitivity; [apply filter_length_le|].
      apply mapM_length in Hpts. rewrite length_seq in Hpts. lia. }
    destruct (filter (contains P) pts) as [|c l'] eqn:Hf.
    + apply bind_ok in H as (pt & _ & H). injection H as <-. cbn. lia.
    + injection H as <-. cbn [List.length] in *. lia.
Qed.

End Rectangle.

(** ** The normal of the cut plane *)

#[export] Instance ltb_proper : Proper (Qeq ==> Qeq ==> eq) Py.ltb.
Proof.
  intros x x' Hx y y' Hy. unfold Py.ltb. now rewrite Hx, Hy.
Qed.

Lemma dot_vscale (v n : vec3) (k : Q) : dot v (vscale k n) == k * dot v n.
Proof.
  destruct v as [[vx vy] vz], n as [[nx ny] nz]. cbn [dot vscale]. ring.
Qed.

Lemma ltb_scaled (k a e : Q) : 0 < k -> (k * a <? e) = (a <? e / k).
Proof.
  intro Hk.
  assert (He : e == (e / k) * k) by (field; lra).
  case_ltb (k * a) e; symmetry.
  - apply ltb_lt. nra.
  - apply ltb_ge. nra.
Qed.

Lemma on_plane_mask_scaled (m : mesh) (o n : vec3) (k : Q) :
  0 < k ->
  on_plane_mask m o (vscale k n) = vertices_within (1e-4 / k) m o n.
Proof.
  intro Hk. unfold on_plane_mask, vertices_within. rewrite !map_map.
  apply map_ext. intro v.
  rewrite dot_vscale, Qabs_Qmult, (Qabs_pos k) by lra.
  apply ltb_scaled. exact Hk.
Qed.

Lemma on_plane_mask_unit_scale (m : mesh) (o n : vec3) (k : Q) :
  k == 1 -> on_plane_mask m o (vscale k n) = on_plane_mask m o n.
Proof.
  intro Hk. rewrite on_plane_mask_scaled by lra.
  unfold on_plane_mask, vertices_within. rewrite !map_map.
  apply map_ext. intro v.
  assert (H : forall e : Q, e / k == e) by (intro e; rewrite Hk; field).
  now rewrite H.
Qed.

(** C1, as the code has it.  The core does not normalize the normal it is
    given: the cap analysis tests |(v - origin) . normal| < 1e-4 with the
    normal as supplied.  For a normal k * n with k > 0 a vertex therefore
    counts as on the plane when it is within 1e-4 / k of it along n, and
    the faces selected as the cap are those within that tolerance; the
    selection is the one for n when k = 1, that is when the supplied normal
    already is the unit normal. *)
Theorem C1_normal_used_as_supplied (m : mesh) (o n : vec3) (k : Q) :
  0 < k ->
  on_plane_mask m o (vscale k n) = vertices_within (1e-4 / k) m o n /\
  cap_faces_indices m o (vscale k n) = faces_within (1e-4 / k) m o n /\
  (k == 1 ->
   on_plane_mask m o (vscale k n) = on_plane_mask m o n /\
   cap_faces_indices m o (vscale k n) = cap_faces_indices m o n).
Proof.
  intro Hk. split_all.
  - apply on_plane_mask_scaled. exact Hk.
  - unfold cap_faces_indices, face_mask, faces_within.
    now rewrite on_plane_mask_scaled.
  - intro H1. split.
    + apply on_plane_mask_unit_scale. exact H1.
    + unfold cap_faces_indices, face_mask.
      now rewrite on_plane_mask_unit_scale.
Qed.

(** The normal (2, 0, 0) is twice the unit normal (1, 0, 0): on the near
    box it selects the faces within 1e-4 / 2 of the plane, that is none. *)
Lemma C1_normal_used_as_supplied_witness :
  cap_faces_indices Sample.near_box (0, 0, 0) (vscale 2 (1, 0, 0))
  = faces_within (1e-4 / 2) Sample.near_box (0, 0, 0) (1, 0, 0).
Proof.
  refine (proj1 (proj2
    (@C1_normal_used_as_supplied Sample.near_box (0, 0, 0) (1, 0, 0) 2 _))).
  reflexivity.
Defined.

(** C1 fails as stated: on the near box, whose face at x = 0.00007 lies
    within 1e-4 of the plane x = 0, the unit normal (1, 0, 0) selects the
    two triangles of that face as the cap, the normal (2, 0, 0) selects
    none, and with no face selected the analysis returns [None] whatever
    the libraries do, so no key is placed. *)
Lemma C1_counterexample :
  cap_faces_indices Sample.near_box (0, 0, 0) (1, 0, 0) = Ok [0; 1]%nat /\
  cap_faces_indices Sample.near_box (0, 0, 0) (2, 0, 0) = Ok [] /\
  (forall (SH : Shapely) (TM : @Trimesh SH),
      _analyze_cap_surface Sample.near_box (0, 0, 0) (2, 0, 0) = None).
Proof.
  split_all.
  - vm_compute. reflexivity.
  - vm_compute. reflexivity.
  - intros SH TM. unfold _analyze_cap_surface, analyze_cap_surface_body.
    assert (H : cap_faces_indices Sample.near_box (0, 0, 0) (2, 0, 0) = Ok [])
      by (vm_compute; reflexivity).
    now rewrite H.
Qed.

(** ** The mesh of the chamfered pin *)

Section PinMesh.
Context `{TG : TrigTable}.

Lemma profile_length (r h c : Q) (taper_top flare_bottom : bool) :
  List.length (profile r h c taper_top flare_bottom)
  = (2 + (if taper_top then 1 else 0) + (if flare_bottom then 1 else 0))%nat.
Proof. destruct taper_top, flare_bottom; reflexivity. Qed.

Lemma ring_v_length (z r : Q) : List.length (ring_v z r) = sections.
Proof. unfold ring_v. now rewrite length_map, length_seq. Qed.

Lemma ring_vertices_length (p : list (Q * Q)) :
  List.length (ring_vertices p) = (List.length p * sections)%nat.
Proof.
  unfold ring_vertices. apply flat_map_constant_length.
  intros [z r] _. apply ring_v_length.
Qed.

(** The arrays: the rings of the profile, then the bottom center, then
    the top center; the faces are those of [pin_faces]. *)
Lemma chamfered_pin_arrays_eq (r h c : Q) (taper_top flare_bottom : bool) :
  let p := profile r h c taper_top flare_bottom in
  chamfered_pin_arrays r h c taper_top flare_bottom
  = (revolved_vertices p, pin_faces (List.length p)).
Proof.
  cbv zeta. unfold chamfered_pin_arrays, pin_faces, revolved_vertices.
  rewrite !length_app, ring_vertices_length. cbn [List.length].
  set (n := List.length (profile r h c taper_top flare_bottom)).
  replace (n * sections + 1 - 1)%nat with (n * sections)%nat by lia.
  replace (n * sections + 1 + 1 - 1)%nat with (n * sections + 1)%nat by lia.
  reflexivity.
Qed.

Lemma pin_vertex_count (r h c : Q) (taper_top flare_bottom : bool) :
  List.length (fst (chamfered_pin_arrays r h c taper_top flare_bottom))
  = (32 * List.length (profile r h c taper_top flare_bottom) + 2)%nat.
Proof.
  rewrite chamfered_pin_arrays_eq. cbn [fst]. unfold revolved_vertices.
  rewrite !length_app, ring_vertices_length. cbn [List.length].
  unfold sections. lia.
Qed.

(** Ring [i] of the vertex array holds the samples of circle [i] of the
    profile. *)
Lemma ring_vertices_nth (p : list (Q * Q)) :
  forall (i j : nat) (z r : Q),
    nth_error p i = Some (z, r) -> (j < sections)%nat ->
    nth_error (ring_vertices p) (i * sections + j)
    = Some (r * cos_theta j, r * sin_theta j, z).
Proof.
  induction p as [|[z0 r0] p IH]; intros i j z r Hi Hj.
  - destruct i; discriminate.
  - cbn [ring_vertices flat_map]. destruct i as [|i].
    + injection Hi as -> ->. cbn [Nat.mul Nat.add].
      rewrite nth_error_app1 by (rewrite ring_v_length; exact Hj).
      unfold ring_v. rewrite nth_error_map, nth_error_seq.
      apply Nat.ltb_lt in Hj. rewrite Hj. reflexivity.
    + rewrite nth_error_app2 by (rewrite ring_v_length; lia).
      rewrite ring_v_length.
      replace (S i * sections + j - sections)%nat with (i * sections + j)%nat
        by lia.
      apply (IH i j z r Hi Hj).
Qed.

End PinMesh.

(** The face lists do not depend on the dimensions or on the table: for 2,
    3 and 4 rings they index existing vertices, every edge belongs to two
    triangles, and these run through it in opposite directions. *)
Lemma pin_faces_closed (num_rings : nat) :
  (2 <= num_rings <= 4)%nat ->
  faces_in_range (32 * num_rings + 2) (pin_faces num_rings) = true /\
  watertight (pin_faces num_rings) = true /\
  winding_consistent (pin_faces num_rings) = true.
Proof.
  intros [Hlo Hhi].
  destruct num_rings as [|[|[|[|[|n]]]]]; try lia;
    split_all; vm_compute; reflexivity.
Qed.

(** *** Orientation of the triangles *)

Lemma band_triangle_1_outward (h ri ri1 zi zi1 cj sj cj1 sj1 : Q) :
  0 < ri -> 0 < ri1 -> zi < zi1 -> 0 < cj * sj1 - sj * cj1 ->
  triangle_outward h (ri * cj, ri * sj, zi) (ri * cj1, ri * sj1, zi)
                   (ri1 * cj, ri1 * sj, zi1).
Proof.
  intros Hri Hri1 Hz Hk. unfold triangle_outward.
  cbn [triangle_normal cross vsub vadd]. left.
  match goal with |- 0 < ?e =>
    assert (H : e == ri * ((zi1 - zi) * ((cj * sj1 - sj * cj1) * (ri + ri + ri1))))
      by ring; rewrite H
  end.
  repeat apply Qmult_lt_0_compat; lra.
Qed.

Lemma band_triangle_2_outward (h ri ri1 zi zi1 cj sj cj1 sj1 : Q) :
  0 < ri -> 0 < ri1 -> zi < zi1 -> 0 < cj * sj1 - sj * cj1 ->
  triangle_outward h (ri1 * cj, ri1 * sj, zi1) (ri * cj1, ri * sj1, zi)
                   (ri1 * cj1, ri1 * sj1, zi1).
Proof.
  intros Hri Hri1 Hz Hk. unfold triangle_outward.
  cbn [triangle_normal cross vsub vadd]. left.
  match goal with |- 0 < ?e =>
    assert (H : e == ri1 * ((zi1 - zi) * ((cj * sj1 - sj * cj1) * (ri1 + ri + ri1))))
      by ring; rewrite H
  end.
  repeat apply Qmult_lt_0_compat; lra.
Qed.

Lemma bottom_triangle_outward (h r z0 cj sj cj1 sj1 : Q) :
  0 < h -> 0 < r -> z0 == 0 -> 0 < cj * sj1 - sj * cj1 ->
  triangle_outward h (0, 0, z0) (r * cj1, r * sj1, z0) (r * cj, r * sj, z0).
Proof.
  intros Hh Hr Hz Hk. unfold triangle_outward.
  cbn [triangle_normal cross vsub vadd]. right. split.
  - ring.
  - match goal with |- 0 < ?e =>
      assert (H : e == r * (r * ((cj * sj1 - sj * cj1) * (3 * h - 6 * z0))))
        by ring; rewrite H
    end.
    repeat apply Qmult_lt_0_compat; lra.
Qed.

Lemma top_triangle_outward (h r zt cj sj cj1 sj1 : Q) :
  0 < h -> 0 < r -> zt == h -> 0 < cj * sj1 - sj * cj1 ->
  triangle_outward h (0, 0, zt) (r * cj, r * sj, zt) (r * cj1, r * sj1, zt).
Proof.
  intros Hh Hr Hz Hk. unfold triangle_outward.
  cbn [triangle_normal cross vsub vadd]. right. split.
  - ring.
  - match goal with |- 0 < ?e =>
      assert (H : e == r * (r * ((cj * sj1 - sj * cj1) * (6 * zt - 3 * h))))
        by ring; rewrite H
    end.
    repeat apply Qmult_lt_0_compat; lra.
Qed.

(** *** Lookups in a profile *)

Lemma rising_nth (p : list (Q * Q)) :
  forall (i : nat) (a b : Q * Q),
    rising p -> nth_error p i = Some a -> nth_error p (S i) = Some b ->
    fst a < fst b.
Proof.
  induction p as [|x p IH]; intros i a b Hr Ha Hb.
  - destruct i; discriminate.
  - destruct p as [|y p]; [destruct i; discriminate|].
    destruct Hr as [Hxy Hr].
    destruct i as [|i].
    + injection Ha as <-. injection Hb as <-. exact Hxy.
    + apply (IH i a b Hr Ha Hb).
Qed.

Lemma nth_error_lt {A : Type} (l : list A) (i : nat) :
  (i < List.length l)%nat -> exists a, nth_error l i = Some a.
Proof.
  intro Hi. destruct (nth_error l i) as [a|] eqn:E; [eauto|].
  apply nth_error_None in E. lia.
Qed.

Lemma nth_error_first {A : Type} (l : list A) (d : A) :
  (0 < List.length l)%nat -> nth_error l 0 = Some (hd d l).
Proof. destruct l; cbn; [lia | reflexivity]. Qed.

Lemma nth_error_last {A : Type} (l : list A) (d : A) :
  (0 < List.length l)%nat -> nth_error l (List.length l - 1) = Some (last l d).
Proof.
  induction l as [|a l IH]; cbn [List.length]; intro H; [lia|].
  destruct l as [|b l]; [reflexivity|].
  change (last (a :: b :: l) d) with (last (b :: l) d).
  rewrite <- IH by (cbn [List.length]; lia).
  cbn [List.length].
  replace (S (S (List.length l)) - 1)%nat with (S (S (List.length l) - 1)) by lia.
  reflexivity.
Qed.

(** *** The faces of a solid profile wind outward *)

Section PinOrientation.
Context `{TG : TrigTable}.
Variable h : Q.
Variable p : list (Q * Q).
Hypothesis Hccw : counter_clockwise.
Hypothesis Hh : 0 < h.
Hypothesis Hsolid : solid_profile h p.


Lemma vs_ring (i j : nat) (z r : Q) :
  nth_error p i = Some (z, r) -> (j < sections)%nat ->
  nth_error (revolved_vertices p) (i * sections + j)
  = Some (r * cos_theta j, r * sin_theta j, z).
Proof.
  intros Hi Hj. unfold revolved_vertices.
  assert (Hlt : (i < List.length p)%nat).
  { apply nth_error_Some. rewrite Hi. discriminate. }
  assert (Hidx : (i * sections + j < List.length (ring_vertices p))%nat).
  { rewrite ring_vertices_length. nia. }
  rewrite nth_error_app1 by (rewrite length_app; lia).
  rewrite nth_error_app1 by exact Hidx.
  apply ring_vertices_nth; assumption.
Qed.

Lemma vs_bottom_center :
  nth_error (revolved_vertices p) (List.length p * sections)
  = Some (0, 0, fst (hd (0, 0) p)).
Proof.
  unfold revolved_vertices.
  rewrite nth_error_app1
    by (rewrite length_app, ring_vertices_length; cbn [List.length]; lia).
  rewrite nth_error_app2 by (rewrite ring_vertices_length; lia).
  rewrite ring_vertices_length, Nat.sub_diag. reflexivity.
Qed.

Lemma vs_top_center :
  nth_error (revolved_vertices p) (List.length p * sections + 1)
  = Some (0, 0, fst (last p (0, 0))).
Proof.
  unfold revolved_vertices.
  rewrite nth_error_app2
    by (rewrite length_app, ring_vertices_length; cbn [List.length]; lia).
  rewrite length_app, ring_vertices_length. cbn [List.length].
  rewrite Nat.sub_diag. reflexivity.
Qed.

Lemma next_in_range (j : nat) : ((j + 1) mod sections < sections)%nat.
Proof. apply Nat.mod_upper_bound. discriminate. Qed.

Lemma radius_positive (i : nat) (z r : Q) :
  nth_error p i = Some (z, r) -> 0 < r.
Proof.
  intro Hi. destruct Hsolid as (_ & _ & Hpos & _).
  rewrite Forall_forall in Hpos.
  apply (Hpos (z, r)). eapply nth_error_In. exact Hi.
Qed.

Lemma side_faces_outward (f : face) :
  In f (side_faces (List.length p)) -> face_outward h (revolved_vertices p) f.
Proof.
  unfold side_faces. intro Hf.
  apply in_flat_map in Hf as (i & Hi & Hf).
  apply in_flat_map in Hf as (j & Hj & Hf).
  apply in_seq in Hi. apply in_seq in Hj.
  destruct (@nth_error_lt _ p i ltac:(lia)) as [[zi ri] Hi0].
  destruct (@nth_error_lt _ p (i + 1) ltac:(lia)) as [[zi1 ri1] Hi1].
  pose proof (@radius_positive i zi ri Hi0) as Hri.
  pose proof (@radius_positive (i + 1) zi1 ri1 Hi1) as Hri1.
  assert (Hz : zi < zi1).
  { destruct Hsolid as (_ & Hrise & _).
    replace (i + 1)%nat with (S i) in Hi1 by lia.
    apply (@rising_nth p i (zi, ri) (zi1, ri1) Hrise Hi0 Hi1). }
  pose proof Hccw as Hk. unfold counter_clockwise in Hk.
  specialize (Hk j ltac:(lia)). cbv zeta in Hk.
  pose proof (next_in_range j) as Hn.
  destruct Hf as [<-|[<-|[]]]; unfold face_outward.
  - do 3 eexists. split_all.
    + apply (@vs_ring i j zi ri Hi0). lia.
    + apply (@vs_ring i _ zi ri Hi0 Hn).
    + apply (@vs_ring (i + 1) j zi1 ri1 Hi1). lia.
    + apply band_triangle_1_outward; assumption.
  - do 3 eexists. split_all.
    + apply (@vs_ring (i + 1) j zi1 ri1 Hi1). lia.
    + apply (@vs_ring i _ zi ri Hi0 Hn).
    + apply (@vs_ring (i + 1) _ zi1 ri1 Hi1 Hn).
    + apply band_triangle_2_outward; assumption.
Qed.

Lemma bottom_faces_outward (f : face) :
  In f (bottom_faces (List.length p * sections)) ->
  face_outward h (revolved_vertices p) f.
Proof.
  unfold bottom_faces. intro Hf.
  apply in_map_iff in Hf as (j & <- & Hj). apply in_seq in Hj.
  destruct Hsolid as (Hlen & _ & _ & Hbot & _).
  assert (H0 : nth_error p 0 = Some (fst (hd (0, 0) p), snd (hd (0, 0) p))).
  { rewrite <- surjective_pairing. apply nth_error_first. lia. }
  set (z0 := fst (hd (0, 0) p)) in *. set (r0 := snd (hd (0, 0) p)) in *.
  pose proof (@radius_positive 0 z0 r0 H0) as Hr.
  pose proof Hccw as Hk. unfold counter_clockwise in Hk.
  specialize (Hk j ltac:(lia)). cbv zeta in Hk.
  pose proof (next_in_range j) as Hn.
  unfold face_outward. do 3 eexists. split_all.
  - apply vs_bottom_center.
  - apply (@vs_ring 0 _ z0 r0 H0 Hn).
  - apply (@vs_ring 0 j z0 r0 H0). lia.
  - apply bottom_triangle_outward; assumption.
Qed.

Lemma top_faces_outward (f : face) :
  In f (top_faces (List.length p * sections + 1)
                  ((List.length p - 1) * sections)) ->
  face_outward h (revolved_vertices p) f.
Proof.
  unfold top_faces. intro Hf.
  apply in_map_iff in Hf as (j & <- & Hj). apply in_seq in Hj.
  destruct Hsolid as (Hlen & _ & _ & _ & Htop).
  assert (Hl : nth_error p (List.length p - 1)
               = Some (fst (last p (0, 0)), snd (last p (0, 0)))).
  { rewrite <- surjective_pairing. apply nth_error_last. lia. }
  set (zt := fst (last p (0, 0))) in *. set (rt := snd (last p (0, 0))) in *.
  pose proof (@radius_positive _ zt rt Hl) as Hr.
  pose proof Hccw as Hk. unfold counter_clockwise in Hk.
  specialize (Hk j ltac:(lia)). cbv zeta in Hk.
  pose proof (next_in_range j) as Hn.
  unfold face_outward. do 3 eexists. split_all.
  - apply vs_top_center.
  - apply (@vs_ring _ j zt rt Hl). lia.
  - apply (@vs_ring _ _ zt rt Hl Hn).
  - apply top_triangle_outward; assumption.
Qed.

Lemma pin_faces_outward :
  Forall (face_outward h (revolved_vertices p)) (pin_faces (List.length p)).
Proof.
  apply Forall_forall. intros f Hf. unfold pin_faces in Hf.
  apply in_app_or in Hf as [Hf|Hf]; [apply in_app_or in Hf as [Hf|Hf]|].
  - apply side_faces_outward. exact Hf.
  - apply bottom_faces_outward. exact Hf.
  - apply top_faces_outward. exact Hf.
Qed.

End PinOrientation.

(** *** The profile of a well-proportioned pin is solid *)

Lemma fitted_chamfer_fits (h c : Q) (taper_top flare_bottom : bool) :
  0 < h -> 0 < c ->
  let c' := fitted_chamfer h c taper_top flare_bottom in
  0 < c' /\ (flag taper_top + flag flare_bottom) * c' < h.
Proof.
  intros Hh Hc. cbv zeta.
  destruct (fitted_chamfer_cases h c taper_top flare_bottom) as [Hge Hlt].
  cbv zeta in Hge, Hlt.
  destruct (Qlt_le_dec ((flag taper_top + flag flare_bottom) * c) h) as [H|H].
  - rewrite (Hlt H). split; assumption.
  - rewrite (Hge H).
    assert (H3 : h / 3.0 == h * (1 # 3)) by field. rewrite H3.
    unfold flag. destruct taper_top, flare_bottom; split; lra.
Qed.

Lemma profile_solid (r h c : Q) (taper_top flare_bottom : bool) :
  0 < h -> 0 < c ->
  0 < r - (if taper_top then fitted_chamfer h c taper_top flare_bottom else 0) ->
  solid_profile h (profile r h c taper_top flare_bottom).
Proof.
  intros Hh Hc Hr.
  destruct (fitted_chamfer_fits taper_top flare_bottom Hh Hc) as [Hc' Hfit].
  cbv zeta in Hc', Hfit. unfold solid_profile, profile.
  set (c' := fitted_chamfer h c taper_top flare_bottom) in *.
  unfold flag in Hfit.
  destruct taper_top, flare_bottom; cbn [app rising List.length hd last fst snd];
    split_all; try lia; try reflexivity; try lra;
    repeat constructor; cbn [snd]; lra.
Qed.

(** The boolean test of orientation agrees with its statement. *)
Lemma triangle_outwardb_true (h : Q) (pa pb pc : vec3) :
  triangle_outward h pa pb pc -> triangle_outwardb h pa pb pc = true.
Proof.
  unfold triangle_outward, triangle_outwardb.
  destruct (triangle_normal pa pb pc) as [[nx ny] nz].
  destruct (vadd (vadd pa pb) pc) as [[gx gy] gz].
  intros [H|[H0 H]].
  - apply ltb_lt in H. rewrite H. reflexivity.
  - apply Qeq_bool_iff in H0. apply ltb_lt in H. rewrite H0, H.
    apply orb_true_r.
Qed.

Lemma face_outwardb_true (h : Q) (vs : list vec3) (f : face) :
  face_outward h vs f -> face_outwardb h vs f = true.
Proof.
  destruct f as [[a b] c]. unfold face_outward, face_outwardb.
  intros (pa & pb & pc & -> & -> & -> & H).
  apply triangle_outwardb_true. exact H.
Qed.

Lemma faces_outwardb_true (h : Q) (vs : list vec3) (fs : list face) :
  Forall (face_outward h vs) fs -> forallb (face_outwardb h vs) fs = true.
Proof.
  intro H. apply forallb_forall. intros f Hf.
  apply face_outwardb_true. rewrite Forall_forall in H. auto.
Qed.

(** *** The keys the orchestrator builds *)

(** Every pin and every cutter of [perform_split_and_key] is well
    proportioned, whatever the safe radius: its chamfer is used unchanged,
    and its triangles wind outward. *)
Lemma orchestrator_keys_outward `{TG : TrigTable} (max_radius : Q) :
  counter_clockwise ->
  let pr := pin_radius max_radius in
  let ph := pin_height pr in
  let hr := hole_radius pr in
  fitted_chamfer ph (0.1 * (2 * pr)) true true = 0.1 * (2 * pr) /\
  fitted_chamfer ph (0.1 * (2 * hr)) false true = 0.1 * (2 * hr) /\
  Forall (face_outward ph
            (fst (chamfered_pin_arrays pr ph (0.1 * (2 * pr)) true true)))
         (snd (chamfered_pin_arrays pr ph (0.1 * (2 * pr)) true true)) /\
  Forall (face_outward ph
            (fst (chamfered_pin_arrays hr ph (0.1 * (2 * hr)) false true)))
         (snd (chamfered_pin_arrays hr ph (0.1 * (2 * hr)) false true)).
Proof.
  intros Hccw pr ph hr.
  pose proof (pin_radius_range max_radius) as Hpr. fold pr in Hpr.
  pose proof (pin_height_range pr) as Hph. fold ph in Hph.
  pose proof (hole_radius_bounds max_radius) as Hhr.
  cbv zeta in Hhr. fold pr in Hhr. fold hr in Hhr.
  assert (Heps : (1 # 2 ^ 48) <= 0.1) by (vm_compute; discriminate).
  assert (Hpin : fitted_chamfer ph (0.1 * (2 * pr)) true true = 0.1 * (2 * pr)).
  { apply fitted_chamfer_cases. unfold flag. lra. }
  assert (Hcut : fitted_chamfer ph (0.1 * (2 * hr)) false true = 0.1 * (2 * hr)).
  { apply fitted_chamfer_cases. unfold flag. lra. }
  split_all; try assumption.
  - rewrite chamfered_pin_arrays_eq. cbn [fst snd].
    apply pin_faces_outward; [exact Hccw | lra |].
    apply profile_solid; [lra | lra |]. rewrite Hpin. lra.
  - rewrite chamfered_pin_arrays_eq. cbn [fst snd].
    apply pin_faces_outward; [exact Hccw | lra |].
    apply profile_solid; lra.
Qed.

(** C6, as the code has it.  For all parameters the arrays handed to the
    mesh constructor hold num_rings = 2 + (one per chamfer flag) rings of 32
    samples each, ring i at the height and radius of profile point i, then
    the bottom center (0, 0, 0) and the top center (0, 0, h): 32 * num_rings
    + 2 vertices; the faces index these vertices, every edge belongs to
    exactly two triangles (watertight) and the two run through it in
    opposite directions.  The triangles wind outward when the samples run
    counter-clockwise and the pin is well proportioned: h > 0, c > 0 and a
    positive radius at the top (r greater than the chamfer used when
    taper_top, r > 0 otherwise). *)
Theorem C6_pin_mesh `{TG : TrigTable} (r h c : Q) (taper_top flare_bottom : bool) :
  let p := profile r h c taper_top flare_bottom in
  let vs := fst (chamfered_pin_arrays r h c taper_top flare_bottom) in
  let fs := snd (chamfered_pin_arrays r h c taper_top flare_bottom) in
  let num_rings := List.length p in
  num_rings
  = (2 + (if taper_top then 1 else 0) + (if flare_bottom then 1 else 0))%nat /\
  List.length vs = (32 * num_rings + 2)%nat /\
  vs = ring_vertices p ++ [(0, 0, 0.0); (0, 0, h)] /\
  (forall (i j : nat) (z ri : Q),
      nth_error p i = Some (z, ri) -> (j < 32)%nat ->
      nth_error vs (i * 32 + j) = Some (ri * cos_theta j, ri * sin_theta j, z)) /\
  faces_in_range (List.length vs) fs = true /\
  watertight fs = true /\
  winding_consistent fs = true /\
  (counter_clockwise -> 0 < h -> 0 < c ->
   0 < r - (if taper_top then fitted_chamfer h c taper_top flare_bottom else 0) ->
   Forall (face_outward h vs) fs).
Proof.
  cbv zeta.
  pose proof (profile_length r h c taper_top flare_bottom) as Hlen.
  pose proof (pin_vertex_count r h c taper_top flare_bottom) as Hcount.
  assert (Hrings : (2 <= List.length (profile r h c taper_top flare_bottom) <= 4)%nat).
  { rewrite Hlen. destruct taper_top, flare_bottom; lia. }
  destruct (pin_faces_closed Hrings) as (Hrange & Hwater & Hwind).
  rewrite chamfered_pin_arrays_eq in *. cbn [fst snd] in *.
  assert (Hvs : revolved_vertices (profile r h c taper_top flare_bottom)
                = ring_vertices (profile r h c taper_top flare_bottom)
                    ++ [(0, 0, 0.0); (0, 0, h)]).
  { unfold revolved_vertices. rewrite <- app_assoc.
    destruct taper_top, flare_bottom; reflexivity. }
  split_all.
  - exact Hlen.
  - exact Hcount.
  - exact Hvs.
  - intros i j z ri Hi Hj. rewrite Hvs.
    assert (Hlt : (i < List.length (profile r h c taper_top flare_bottom))%nat).
    { apply nth_error_Some. rewrite Hi. discriminate. }
    rewrite nth_error_app1 by (rewrite ring_vertices_length; unfold sections; lia).
    apply (ring_vertices_nth _ _ Hi). exact Hj.
  - rewrite Hcount. exact Hrange.
  - exact Hwater.
  - exact Hwind.
  - intros Hccw Hh Hc Hr.
    apply pin_faces_outward; [exact Hccw | exact Hh |].
    apply profile_solid; assumption.
Qed.

Lemma sample_counter_clockwise : counter_clockwise (TG := Sample.trig).
Proof.
  intros j Hj. unfold sections in Hj.
  do 32 (destruct j as [|j]; [vm_compute; reflexivity|]). lia.
Qed.

(** A pin of radius 2, height 10 and chamfer 0.4, the smallest the
    orchestrator builds: its 256 triangles wind outward. *)
Lemma C6_pin_mesh_witness :
  Forall (face_outward 10 (fst (chamfered_pin_arrays (TG := Sample.trig)
                                  2 10 0.4 true true)))
         (snd (chamfered_pin_arrays (TG := Sample.trig) 2 10 0.4 true true)).
Proof.
  refine (proj2 (proj2 (proj2 (proj2 (proj2 (proj2 (proj2
    (@C6_pin_mesh Sample.trig 2 10 0.4 true true)))))))
    sample_counter_clockwise _ _ _); vm_compute; reflexivity.
Defined.

(** C6 fails as stated.  With the chamfer as large as the radius (r = 2,
    c = 2, h = 10, both chamfers) the top ring has radius 0, its 32 samples
    coincide with the top center, and the triangles of the top fan have no
    area, hence no outward side.  With a larger chamfer (c = 2.5) the top
    ring has the radius -0.5 and triangles of the last band face the
    axis. *)
Lemma C6_counterexample :
  map snd (profile 2 10 2 true true) = [2 + 2; 2; 2; 2 - 2] /\
  ~ Forall (face_outward 10 (fst (chamfered_pin_arrays (TG := Sample.trig)
                                    2 10 2 true true)))
           (snd (chamfered_pin_arrays (TG := Sample.trig) 2 10 2 true true)) /\
  map snd (profile 2 10 2.5 true true) = [2 + 2.5; 2; 2; 2 - 2.5] /\
  ~ Forall (face_outward 10 (fst (chamfered_pin_arrays (TG := Sample.trig)
                                    2 10 2.5 true true)))
           (snd (chamfered_pin_arrays (TG := Sample.trig) 2 10 2.5 true true)).
Proof.
  split_all.
  - reflexivity.
  - intro H. apply faces_outwardb_true in H.
    vm_compute in H. discriminate H.
  - reflexivity.
  - intro H. apply faces_outwardb_true in H.
    vm_compute in H. discriminate H.
Qed.

(** ** The model run on the samples *)

(** A cap 50 x 5 has aspect ratio 10 and gets two pins, at a quarter and at
    three quarters of the centerline; a cap of aspect ratio 12 gets three,
    at 1/6, 1/2 and 5/6. *)
Example cap_50_by_5 :
  (exists r, aspect_ratio [50; 5; 50; 5] = Ok r /\ r == 10 /\ num_pins r = 2%nat) /\
  pin_fraction 0 2 == 1 # 4 /\ pin_fraction 1 2 == 3 # 4 /\
  Forall2 pt2_eq Sample.bar_centers_2d [(12.5, 2.5); (37.5, 2.5)].
Proof.
  split_all.
  - eexists. split; [apply aspect_ratio_eq|]. split; reflexivity.
  - reflexivity.
  - reflexivity.
  - vm_compute. repeat constructor.
Qed.

Example cap_60_by_5 :
  (exists r, aspect_ratio [60; 5; 60; 5] = Ok r /\ r == 12 /\ num_pins r = 3%nat) /\
  pin_fraction 0 3 == 1 # 6 /\ pin_fraction 1 3 == 1 # 2 /\
  pin_fraction 2 3 == 5 # 6.
Proof.
  split_all.
  - eexists. split; [apply aspect_ratio_eq|]. split; reflexivity.
  - reflexivity.
  - reflexivity.
  - reflexivity.
Qed.

(** The bar cut at its foot: the two centers back in 3D, the safe radius
    2.5, hence pins of radius 2 and height 10 in holes of radius 2.2 as a
    float. *)
Example bar_keys_dimensions :
  map (fun c : vec3 => let '(x, y, z) := c in (Qred x, Qred y, Qred z))
      (centers Sample.bar_cap)
  = [(25 # 2, 5 # 2, 0); (75 # 2, 5 # 2, 0)] /\
  max_radius Sample.bar_cap == 2.5 /\
  pin_radius (max_radius Sample.bar_cap) == 2 /\
  pin_height (pin_radius (max_radius Sample.bar_cap)) == 10 /\
  hole_radius (pin_radius (max_radius Sample.bar_cap)) == Double.round 2.2 /\
  List.length (fst Sample.bar_keys) = 2%nat /\
  List.length (snd Sample.bar_keys) = 2%nat.
Proof. split_all; vm_compute; reflexivity. Qed.

(** The bar turned across: the rectangle of its cap lists the short edge
    first, the centerline code reads the unbound [p3], and the analysis
    returns [None]: the halves come back without keys. *)
Example bar_across_gets_no_keys :
  plan_centers (SH := Sample.shapely) (0, 0, 5, 50)
    [0; 5; 5; 0; 0] [0; 0; 50; 50; 0] 2
  = Raise (UnboundLocalError "p3") /\
  _analyze_cap_surface (TM := Sample.trimesh) Sample.bar_across
    (0, 0, 0) (0, 0, 1) = None /\
  perform_split_and_key (TM := Sample.trimesh) (TG := Sample.trig)
    Sample.bar_across (0, 0, 0) (0, 0, 1)
  = Ok (Sample.bar_across, Sample.empty_mesh).
Proof. split_all; vm_compute; reflexivity. Qed.

(** The headless test: auto picks X, the longest extent of the box
    100 x 50 x 20. *)
Example headless_suggest_split :
  suggest_split (TM := Sample.trimesh) Sample.test_box None
  = suggest_split (TM := Sample.trimesh) Sample.test_box (Some 0%Z).
Proof. reflexivity. Qed.

(** * Further properties of the code *)

(** ** Lists and the exception monad *)

Lemma getitem_ok {A : Type} (l : list A) (i : nat) (a : A) :
  getitem l i = Ok a <-> nth_error l i = Some a.
Proof.
  unfold getitem. destruct (nth_error l i); split; intro H;
    try discriminate; injection H as <-; reflexivity.
Qed.

Lemma getitem_raise {A : Type} (l : list A) (i : nat) (e : exn) :
  getitem l i = Raise e -> e = IndexError /\ (List.length l <= i)%nat.
Proof.
  unfold getitem. destruct (nth_error l i) eqn:E; intro H; [discriminate|].
  injection H as <-. split; [reflexivity | now apply nth_error_None].
Qed.

Lemma getitem_in_range {A : Type} (l : list A) (i : nat) :
  (i < List.length l)%nat -> exists a, getitem l i = Ok a.
Proof.
  intro H. destruct (nth_error_lt l H) as [a Ha]. exists a.
  now apply getitem_ok.
Qed.

Lemma bind_raise {A B : Type} (m : result A) (k : A -> result B) (e : exn) :
  bind m k = Raise e -> m = Raise e \/ exists a, m = Ok a /\ k a = Raise e.
Proof.
  destruct m as [a|e']; cbn [bind]; intro H;
    [right; eauto | left; injection H as ->; reflexivity].
Qed.

Lemma mapM_nth {A B : Type} (f : A -> result B) (l : list A) :
  forall bs, mapM f l = Ok bs ->
  forall i a, nth_error l i = Some a ->
  exists b, nth_error bs i = Some b /\ f a = Ok b.
Proof.
  induction l as [|a0 l IH]; intros bs H i a Hi.
  - destruct i; discriminate Hi.
  - cbn [mapM] in H.
    apply bind_ok in H as (b0 & Hb0 & H).
    apply bind_ok in H as (bs' & Hbs' & H). injection H as <-.
    destruct i as [|i]; cbn [nth_error] in *.
    + injection Hi as <-. eauto.
    + eauto.
Qed.

Lemma mapM_raise {A B : Type} (f : A -> result B) (l : list A) (e : exn) :
  mapM f l = Raise e -> exists a, In a l /\ f a = Raise e.
Proof.
  induction l as [|a0 l IH]; cbn [mapM]; intro H; [discriminate|].
  apply bind_raise in H as [H | (b & Hb & H)].
  - exists a0. split; [now left | exact H].
  - apply bind_raise in H as [H | (bs & _ & H)]; [|discriminate].
    destruct (IH H) as (a & Ha & Hf). exists a. split; [now right | exact Hf].
Qed.

(** ** The cap faces: [np.where] of the face mask *)

Lemma np_where_spec (mask : list bool) :
  forall i k,
    In k (np_where i mask)
    <-> (i <= k)%nat /\ nth_error mask (k - i) = Some true.
Proof.
  induction mask as [|b mask IH]; intros i k; cbn [np_where].
  - split; [intros [] | intros [_ H]]. destruct (k - i)%nat; discriminate H.
  - assert (Hstep : In k (np_where (S i) mask)
                    <-> (i < k)%nat /\ nth_error mask (k - S i) = Some true).
    { rewrite IH. reflexivity. }
    destruct (Nat.eq_dec k i) as [->|Hne].
    + rewrite Nat.sub_diag. cbn [nth_error].
      destruct b; cbn [In]; rewrite ?Hstep; split; intro H.
      * split; [lia | reflexivity].
      * now left.
      * lia.
      * destruct H as [_ H]. discriminate H.
    + assert (Hk : (i <= k)%nat -> (k - i = S (k - S i))%nat) by lia.
      destruct b; cbn [In]; rewrite ?Hstep; split; intro H.
      * destruct H as [H | [H1 H2]]; [congruence|].
        split; [lia|]. rewrite Hk by lia. exact H2.
      * right. destruct H as [H1 H2]. rewrite Hk in H2 by lia. split; [lia | exact H2].
      * destruct H as [H1 H2]. split; [lia|]. rewrite Hk by lia. exact H2.
      * destruct H as [H1 H2]. rewrite Hk in H2 by lia. split; [lia | exact H2].
Qed.

Lemma np_where_sorted (mask : list bool) :
  forall i, StronglySorted lt (np_where i mask).
Proof.
  induction mask as [|b mask IH]; intro i; cbn [np_where].
  - constructor.
  - destruct b; [|apply IH].
    constructor; [apply IH|].
    apply Forall_forall. intros k Hk. apply np_where_spec in Hk. lia.
Qed.

Section CapFaces.
Context `{SH : Shapely} `{TM : @Trimesh SH}.

Lemma on_plane_mask_nth (m : mesh) (o n : vec3) (a : nat) :
  nth_error (on_plane_mask m o n) a = Some true <-> on_plane m o n a.
Proof.
  unfold on_plane_mask, on_plane. rewrite !map_map, nth_error_map.
  destruct (nth_error (vertices m) a) as [v|]; cbn [option_map]; split.
  - intro H. injection H as H. apply ltb_lt in H. eauto.
  - intros (v' & Hv & H). injection Hv as <-. f_equal. now apply ltb_lt.
  - discriminate.
  - intros (v' & Hv & _). discriminate.
Qed.

Lemma on_plane_mask_length (m : mesh) (o n : vec3) :
  List.length (on_plane_mask m o n) = List.length (vertices m).
Proof. unfold on_plane_mask. now rewrite !length_map. Qed.

Lemma face_mask_in_range (m : mesh) (o n : vec3) :
  faces_in_range (List.length (vertices m)) (faces m) = true ->
  exists mask, face_mask m o n = Ok mask.
Proof.
  unfold face_mask. generalize (on_plane_mask_length m o n).
  generalize (on_plane_mask m o n) as pm. intros pm Hlen.
  induction (faces m) as [|[[a b] c] fs IH]; cbn [faces_in_range forallb mapM].
  - eauto.
  - rewrite !andb_true_iff, !Nat.ltb_lt. intros [[[Ha Hb] Hc] Hfs].
    rewrite <- Hlen in Ha, Hb, Hc.
    destruct (getitem_in_range pm Ha) as [ma ->].
    destruct (getitem_in_range pm Hb) as [mb ->].
    destruct (getitem_in_range pm Hc) as [mc ->].
    destruct (IH Hfs) as [mask ->]. cbn [bind]. eauto.
Qed.

Lemma face_mask_ok_in_range (m : mesh) (o n : vec3) (mask : list bool) :
  face_mask m o n = Ok mask ->
  faces_in_range (List.length (vertices m)) (faces m) = true.
Proof.
  unfold face_mask. rewrite <- (on_plane_mask_length m o n).
  generalize (on_plane_mask m o n) as pm. intro pm. revert mask.
  induction (faces m) as [|[[a b] c] fs IH]; intros mask H;
    cbn [faces_in_range forallb mapM] in *; [reflexivity|].
  apply bind_ok in H as (b0 & Hb0 & H).
  apply bind_ok in H as (bs & Hbs & H).
  apply bind_ok in Hb0 as (ma & Hma & Hb0).
  apply bind_ok in Hb0 as (mb & Hmb & Hb0).
  apply bind_ok in Hb0 as (mc & Hmc & Hb0).
  apply getitem_ok in Hma, Hmb, Hmc.
  assert (Ha : (a < List.length pm)%nat)
    by (apply nth_error_Some; rewrite Hma; discriminate).
  assert (Hb : (b < List.length pm)%nat)
    by (apply nth_error_Some; rewrite Hmb; discriminate).
  assert (Hc : (c < List.length pm)%nat)
    by (apply nth_error_Some; rewrite Hmc; discriminate).
  apply Nat.ltb_lt in Ha, Hb, Hc. rewrite Ha, Hb, Hc. cbn [andb].
  exact (IH bs Hbs).
Qed.

Lemma face_mask_raise (m : mesh) (o n : vec3) (e : exn) :
  face_mask m o n = Raise e -> e = IndexError.
Proof.
  intro H.
  unfold face_mask in H. apply mapM_raise in H as ([[a b] c] & _ & H).
  apply bind_raise in H as [H | (ma & _ & H)];
    [now apply getitem_raise in H|].
  apply bind_raise in H as [H | (mb & _ & H)];
    [now apply getitem_raise in H|].
  apply bind_raise in H as [H | (mc & _ & H)];
    [now apply getitem_raise in H | discriminate].
Qed.

Lemma face_mask_nth (m : mesh) (o n : vec3) (mask : list bool) (i : nat) :
  face_mask m o n = Ok mask ->
  nth_error mask i = Some true <-> cap_face m o n i.
Proof.
  intro H. unfold cap_face. split.
  - intro Hi.
    assert (Hlt : (i < List.length (faces m))%nat).
    { unfold face_mask in H. apply mapM_length in H. rewrite <- H.
      apply nth_error_Some. rewrite Hi. discriminate. }
    destruct (nth_error_lt (faces m) Hlt) as [[[a b] c] Hf].
    destruct (mapM_nth _ _ H _ Hf) as (bb & Hb & Hbb).
    rewrite Hi in Hb. injection Hb as <-.
    apply bind_ok in Hbb as (ma & Hma & Hbb).
    apply bind_ok in Hbb as (mb & Hmb & Hbb).
    apply bind_ok in Hbb as (mc & Hmc & Hbb).
    injection Hbb as Hbb. apply andb_true_iff in Hbb as [Hbb ->].
    apply andb_true_iff in Hbb as [-> ->].
    apply getitem_ok in Hma, Hmb, Hmc.
    exists a, b, c. rewrite <- !on_plane_mask_nth. auto.
  - intros (a & b & c & Hf & Ha & Hb & Hc).
    destruct (mapM_nth _ _ H _ Hf) as (bb & Hb' & Hbb).
    apply on_plane_mask_nth in Ha, Hb, Hc.
    apply getitem_ok in Ha, Hb, Hc.
    rewrite Ha, Hb, Hc in Hbb. cbn in Hbb. injection Hbb as <-. exact Hb'.
Qed.

(** X1 ([_analyze_cap_surface], step 1).  On a mesh whose faces index
    existing vertices the selection returns, in increasing order, exactly
    the indices of the faces whose three vertices lie within 1e-4 of the
    plane.  On a mesh with a face that indexes a missing vertex the
    selection raises [IndexError], which the analysis turns into [None]. *)
Theorem cap_faces_indices_spec (m : mesh) (o n : vec3) :
  (faces_in_range (List.length (vertices m)) (faces m) = true ->
   exists idx,
     cap_faces_indices m o n = Ok idx /\
     StronglySorted lt idx /\
     forall i, In i idx <-> cap_face m o n i) /\
  (faces_in_range (List.length (vertices m)) (faces m) = false ->
   cap_faces_indices m o n = Raise IndexError /\
   _analyze_cap_surface m o n = None).
Proof.
  split; intro Hr.
  - destruct (face_mask_in_range m o n Hr) as [mask Hm].
    exists (np_where 0 mask). unfold cap_faces_indices. rewrite Hm. cbn [bind].
    split; [reflexivity|]. split; [apply np_where_sorted|].
    intro i. rewrite np_where_spec, Nat.sub_0_r, (@face_mask_nth m o n mask i Hm).
    split; [tauto | intro; split; [lia | assumption]].
  - assert (H : cap_faces_indices m o n = Raise IndexError).
    { unfold cap_faces_indices.
      destruct (face_mask m o n) as [mask|e] eqn:Hm.
      - apply face_mask_ok_in_range in Hm. congruence.
      - apply face_mask_raise in Hm as ->. reflexivity. }
    split; [exact H|].
    unfold _analyze_cap_surface, analyze_cap_surface_body. now rewrite H.
Qed.

End CapFaces.

(** ** The cap test and the direction of the normal *)

Lemma dot_vneg (v n : vec3) : dot v (vneg n) == - dot v n.
Proof.
  destruct v as [[vx vy] vz], n as [[nx ny] nz]. cbn [dot vneg]. ring.
Qed.

Lemma ltb_scaled_abs (k a e : Q) :
  ~ k == 0 -> (Qabs (k * a) <? e) = (Qabs a <? e / Qabs k).
Proof.
  intro Hk. rewrite Qabs_Qmult. apply ltb_scaled.
  apply Qabs_case; intro H0; apply Qle_lteq in H0 as [H0|H0].
  - exact H0.
  - exfalso. apply Hk. now symmetry.
  - lra.
  - exfalso. apply Hk. exact H0.
Qed.

(** X2 ([_analyze_cap_surface], step 1).  The cap test takes the absolute
    value of the distance along the normal: the normal of half A and the
    opposite normal of half B select the same vertices and the same faces,
    and a normal k * n with k <> 0 selects the vertices within
    1e-4 / |k| of the plane along n. *)
Theorem cap_selection_ignores_orientation (m : mesh) (o n : vec3) :
  on_plane_mask m o (vneg n) = on_plane_mask m o n /\
  cap_faces_indices m o (vneg n) = cap_faces_indices m o n /\
  forall k : Q, ~ k == 0 ->
    on_plane_mask m o (vscale k n) = vertices_within (1e-4 / Qabs k) m o n.
Proof.
  assert (H : on_plane_mask m o (vneg n) = on_plane_mask m o n).
  { unfold on_plane_mask. rewrite !map_map. apply map_ext. intro v.
    rewrite dot_vneg, Qabs_opp. reflexivity. }
  split_all.
  - exact H.
  - unfold cap_faces_indices, face_mask. rewrite H. reflexivity.
  - intros k Hk. unfold on_plane_mask, vertices_within. rewrite !map_map.
    apply map_ext. intro v. rewrite dot_vscale. now apply ltb_scaled_abs.
Qed.

(** ** The rectangle and the centers *)

Section Plan.
Context `{SH : Shapely} `{TM : @Trimesh SH} `{TG : TrigTable}.

(** X3 ([_analyze_cap_surface], step 5).  The edge lengths are read from
    the first five coordinates of the rectangle's ring: with five or more
    coordinates in both arrays the four lengths are the distances between
    consecutive corners; with fewer the list comprehension raises
    [IndexError]. *)
Theorem edge_lengths_closed_ring (x y : list Q) :
  ((5 <= List.length x)%nat /\ (5 <= List.length y)%nat ->
   edge_lengths x y
   = Ok (map (fun i => point_distance (nth i x 0, nth i y 0)
                                      (nth (i + 1) x 0, nth (i + 1) y 0))
             [0; 1; 2; 3]%nat)) /\
  ((List.length x < 5)%nat \/ (List.length y < 5)%nat ->
   edge_lengths x y = Raise IndexError).
Proof.
  split.
  - intros [Hx Hy].
    destruct x as [|x0 [|x1 [|x2 [|x3 [|x4 xs]]]]]; cbn [List.length] in Hx; try lia.
    destruct y as [|y0 [|y1 [|y2 [|y3 [|y4 ys]]]]]; cbn [List.length] in Hy; try lia.
    reflexivity.
  - intros H.
    destruct x as [|x0 [|x1 [|x2 [|x3 [|x4 xs]]]]];
      destruct y as [|y0 [|y1 [|y2 [|y3 [|y4 ys]]]]];
      cbn [List.length] in H; try lia; reflexivity.
Qed.

Lemma analyze_cap_surface_plan (m : mesh) (o n : vec3) (cap : cap_data) :
  _analyze_cap_surface m o n = Some cap ->
  exists to_3d main_poly x y es ar cs,
    minimum_rotated_rectangle_xy main_poly = Ok (x, y) /\
    edge_lengths x y = Ok es /\
    aspect_ratio es = Ok ar /\
    plan_centers main_poly x y (num_pins ar) = Ok cs /\
    cap_data_of to_3d main_poly cs = Ok cap.
Proof.
  unfold _analyze_cap_surface.
  destruct (analyze_cap_surface_body m o n) as [data|e] eqn:H; [|discriminate].
  intros ->. unfold analyze_cap_surface_body in H.
  repeat step H.
  injection H as <-.
  do 7 eexists. split_all; eassumption.
Qed.

Lemma num_pins_range (r : Q) : (1 <= num_pins r <= 3)%nat.
Proof. destruct (num_pins_values r) as [-> | [-> | ->]]; lia. Qed.

Lemma cap_data_of_centers (to_3d : mat4) (P : geometry) (cs : list pt2)
      (cap : cap_data) :
  cap_data_of to_3d P cs = Ok cap ->
  List.length (centers cap) = List.length cs.
Proof.
  intro H. destruct (cap_data_of_first _ _ _ H) as (c0 & rest & _ & _ & ->).
  apply length_map.
Qed.

(** X4 ([_analyze_cap_surface], steps 5-7, and the key loop).  When the
    analysis returns cap data it holds one, two or three centers, and the
    key loop builds exactly one pin and one cutter per center; with a
    single center [pins[0]] and [hole_cutters[0]] are those two meshes. *)
Theorem keys_counted (m : mesh) (o n : vec3) (cap : cap_data) :
  _analyze_cap_surface m o n = Some cap ->
  (1 <= List.length (centers cap) <= 3)%nat /\
  forall (rotation : mat4) (pr pd ph : Q) (pins cutters : list mesh),
    make_keys rotation pr pd ph (centers cap) [] [] = Ok (pins, cutters) ->
    List.length pins = List.length (centers cap) /\
    List.length cutters = List.length (centers cap) /\
    (List.length (centers cap) = 1%nat ->
     exists pin cutter,
       pins = [pin] /\ cutters = [cutter] /\
       combine pins = Ok pin /\ combine cutters = Ok cutter).
Proof.
  intro H.
  destruct (analyze_cap_surface_plan _ _ _ H)
    as (to_3d & P & x & y & es & ar & cs & _ & _ & _ & Hplan & Hcap).
  pose proof (num_pins_range ar) as Hn.
  pose proof (@plan_centers_count _ P x y (num_pins ar) cs ltac:(lia) Hplan) as Hcs.
  rewrite (cap_data_of_centers _ _ _ Hcap).
  split; [lia|].
  intros rotation pr pd ph pins cutters Hkeys.
  destruct (make_keys_spec _ _ _ _ _ _ _ Hkeys) as (ps & qs & -> & -> & Hps & Hqs).
  apply Forall2_length in Hps, Hqs. cbn [app].
  rewrite (cap_data_of_centers _ _ _ Hcap) in Hps, Hqs.
  split_all; try congruence.
  intro H1.
  destruct ps as [|pin [|? ?]]; cbn [List.length] in Hps; try lia.
  destruct qs as [|cutter [|? ?]]; cbn [List.length] in Hqs; try lia.
  exists pin, cutter. split_all; reflexivity.
Qed.

(** X5 ([_analyze_cap_surface], lines 313-331).  The centerline code binds
    [p3] only when the first edge of the rectangle is at least as long as
    the second.  So for a cap that gets more than one pin and whose
    rectangle lists a shorter edge first, the planner raises
    [UnboundLocalError]; and whenever the analysis returns two or more
    centers, the first edge of the rectangle was the long one. *)
Theorem several_keys_need_long_first_edge (m : mesh) (o n : vec3) :
  (forall (P : geometry) (x0 x1 x2 y0 y1 y2 : Q) (xs ys : list Q) (k : nat),
      k <> 1%nat ->
      point_distance (x0, y0) (x1, y1) < point_distance (x1, y1) (x2, y2) ->
      plan_centers P (x0 :: x1 :: x2 :: xs) (y0 :: y1 :: y2 :: ys) k
      = Raise (UnboundLocalError "p3")) /\
  (forall cap : cap_data,
      _analyze_cap_surface m o n = Some cap ->
      (2 <= List.length (centers cap))%nat ->
      exists (P : geometry) (x0 x1 x2 x3 y0 y1 y2 y3 : Q) (xs ys : list Q),
        minimum_rotated_rectangle_xy P
        = Ok (x0 :: x1 :: x2 :: x3 :: xs, y0 :: y1 :: y2 :: y3 :: ys) /\
        point_distance (x1, y1) (x2, y2) <= point_distance (x0, y0) (x1, y1)).
Proof.
  split.
  - intros. now apply plan_centers_second_edge_longer.
  - intros cap H Hlen.
    destruct (analyze_cap_surface_plan _ _ _ H)
      as (to_3d & P & x & y & es & ar & cs & Hrect & _ & _ & Hplan & Hcap).
    rewrite (cap_data_of_centers _ _ _ Hcap) in Hlen.
    assert (Hne : num_pins ar <> 1%nat).
    { intro E. rewrite E in Hplan.
      pose proof (@plan_centers_count _ P x y 1%nat cs ltac:(lia) Hplan). lia. }
    unfold plan_centers in Hplan.
    apply Nat.eqb_neq in Hne. rewrite Hne in Hplan.
    apply bind_ok in Hplan as (l & Hl & _).
    apply bind_ok in Hl as ([start end_] & Hline & _).
    unfold centerline in Hline.
    apply bind_ok in Hline as (x0 & Hx0 & Hline).
    apply bind_ok in Hline as (y0 & Hy0 & Hline).
    apply bind_ok in Hline as (x1 & Hx1 & Hline).
    apply bind_ok in Hline as (y1 & Hy1 & Hline).
    apply bind_ok in Hline as (x2 & Hx2 & Hline).
    apply bind_ok in Hline as (y2 & Hy2 & Hline).
    cbv zeta in Hline.
    destruct (point_distance (x0, y0) (x1, y1) >=? point_distance (x1, y1) (x2, y2))
      eqn:Hd; [|discriminate].
    apply bind_ok in Hline as (x3 & Hx3 & Hline).
    apply bind_ok in Hline as (y3 & Hy3 & _).
    apply getitem_ok in Hx0, Hx1, Hx2, Hx3, Hy0, Hy1, Hy2, Hy3.
    destruct x as [|? [|? [|? [|? xs]]]]; try discriminate.
    destruct y as [|? [|? [|? [|? ys]]]]; try discriminate.
    cbn in Hx0, Hx1, Hx2, Hx3, Hy0, Hy1, Hy2, Hy3.
    injection Hx0 as ->. injection Hx1 as ->. injection Hx2 as ->.
    injection Hx3 as ->. injection Hy0 as ->. injection Hy1 as ->.
    injection Hy2 as ->. injection Hy3 as ->.
    exists P, x0, x1, x2, x3, y0, y1, y2, y3, xs, ys.
    split; [exact Hrect | now apply geb_le].
Qed.

(** ** The boolean operations and their fallbacks *)

(** X6 ([perform_split_and_key], lines 197-228).  A failing boolean never
    aborts the keying.  The call fails only when the union has failed and
    the fallback concatenation of half A with the pins fails too; when that
    concatenation works the call returns.  Half A comes back as the union
    or as the concatenation; half B comes back as the difference or, when
    combining or subtracting the cutters failed, unchanged: pins without
    holes. *)
Theorem boolean_failures_fall_back (mesh_a mesh_b : mesh)
        (pins hole_cutters : list mesh) :
  (forall e,
      apply_boolean_operations mesh_a mesh_b pins hole_cutters = Raise e ->
      concatenate ([mesh_a] ++ pins) = Raise e) /\
  (forall a0,
      concatenate ([mesh_a] ++ pins) = Ok a0 ->
      exists a b,
        apply_boolean_operations mesh_a mesh_b pins hole_cutters = Ok (a, b)) /\
  (forall a b,
      apply_boolean_operations mesh_a mesh_b pins hole_cutters = Ok (a, b) ->
      (concatenate ([mesh_a] ++ pins) = Ok a \/
       exists all_pins r,
         combine pins = Ok all_pins /\
         boolean_union [mesh_a; all_pins] = Ok r /\ collapse_scene r = Ok a) /\
      (b = mesh_b \/
       exists all_cutters r,
         combine hole_cutters = Ok all_cutters /\
         boolean_difference [mesh_b; all_cutters] = Ok r /\
         collapse_scene r = Ok b)) /\
  (forall all_cutters e a b,
      combine hole_cutters = Ok all_cutters ->
      boolean_difference [mesh_b; all_cutters] = Raise e ->
      apply_boolean_operations mesh_a mesh_b pins hole_cutters = Ok (a, b) ->
      b = mesh_b).
Proof.
  unfold apply_boolean_operations.
  set (union := bind (combine pins) _).
  set (difference := bind (combine hole_cutters) _).
  assert (Hb : exists b, try_except difference (fun _ => Ok mesh_b) = Ok b).
  { destruct difference; cbn; eauto. }
  destruct Hb as [b0 Hb0].
  split_all.
  - intros e H. rewrite Hb0 in H.
    destruct union as [a|e']; cbn in H; [discriminate|].
    change ([mesh_a] ++ pins) with (mesh_a :: pins).
    destruct (concatenate (mesh_a :: pins)); cbn in H; [discriminate|].
    injection H as ->. reflexivity.
  - intros a0 H. rewrite Hb0.
    destruct union as [a|e']; cbn; [eauto|].
    cbn in H. rewrite H. cbn. eauto.
  - intros a b H.
    apply bind_ok in H as (a' & Ha & H).
    apply bind_ok in H as (b' & Hb & H).
    injection H as <- <-. split.
    + subst union. destruct (combine pins) as [all_pins|] eqn:Hc; cbn in Ha.
      * destruct (boolean_union [mesh_a; all_pins]) as [r|] eqn:Hu; cbn in Ha.
        -- destruct (collapse_scene r) eqn:Hr; cbn in Ha.
           ++ right. injection Ha as <-. eauto.
           ++ left. exact Ha.
        -- left. exact Ha.
      * left. exact Ha.
    + subst difference.
      destruct (combine hole_cutters) as [all_cutters|] eqn:Hc; cbn in Hb.
      * destruct (boolean_difference [mesh_b; all_cutters]) as [r|] eqn:Hu;
          cbn in Hb.
        -- destruct (collapse_scene r) eqn:Hr; cbn in Hb.
           ++ right. injection Hb as <-. eauto.
           ++ left. injection Hb as <-. reflexivity.
        -- left. injection Hb as <-. reflexivity.
      * left. injection Hb as <-. reflexivity.
  - intros all_cutters e a b Hc Hd H.
    apply bind_ok in H as (a' & Ha & H).
    apply bind_ok in H as (b' & Hb & H).
    injection H as <- <-.
    subst difference. rewrite Hc in Hb. cbn in Hb. rewrite Hd in Hb.
    cbn in Hb. injection Hb as <-. reflexivity.
Qed.

End Plan.

(** ** The number of pins *)

Section PinCount.
Context `{SH : Shapely} `{TM : @Trimesh SH}.

(** What the analysis has done when it returns cap data: the polygon of
    the cap, its rectangle, the edge lengths, the aspect ratio and the
    centers planned for it. *)
Lemma analyze_cap_surface_steps (m : mesh) (o n : vec3) (cap : cap_data) :
  _analyze_cap_surface m o n = Some cap ->
  exists (idx : list nat) (cap_mesh : mesh) (poly P0 P : geometry)
         (to_3d : mat4) (x y es : list Q) (r : Q) (cs : list pt2),
    cap_faces_indices m o n = Ok idx /\
    submesh m idx = Ok cap_mesh /\
    projected cap_mesh n o = Ok (Some poly) /\
    (if is_multipolygon poly then unary_union poly else Ok poly) = Ok P0 /\
    (if negb (is_valid P0) then buffer0 P0 else Ok P0) = Ok P /\
    minimum_rotated_rectangle_xy P = Ok (x, y) /\
    edge_lengths x y = Ok es /\
    aspect_ratio es = Ok r /\
    plan_centers P x y (num_pins r) = Ok cs /\
    cap_data_of to_3d P cs = Ok cap.
Proof.
  unfold _analyze_cap_surface.
  destruct (analyze_cap_surface_body m o n) as [data|e] eqn:H; [|discriminate].
  intros ->. unfold analyze_cap_surface_body in H.
  apply bind_ok in H as (idx & Hidx & H).
  destruct (List.length idx =? 0)%nat; [discriminate H|].
  apply bind_ok in H as (cap_mesh & Hsub & H).
  apply bind_ok in H as (T_rot & _ & H).
  apply bind_ok in H as (to_3d & _ & H).
  apply bind_ok in H as (cap_2d & _ & H).
  apply bind_ok in H as (moved & _ & H).
  apply bind_ok in H as ([poly|] & Hproj & H); [|discriminate H].
  destruct (is_empty poly); [discriminate H|].
  apply bind_ok in H as (P0 & HP0 & H).
  apply bind_ok in H as (P & HP & H).
  apply bind_ok in H as ([x y] & Hrect & H).
  apply bind_ok in H as (es & Hes & H).
  apply bind_ok in H as (r & Hr & H).
  apply bind_ok in H as (cs & Hcs & H).
  apply bind_ok in H as (data & Hdata & H).
  injection H as <-.
  exists idx, cap_mesh, poly, P0, P, to_3d, x, y, es, r, cs.
  split_all; assumption.
Qed.

(** A ring of five or more coordinates always yields its four edge
    lengths and an aspect ratio. *)
Lemma aspect_ratio_of_ring (x y : list Q) :
  (5 <= List.length x)%nat -> (5 <= List.length y)%nat ->
  exists e0 e1 e2 e3 r : Q,
    edge_lengths x y = Ok [e0; e1; e2; e3] /\
    [e0; e1; e2; e3]
    = map (fun i => point_distance (nth i x 0, nth i y 0)
                                   (nth (i + 1) x 0, nth (i + 1) y 0))
          [0; 1; 2; 3]%nat /\
    aspect_ratio [e0; e1; e2; e3] = Ok r /\
    r == Qmax (Qmax (Qmax e0 e1) e2) e3
         / Qmax (Qmin (Qmin (Qmin e0 e1) e2) e3) 0.1.
Proof.
  intros Hx Hy.
  destruct x as [|x0 [|x1 [|x2 [|x3 [|x4 xs]]]]]; cbn [List.length] in Hx; try lia.
  destruct y as [|y0 [|y1 [|y2 [|y3 [|y4 ys]]]]]; cbn [List.length] in Hy; try lia.
  do 5 eexists. split; [reflexivity|]. split; [reflexivity|].
  split; [apply aspect_ratio_eq|]. cbn [fold_left].
  match goal with
  | |- _ / (if ?W <? 0.1 then 0.1 else ?W) == _ =>
      pose proof (clamped_width W) as [_ Hw]
  end.
  cbv zeta in Hw. rewrite Hw. now rewrite !py_max_Qmax, !py_min_Qmin.
Qed.

Lemma edge_lengths_ring (x y es : list Q) :
  edge_lengths x y = Ok es ->
  (5 <= List.length x)%nat /\ (5 <= List.length y)%nat.
Proof.
  intro H.
  destruct x as [|x0 [|x1 [|x2 [|x3 [|x4 xs]]]]];
    destruct y as [|y0 [|y1 [|y2 [|y3 [|y4 ys]]]]];
    try discriminate H.
  cbn [List.length]. lia.
Qed.

(** C2, as the code has it.  From the ring of the minimum rotated
    rectangle the planner reads four edge lengths and computes the aspect
    ratio r = L / max(W, 0.1), L the longest and W the shortest of them;
    it plans n pins, n being 1, 2 or 3: 3 when r > 10, 2 when
    3 < r <= 10, 1 when r <= 3, a count that is monotone non-decreasing in
    r.  Whenever the cap analysis returns cap data, the rectangle is that
    of the polygon P of the cap (the projection of the cap faces, united
    and repaired), and the centers returned are at least one and at most
    n: a planned pin whose point lies outside P is dropped. *)
Theorem C2_pin_count (m : mesh) (o n : vec3) :
  (forall x y : list Q,
      (5 <= List.length x)%nat -> (5 <= List.length y)%nat ->
      exists e0 e1 e2 e3 r : Q,
        edge_lengths x y = Ok [e0; e1; e2; e3] /\
        [e0; e1; e2; e3]
        = map (fun i => point_distance (nth i x 0, nth i y 0)
                                       (nth (i + 1) x 0, nth (i + 1) y 0))
              [0; 1; 2; 3]%nat /\
        aspect_ratio [e0; e1; e2; e3] = Ok r /\
        r == Qmax (Qmax (Qmax e0 e1) e2) e3
             / Qmax (Qmin (Qmin (Qmin e0 e1) e2) e3) 0.1) /\
  (forall r : Q,
      (num_pins r = 1 \/ num_pins r = 2 \/ num_pins r = 3)%nat /\
      (10 < r -> num_pins r = 3%nat) /\
      (3 < r /\ r <= 10 -> num_pins r = 2%nat) /\
      (r <= 3 -> num_pins r = 1%nat)) /\
  (forall a b : Q, a <= b -> (num_pins a <= num_pins b)%nat) /\
  (forall cap : cap_data,
      _analyze_cap_surface m o n = Some cap ->
      exists (idx : list nat) (cap_mesh : mesh) (poly P0 P : geometry)
             (x y es : list Q) (r : Q) (cs : list pt2),
        cap_faces_indices m o n = Ok idx /\
        submesh m idx = Ok cap_mesh /\
        projected cap_mesh n o = Ok (Some poly) /\
        (if is_multipolygon poly then unary_union poly else Ok poly) = Ok P0 /\
        (if negb (is_valid P0) then buffer0 P0 else Ok P0) = Ok P /\
        minimum_rotated_rectangle_xy P = Ok (x, y) /\
        (5 <= List.length x)%nat /\ (5 <= List.length y)%nat /\
        edge_lengths x y = Ok es /\
        aspect_ratio es = Ok r /\
        plan_centers P x y (num_pins r) = Ok cs /\
        (1 <= List.length cs <= num_pins r)%nat /\
        List.length (centers cap) = List.length cs).
Proof.
  split_all.
  - apply aspect_ratio_of_ring.
  - intro r. split; [apply num_pins_values | apply num_pins_cases].
  - apply num_pins_monotone.
  - intros cap H.
    destruct (analyze_cap_surface_steps _ _ _ H)
      as (idx & cap_mesh & poly & P0 & P & to_3d & x & y & es & r & cs
          & Hidx & Hsub & Hproj & HP0 & HP & Hrect & Hes & Hr & Hcs & Hcap).
    exists idx, cap_mesh, poly, P0, P, x, y, es, r, cs.
    destruct (edge_lengths_ring _ _ Hes) as [Hx Hy].
    assert (Hcount : (1 <= List.length cs <= num_pins r)%nat).
    { apply (@plan_centers_count _ P x y); [|exact Hcs].
      destruct (num_pins_values r) as [-> | [-> | ->]]; lia. }
    split_all; try assumption; try apply Hcount.
    destruct (cap_data_of_first _ _ _ Hcap) as (c0 & rest & _ & _ & ->).
    apply length_map.
Qed.

End PinCount.

(** The bar cut at z = 0: its cap is the rectangle 50 x 5, of aspect ratio
    10, for which two pins are planned; both are placed. *)
Lemma C2_pin_count_witness :
  exists (r : Q) (cs : list pt2),
    aspect_ratio [50; 5; 50; 5] = Ok r /\
    plan_centers (SH := Sample.shapely) (0, 0, 50, 5)
      [0; 50; 50; 0; 0] [0; 0; 5; 5; 0] (num_pins r) = Ok cs /\
    (1 <= List.length cs <= num_pins r)%nat /\
    List.length (centers Sample.bar_cap) = List.length cs.
Proof.
  destruct (proj2 (proj2 (proj2
              (@C2_pin_count Sample.shapely Sample.trimesh
                 Sample.bar (0, 0, 0) (0, 0, 1))))
              Sample.bar_cap ltac:(vm_compute; reflexivity))
    as (idx & cap_mesh & poly & P0 & P & x & y & es & r & cs
        & Hidx & Hsub & Hproj & HP0 & HP & Hrect & _ & _ & Hes & Hr
        & Hcs & Hcount & Hlen).
  vm_compute in Hidx. injection Hidx as <-.
  vm_compute in Hsub. injection Hsub as <-.
  vm_compute in Hproj. injection Hproj as <-.
  cbn in HP0. injection HP0 as <-.
  cbn in HP. injection HP as <-.
  vm_compute in Hrect. injection Hrect as <- <-.
  vm_compute in Hes. injection Hes as <-.
  exists r, cs.
  split_all; try assumption; apply Hcount.
Defined.

(** C2 fails as stated.  A cap 5 x 60 with a notch 4 x 4 in the middle of
    one long side: the rectangle is 5 x 60 and lists a long edge first,
    the aspect ratio is 12 and three pins are planned, at 10, 30 and 50
    along the centerline.  The middle one falls into the notch and is
    dropped: the planner returns two centers, not three. *)
Lemma C2_counterexample :
  minimum_rotated_rectangle_xy (Shapely := Outline.shapely) Outline.notched_bar
  = Ok ([5; 5; 0; 0; 5], [0; 60; 60; 0; 0]) /\
  edge_lengths (SH := Outline.shapely) [5; 5; 0; 0; 5] [0; 60; 60; 0; 0]
  = Ok [60; 5; 60; 5] /\
  (exists r, aspect_ratio [60; 5; 60; 5] = Ok r /\ r == 12 /\ num_pins r = 3%nat) /\
  centerline (SH := Outline.shapely) [5; 5; 0; 0; 5] [0; 60; 60; 0; 0]
  = Ok ((5 / 2, 0 / 2), (5 / 2, 120 / 2)) /\
  Forall2 (fun i c =>
             exists pt,
               line_interpolate (Shapely := Outline.shapely)
                 (5 / 2, 0 / 2) (5 / 2, 120 / 2) (pin_fraction i 3) = Ok pt /\
               pt2_eq pt (fst c) /\
               contains (Shapely := Outline.shapely) Outline.notched_bar pt
               = snd c)
          [0; 1; 2]%nat
          [((2.5, 10), true); ((2.5, 30), false); ((2.5, 50), true)] /\
  (exists c1 c2,
      plan_centers (SH := Outline.shapely) Outline.notched_bar
        [5; 5; 0; 0; 5] [0; 60; 60; 0; 0] 3 = Ok [c1; c2] /\
      pt2_eq c1 (2.5, 10) /\ pt2_eq c2 (2.5, 50)).
Proof.
  split_all.
  - vm_compute. reflexivity.
  - vm_compute. reflexivity.
  - eexists. split; [apply aspect_ratio_eq|]. split; reflexivity.
  - vm_compute. reflexivity.
  - repeat constructor; eexists; (split; [reflexivity|]);
      split; vm_compute; try split; reflexivity.
  - do 2 eexists. split; [vm_compute; reflexivity|]. split; split; reflexivity.
Qed.

(** ** [POST /perform_split]: orientation and the build plate *)

Section Floor.
Context `{SH : Shapely} `{TM : @Trimesh SH} `{TG : TrigTable}.

Lemma try_except_keep {A : Type} (body : result A) (a a' : A) :
  try_except body (fun _ => Ok a) = Ok a' ->
  body = Ok a' \/ (exists e, body = Raise e) /\ a' = a.
Proof.
  destruct body as [x|e]; cbn; intro H; injection H as <-; eauto.
Qed.

Lemma try_except_never_raises {A : Type} (body : result A) (a : A) :
  exists a', try_except body (fun _ => Ok a) = Ok a'.
Proof. destruct body; cbn; eauto. Qed.

Lemma move_to_floor_raise (part : mesh) (e : exn) :
  move_to_floor part = Raise e ->
  exists t, apply_translation part t = Raise e.
Proof.
  unfold move_to_floor. destruct (bounds part) as [[[[x y] z] hi]|];
    cbn [fst]; intro H; [eauto | discriminate].
Qed.

(** X7 ([perform_split] of [main.py], lines 111-139).  Laying the parts
    flat is optional: the request fails only when the split itself fails or
    a translation to the build plate fails, never because [align_vectors]
    or [apply_transform] raised; a part whose alignment raised is moved to
    the plate as the split returned it. *)
Theorem alignment_is_optional (self_mesh : mesh) (origin normal : vec3)
        (addKeys : bool) :
  let split :=
    if addKeys then perform_split_and_key self_mesh origin normal
    else
      part_a <- slice_mesh_plane self_mesh origin normal ;;
      part_b <- slice_mesh_plane self_mesh origin (vneg normal) ;;
      Ok (part_a, part_b) in
  (forall e,
      perform_split self_mesh origin normal addKeys = Raise e ->
      split = Raise e \/ exists part t, apply_translation part t = Raise e) /\
  (forall part_a part_b a b,
      split = Ok (part_a, part_b) ->
      perform_split self_mesh origin normal addKeys = Ok (a, b) ->
      (forall e, align_vectors (vneg normal) (0, 0, - (1)) = Raise e ->
                 move_to_floor part_a = Ok a) /\
      (forall e, align_vectors normal (0, 0, - (1)) = Raise e ->
                 move_to_floor part_b = Ok b)).
Proof.
  intro split. unfold perform_split. fold split.
  split.
  - intros e H.
    apply bind_raise in H as [H | ([pa pb] & _ & H)]; [now left | right].
    cbv zeta in H.
    destruct (try_except_never_raises
                (T_a <- align_vectors (vneg normal) (0, 0, - (1)) ;;
                 apply_transform pa T_a) pa) as [pa' Ea].
    destruct (try_except_never_raises
                (T_b <- align_vectors normal (0, 0, - (1)) ;;
                 apply_transform pb T_b) pb) as [pb' Eb].
    rewrite Ea in H. cbn [bind] in H. rewrite Eb in H. cbn [bind] in H.
    apply bind_raise in H as [H | (a & _ & H)].
    + apply move_to_floor_raise in H as [t H]. eauto.
    + apply bind_raise in H as [H | (b & _ & H)]; [|discriminate].
      apply move_to_floor_raise in H as [t H]. eauto.
  - intros pa pb a b Hs H. rewrite Hs in H. cbn [bind] in H. cbv zeta in H.
    apply bind_ok in H as (pa' & Ea & H).
    apply bind_ok in H as (pb' & Eb & H).
    apply bind_ok in H as (a' & Ha & H).
    apply bind_ok in H as (b' & Hb & H).
    injection H as <- <-.
    split; intros e He.
    + rewrite He in Ea. cbn in Ea. injection Ea as <-. exact Ha.
    + rewrite He in Eb. cbn in Eb. injection Eb as <-. exact Hb.
Qed.

Lemma move_to_floor_rests (part part' : mesh) :
  (forall (t : vec3) (lo hi : vec3),
      apply_translation part t = Ok part' ->
      bounds part = Some (lo, hi) ->
      exists lo' hi',
        bounds part' = Some (lo', hi') /\
        coord lo' 2 == coord lo 2 + coord t 2) ->
  move_to_floor part = Ok part' ->
  rests_on_floor part'.
Proof.
  intros Hlaw H. unfold move_to_floor in H. unfold rests_on_floor.
  destruct (bounds part) as [[[[x y] z] hi]|] eqn:Hb; cbn [fst] in H.
  - destruct (Hlaw _ _ _ H eq_refl) as (lo' & hi' & -> & Hz).
    rewrite Hz. cbn [coord]. ring.
  - injection H as <-. now rewrite Hb.
Qed.

(** X8 ([perform_split] of [main.py], lines 135-139).  Provided a
    translation moves the bounding box with the mesh, both parts of a
    successful split rest on the build plate: the lower corner of each
    bounding box is at height 0 (an empty part has no bounds and is left
    alone). *)
Theorem parts_rest_on_floor (self_mesh : mesh) (origin normal : vec3)
        (addKeys : bool) (a b : mesh) :
  (forall (part part' : mesh) (t lo hi : vec3),
      apply_translation part t = Ok part' ->
      bounds part = Some (lo, hi) ->
      exists lo' hi',
        bounds part' = Some (lo', hi') /\
        coord lo' 2 == coord lo 2 + coord t 2) ->
  perform_split self_mesh origin normal addKeys = Ok (a, b) ->
  rests_on_floor a /\ rests_on_floor b.
Proof.
  intros Hlaw H. unfold perform_split in H.
  apply bind_ok in H as ([pa pb] & _ & H). cbv zeta in H.
  apply bind_ok in H as (pa' & _ & H).
  apply bind_ok in H as (pb' & _ & H).
  apply bind_ok in H as (a' & Ha & H).
  apply bind_ok in H as (b' & Hb & H).
  injection H as <- <-.
  split; eapply move_to_floor_rests; eauto.
Qed.

End Floor.

Lemma sample_fold_vmin_shift (t : vec3) (vs : list vec3) :
  forall acc acc' : vec3,
    coord acc' 2 == coord acc 2 + coord t 2 ->
    coord (fold_left Sample.vmin (map (fun v => vadd v t) vs) acc') 2
    == coord (fold_left Sample.vmin vs acc) 2 + coord t 2.
Proof.
  induction vs as [|v vs IH]; intros acc acc' H; cbn [map fold_left].
  - exact H.
  - apply IH.
    destruct acc as [[ax ay] az], acc' as [[ax' ay'] az'],
             v as [[vx vy] vz], t as [[tx ty] tz].
    cbn [coord vadd Sample.vmin] in *.
    rewrite H. apply Q.plus_min_distr_r.
Qed.

Lemma sample_translation_moves_bounds (part part' : mesh) (t lo hi : vec3) :
  apply_translation (Trimesh := Sample.trimesh) part t = Ok part' ->
  bounds (Trimesh := Sample.trimesh) part = Some (lo, hi) ->
  exists lo' hi',
    bounds (Trimesh := Sample.trimesh) part' = Some (lo', hi') /\
    coord lo' 2 == coord lo 2 + coord t 2.
Proof.
  cbn. intros H Hb. injection H as <-.
  unfold Sample.mesh_bounds, Sample.translate in *. cbn [vertices] in *.
  destruct (vertices part) as [|v vs]; [discriminate|].
  injection Hb as <- <-. cbn [map].
  eexists. eexists. split; [reflexivity|].
  apply sample_fold_vmin_shift.
  destruct v as [[vx vy] vz], t as [[tx ty] tz]. reflexivity.
Qed.

(** The box of the headless test, split below its foot without keys: the
    half that holds the box is lifted from z = -10 onto the plate. *)
Lemma parts_rest_on_floor_witness :
  rests_on_floor (TM := Sample.trimesh)
    (Sample.translate Sample.test_box (0, 0, 10)) /\
  rests_on_floor (TM := Sample.trimesh) Sample.empty_mesh.
Proof.
  refine (@parts_rest_on_floor Sample.shapely Sample.trimesh Sample.trig
            Sample.test_box (0, 0, - (20)) (0, 0, 1) false _ _
            sample_translation_moves_bounds _).
  vm_compute. reflexivity.
Defined.

(** ** The triangulated section *)

Section SectionTriangles.
Context `{SH : Shapely} `{TP : @TrimeshPath SH}.

Lemma triangulate_polygons_acc (polys : list geometry) :
  forall (v0 : list (list pt2)) (f0 : list (list face)) (offset : nat)
         (v : list (list pt2)) (f : list (list face)),
    triangulate_polygons polys v0 f0 offset = Ok (v, f) ->
    exists tris,
      mapM triangulate_polygon polys = Ok tris /\
      v = v0 ++ map fst (flat_map triangulated tris) /\
      f = f0 ++ rebased offset (flat_map triangulated tris).
Proof.
  induction polys as [|poly polys IH]; intros v0 f0 offset v f H;
    cbn [triangulate_polygons mapM] in *.
  - injection H as <- <-. exists []. cbn. now rewrite !app_nil_r.
  - apply bind_ok in H as (tri & Htri & H). rewrite Htri. cbn [bind].
    destruct tri as [|tv tf|tv tf|];
      destruct (IH _ _ _ _ _ H) as (tris & -> & -> & ->);
      eexists; (split; [reflexivity|]);
      cbn [flat_map triangulated app map fst rebased];
      rewrite <- ?app_assoc; split; reflexivity.
Qed.

End SectionTriangles.

Lemma triangle_of_rebased {A : Type} (pre tv post : list A) (tf : list face) :
  faces_in_range (List.length tv) tf = true ->
  map (triangle_of (pre ++ tv ++ post)) (map (face_add (List.length pre)) tf)
  = map (triangle_of tv) tf.
Proof.
  intro H. rewrite map_map. apply map_ext_in. intros [[a b] c] Hin.
  unfold faces_in_range in H. rewrite forallb_forall in H.
  specialize (H _ Hin). cbn beta iota in H.
  rewrite !andb_true_iff, !Nat.ltb_lt in H. destruct H as [[Ha Hb] Hc].
  assert (Hn : forall k, (k < List.length tv)%nat ->
                 nth_error (pre ++ tv ++ post) (k + List.length pre)
                 = nth_error tv k).
  { intros k Hk. rewrite nth_error_app2 by lia.
    replace (k + List.length pre - List.length pre)%nat with k by lia.
    now rewrite nth_error_app1. }
  cbn [face_add triangle_of]. now rewrite !Hn.
Qed.

Lemma rebased_in_range (parts : list (list pt2 * list face)) :
  forall pre : list pt2,
    Forall (fun part => faces_in_range (List.length (fst part)) (snd part) = true)
           parts ->
    faces_in_range (List.length (pre ++ List.concat (map fst parts)))
                   (List.concat (rebased (List.length pre) parts)) = true /\
    map (triangle_of (pre ++ List.concat (map fst parts)))
        (List.concat (rebased (List.length pre) parts))
    = flat_map (fun part => map (triangle_of (fst part)) (snd part)) parts.
Proof.
  induction parts as [|[tv tf] parts IH]; intros pre H.
  - split; reflexivity.
  - inversion H as [|? ? Hhd Htl]; subst. cbn [fst snd] in Hhd.
    cbn [map fst List.concat rebased flat_map snd].
    specialize (IH (pre ++ tv) Htl).
    rewrite <- app_assoc, (length_app pre tv) in IH. destruct IH as [IHr IHt].
    split.
    + unfold faces_in_range in *. rewrite forallb_app. apply andb_true_iff.
      split; [|exact IHr].
      apply forallb_forall. intros f Hf. apply in_map_iff in Hf as ([[a b] c] & <- & Hf).
      rewrite forallb_forall in Hhd. specialize (Hhd _ Hf). cbn beta iota in Hhd.
      rewrite !andb_true_iff, !Nat.ltb_lt in Hhd.
      cbn [face_add]. rewrite !length_app.
      rewrite !andb_true_iff, !Nat.ltb_lt. lia.
    + rewrite map_app. f_equal; [|exact IHt].
      now apply triangle_of_rebased.
Qed.

(** X9 ([suggest_split], lines 66-85).  The loop that gathers the
    triangulated polygons of the section keeps every triangle on its own
    points: the vertex arrays are those of the polygons that gave a
    triangulation, in order, and each face array is moved by the number of
    vertices gathered before it.  When every triangulation indexes its own
    vertices, the stacked faces index the stacked vertices and denote the
    same triangles as before stacking. *)
Theorem section_triangles_rebased `{SH : Shapely} `{TP : @TrimeshPath SH}
        (polys : list geometry) (v : list (list pt2)) (f : list (list face)) :
  triangulate_polygons polys [] [] 0 = Ok (v, f) ->
  exists tris,
    mapM triangulate_polygon polys = Ok tris /\
    let parts := flat_map triangulated tris in
    v = map fst parts /\
    f = rebased 0 parts /\
    (Forall (fun part =>
               faces_in_range (List.length (fst part)) (snd part) = true) parts ->
     faces_in_range (List.length (List.concat v)) (List.concat f) = true /\
     map (triangle_of (List.concat v)) (List.concat f)
     = flat_map (fun part => map (triangle_of (fst part)) (snd part)) parts).
Proof.
  intro H.
  destruct (triangulate_polygons_acc _ _ _ _ H) as (tris & Htris & -> & ->).
  exists tris. split; [exact Htris|]. cbv zeta. cbn [app].
  split_all; try reflexivity.
  intro Hr. exact (rebased_in_range (@nil pt2) Hr).
Qed.

(** Two rectangles of a section: eight vertices, and the faces of the
    second rectangle moved past the four vertices of the first. *)
Lemma section_triangles_rebased_witness :
  let v := [(0, 0); (2, 0); (2, 1); (0, 1); (5, 0); (7, 0); (7, 1); (5, 1)] in
  let f := [(0, 1, 2); (0, 2, 3); (4, 5, 6); (4, 6, 7)]%nat in
  triangulate_polygons (TP := SampleHost.path) [(0, 0, 2, 1); (5, 0, 7, 1)]
    [] [] 0
  = Ok ([ [(0, 0); (2, 0); (2, 1); (0, 1)]; [(5, 0); (7, 0); (7, 1); (5, 1)] ],
        [ [(0, 1, 2); (0, 2, 3)]; [(4, 5, 6); (4, 6, 7)] ]%nat) /\
  faces_in_range 8 f = true /\
  map (triangle_of v) f
  = [ Some ((0, 0), (2, 0), (2, 1)); Some ((0, 0), (2, 1), (0, 1));
      Some ((5, 0), (7, 0), (7, 1)); Some ((5, 0), (7, 1), (5, 1)) ].
Proof.
  cbv zeta. split; [reflexivity|].
  destruct (@section_triangles_rebased Sample.shapely SampleHost.path
              [(0, 0, 2, 1); (5, 0, 7, 1)] _ _ eq_refl)
    as (tris & Htris & _ & _ & H).
  cbn in Htris. injection Htris as <-.
  apply H. repeat constructor.
Defined.

(** ** The shape of a pin *)

Lemma third (h : Q) : h / 3.0 == h * (1 # 3).
Proof. field. Qed.

Lemma fitted_chamfer_bounds (h c : Q) (taper_top flare_bottom : bool) :
  0 < h -> 0 <= c -> taper_top || flare_bottom = true ->
  0 <= fitted_chamfer h c taper_top flare_bottom <= h.
Proof.
  intros Hh Hc Hf. unfold fitted_chamfer.
  pose proof (needed_height_flags c taper_top flare_bottom) as Hn.
  destruct (needed_height c taper_top flare_bottom >=? h) eqn:E.
  - rewrite third. lra.
  - apply geb_lt in E. rewrite Hn in E.
    destruct taper_top, flare_bottom; cbn [flag orb] in *;
      try discriminate; lra.
Qed.

Lemma profile_heights (r h c : Q) (taper_top flare_bottom : bool) :
  0 < h -> 0 <= c ->
  Forall (fun a : Q * Q => 0 <= fst a <= h)
         (profile r h c taper_top flare_bottom).
Proof.
  intros Hh Hc.
  pose proof (@fitted_chamfer_bounds h c taper_top flare_bottom Hh Hc) as Hb.
  unfold profile.
  set (c' := fitted_chamfer h c taper_top flare_bottom) in *.
  destruct taper_top, flare_bottom; cbn [app orb] in *;
    repeat constructor; cbn [fst];
    try specialize (Hb eq_refl); lra.
Qed.

Section PinShape.
Context `{TG : TrigTable}.

Lemma ring_vertices_height (p : list (Q * Q)) (v : vec3) :
  In v (ring_vertices p) -> exists a, In a p /\ coord v 2 = fst a.
Proof.
  unfold ring_vertices. intro H. apply in_flat_map in H as ([z r] & Hp & H).
  unfold ring_v in H. apply in_map_iff in H as (j & <- & _).
  exists (z, r). split; [exact Hp | reflexivity].
Qed.

(** X10 ([_create_chamfered_pin]).  For a positive height and a chamfer
    that is not negative, whatever the radius and the flags, the pin spans
    exactly its height: every vertex lies between the planes z = 0 and
    z = h, and the two cap centers (0, 0, 0) and (0, 0, h) are vertices. *)
Theorem pin_spans_its_height (r h c : Q) (taper_top flare_bottom : bool) :
  0 < h -> 0 <= c ->
  let vs := fst (chamfered_pin_arrays r h c taper_top flare_bottom) in
  Forall (fun v : vec3 => 0 <= coord v 2 <= h) vs /\
  In (0, 0, 0.0) vs /\ In (0, 0, h) vs.
Proof.
  intros Hh Hc vs. subst vs.
  rewrite chamfered_pin_arrays_eq. cbn [fst].
  assert (Hvs : revolved_vertices (profile r h c taper_top flare_bottom)
                = ring_vertices (profile r h c taper_top flare_bottom)
                    ++ [(0, 0, 0.0); (0, 0, h)]).
  { unfold revolved_vertices. rewrite <- app_assoc.
    destruct taper_top, flare_bottom; reflexivity. }
  rewrite Hvs. split_all.
  - apply Forall_app. split.
    + apply Forall_forall. intros v Hv.
      apply ring_vertices_height in Hv as (a & Ha & ->).
      pose proof (@profile_heights r h c taper_top flare_bottom Hh Hc) as Hp.
      rewrite Forall_forall in Hp. exact (Hp a Ha).
    + repeat constructor; cbn [coord]; lra.
  - apply in_or_app. right. now left.
  - apply in_or_app. right. right. now left.
Qed.

(** X11 ([_create_chamfered_pin], lines 420-465).  Whatever the
    parameters, the pin has 64 triangles per ring (two per quad of each
    band and 32 in each fan), and with its 32 * num_rings + 2 vertices and
    three edges per two triangles its Euler characteristic V - E + F is 2:
    the surface of a ball, without tunnel. *)
Theorem pin_triangle_count (r h c : Q) (taper_top flare_bottom : bool) :
  let vs := fst (chamfered_pin_arrays r h c taper_top flare_bottom) in
  let fs := snd (chamfered_pin_arrays r h c taper_top flare_bottom) in
  let num_rings := List.length (profile r h c taper_top flare_bottom) in
  let V := List.length vs in
  let F := List.length fs in
  let E := (List.length (all_edges fs) / 2)%nat in
  F = (64 * num_rings)%nat /\
  List.length (all_edges fs) = (3 * F)%nat /\
  (V + F = E + 2)%nat.
Proof.
  cbv zeta.
  rewrite pin_vertex_count, chamfered_pin_arrays_eq, profile_length.
  cbn [snd].
  destruct taper_top, flare_bottom; vm_compute; repeat split; reflexivity.
Qed.

End PinShape.

(** *** The pin in its hole *)

Lemma slope_minus_one (z0 r0 z1 r1 z : Q) :
  r1 - r0 == - (z1 - z0) -> ~ z1 - z0 == 0 ->
  r0 + (r1 - r0) * ((z - z0) / (z1 - z0)) == r0 - (z - z0).
Proof. intros H Hz. rewrite H. field. exact Hz. Qed.

Lemma slope_zero (z0 r0 z1 r1 z : Q) :
  r1 == r0 -> r0 + (r1 - r0) * ((z - z0) / (z1 - z0)) == r0.
Proof. intro H. rewrite H. ring. Qed.

(** X12 ([perform_split_and_key], lines 149-192, with
    [_create_chamfered_pin]).  Whatever the safe radius, the hole cutter
    is wider than the pin at every height of the pin: read along their
    profiles, the radius of the cutter exceeds the radius of the pin by at
    least the difference of the hole radius and the pin radius, the radial
    clearance of the fit, which is 0.2 up to the rounding of the hole
    radius: at least 0.2 - 2^-48. *)
Theorem pin_clears_hole (max_radius z : Q) :
  let pr := pin_radius max_radius in
  let ph := pin_height pr in
  let hr := hole_radius pr in
  0 <= z <= ph ->
  radius_at (profile pr ph (0.1 * (2 * pr)) true true) z + (hr - pr)
  <= radius_at (profile hr (hole_height ph) (0.1 * (2 * hr)) false true) z /\
  0.2 - (1 # 2 ^ 48) <= hr - pr.
Proof.
  intros pr ph hr Hz.
  pose proof (pin_radius_range max_radius) as Hpr. fold pr in Hpr.
  pose proof (pin_height_range pr) as Hph. fold ph in Hph.
  pose proof (hole_radius_bounds max_radius) as Hhr.
  cbv zeta in Hhr. fold pr in Hhr. fold hr in Hhr.
  assert (Heps : (1 # 2 ^ 48) <= 0.1) by (vm_compute; discriminate).
  split; [|lra].
  assert (Hpin : fitted_chamfer ph (0.1 * (2 * pr)) true true = 0.1 * (2 * pr)).
  { apply fitted_chamfer_cases. unfold flag. lra. }
  assert (Hcut : fitted_chamfer ph (0.1 * (2 * hr)) false true = 0.1 * (2 * hr)).
  { apply fitted_chamfer_cases. unfold flag. lra. }
  unfold profile, hole_height. rewrite Hpin, Hcut. cbn [app].
  set (cp := 0.1 * (2 * pr)). set (ch := 0.1 * (2 * hr)).
  assert (Hcp : cp == 0.2 * pr) by (unfold cp; ring).
  assert (Hch : ch == 0.2 * hr) by (unfold ch; ring).
  cbn [radius_at].
  assert (S1 : pr + cp + (pr - (pr + cp)) * ((z - 0.0) / (cp - 0.0))
               == pr + cp - (z - 0.0)) by (apply slope_minus_one; lra).
  assert (S2 : pr + (pr - pr) * ((z - cp) / (ph - cp - cp)) == pr)
    by (apply slope_zero; reflexivity).
  assert (S3 : pr + (pr - cp - pr) * ((z - (ph - cp)) / (ph - (ph - cp)))
               == pr - (z - (ph - cp))) by (apply slope_minus_one; lra).
  assert (S4 : hr + ch + (hr - (hr + ch)) * ((z - 0.0) / (ch - 0.0))
               == hr + ch - (z - 0.0)) by (apply slope_minus_one; lra).
  assert (S5 : hr + (hr - hr) * ((z - ch) / (ph - ch)) == hr)
    by (apply slope_zero; reflexivity).
  destruct Hz as [Hz0 Hz1].
  destruct (Qle_bool z cp) eqn:E1; destruct (Qle_bool z ch) eqn:E2;
    destruct (Qle_bool z (ph - cp)) eqn:E3; destruct (Qle_bool z ph) eqn:E4;
    repeat match goal with
           | H : Qle_bool _ _ = true |- _ => apply Qle_bool_iff in H
           | H : Qle_bool ?a ?b = false |- _ =>
               assert (~ a <= b) by (rewrite <- Qle_bool_iff; congruence);
               clear H
           end;
    rewrite ?S1, ?S2, ?S3, ?S4, ?S5; lra.
Qed.

(** A safe radius of 5 gives a pin of radius 3 and height 10: at height 1
    the cutter is wider than the pin by the clearance of the fit. *)
Lemma pin_clears_hole_witness :
  radius_at (profile (pin_radius 5) (pin_height (pin_radius 5))
                     (0.1 * (2 * pin_radius 5)) true true) 1
  + (hole_radius (pin_radius 5) - pin_radius 5)
  <= radius_at (profile (hole_radius (pin_radius 5))
                        (hole_height (pin_height (pin_radius 5)))
                        (0.1 * (2 * hole_radius (pin_radius 5))) false true) 1.
Proof.
  refine (proj1 (@pin_clears_hole 5 1 _)). vm_compute. split; discriminate.
Defined.

(** A pin of radius 2, height 10 and chamfer 0.4: no vertex below z = 0 or
    above z = 10. *)
Lemma pin_spans_its_height_witness :
  Forall (fun v : vec3 => 0 <= coord v 2 <= 10)
         (fst (chamfered_pin_arrays (TG := Sample.trig) 2 10 0.4 true true)).
Proof.
  refine (proj1 (@pin_spans_its_height Sample.trig 2 10 0.4 true true _ _));
    vm_compute; [reflexivity | discriminate].
Defined.

(** ** The axis of a suggestion *)

Lemma lower_ascii_letter (c : ascii) (l : ascii) :
  In l ["x"; "y"; "z"]%char ->
  Ascii.eqb (lower_ascii c) l
  = Ascii.eqb c l || Ascii.eqb c (ascii_of_nat (nat_of_ascii l - 32)).
Proof.
  intros [<- | [<- | [<- | []]]];
    destruct c as [[] [] [] [] [] [] [] []]; vm_compute; reflexivity.
Qed.

Lemma lower_eqb_letter (a : string) (l : ascii) :
  In l ["x"; "y"; "z"]%char ->
  String.eqb (lower a) (String l EmptyString)
  = String.eqb a (String l EmptyString)
    || String.eqb a (String (ascii_of_nat (nat_of_ascii l - 32)) EmptyString).
Proof.
  intro Hl. destruct a as [|c [|c' a]]; cbn [lower String.eqb].
  - reflexivity.
  - rewrite (lower_ascii_letter c Hl).
    destruct (Ascii.eqb c l), (Ascii.eqb c (ascii_of_nat (nat_of_ascii l - 32)));
      reflexivity.
  - destruct (Ascii.eqb (lower_ascii c) l), (Ascii.eqb c l),
      (Ascii.eqb c (ascii_of_nat (nat_of_ascii l - 32))); reflexivity.
Qed.

Lemma request_axis_idx_valid (axis : option string) :
  request_axis_idx axis = None \/
  exists k : nat, (k < 3)%nat /\ request_axis_idx axis = Some (Z.of_nat k).
Proof.
  destruct axis as [b|]; [|now left].
  unfold request_axis_idx, axis_map_get.
  destruct (String.eqb b ""); [now left|].
  destruct (String.eqb (lower b) "x");
    [right; exists 0%nat; split; [lia | reflexivity]|].
  destruct (String.eqb (lower b) "y");
    [right; exists 1%nat; split; [lia | reflexivity]|].
  destruct (String.eqb (lower b) "z");
    [right; exists 2%nat; split; [lia | reflexivity]|].
  now left.
Qed.

(** X13 ([suggest_split] of [main.py], lines 74-77).  The request names
    the axis by one letter, in either case: "x" or "X" is axis 0, "y" or
    "Y" axis 1, "z" or "Z" axis 2; every other text, the empty one
    included, is taken as no choice (automatic), never as an error.  The
    handler therefore only ever passes on [None], 0, 1 or 2. *)
Theorem axis_request (a : string) :
  request_axis_idx (Some a)
  = (if String.eqb a "x" || String.eqb a "X" then Some 0%Z
     else if String.eqb a "y" || String.eqb a "Y" then Some 1%Z
     else if String.eqb a "z" || String.eqb a "Z" then Some 2%Z
     else None) /\
  (forall axis : option string,
      request_axis_idx axis = None \/
      exists k : nat, (k < 3)%nat /\ request_axis_idx axis = Some (Z.of_nat k)).
Proof.
  assert (H : request_axis_idx (Some a)
              = (if String.eqb a "x" || String.eqb a "X" then Some 0%Z
                 else if String.eqb a "y" || String.eqb a "Y" then Some 1%Z
                 else if String.eqb a "z" || String.eqb a "Z" then Some 2%Z
                 else None)).
  { unfold request_axis_idx, axis_map_get.
    rewrite (@lower_eqb_letter a "x"), (@lower_eqb_letter a "y"),
      (@lower_eqb_letter a "z") by (cbn; tauto).
    change (ascii_of_nat (nat_of_ascii "x" - 32)) with "X"%char.
    change (ascii_of_nat (nat_of_ascii "y" - 32)) with "Y"%char.
    change (ascii_of_nat (nat_of_ascii "z" - 32)) with "Z"%char.
    destruct a as [|c a]; [reflexivity|]. reflexivity. }
  split; [exact H | exact request_axis_idx_valid].
Qed.

Section AxisIndex.
Context `{SH : Shapely} `{TM : @Trimesh SH}.

Lemma index3_wraps (i : Z) :
  (-3 <= i < 0)%Z -> index3 i = index3 (i + 3).
Proof.
  intro H. unfold index3.
  assert (E1 : ((0 <=? i) && (i <? 3))%Z = false).
  { apply andb_false_iff. left. apply Z.leb_gt. lia. }
  assert (E2 : ((-3 <=? i) && (i <? 0))%Z = true).
  { apply andb_true_iff. split; [apply Z.leb_le | apply Z.ltb_lt]; lia. }
  assert (E3 : ((0 <=? i + 3) && (i + 3 <? 3))%Z = true).
  { apply andb_true_iff. split; [apply Z.leb_le | apply Z.ltb_lt]; lia. }
  rewrite E1, E2, E3. reflexivity.
Qed.

Lemma index3_out_of_range (i : Z) :
  (i < -3 \/ 3 <= i)%Z -> index3 i = Raise IndexError.
Proof.
  intro H. unfold index3.
  assert (E1 : ((0 <=? i) && (i <? 3))%Z = false).
  { apply andb_false_iff. destruct H; [left; apply Z.leb_gt | right; apply Z.ltb_ge]; lia. }
  assert (E2 : ((-3 <=? i) && (i <? 0))%Z = false).
  { apply andb_false_iff. destruct H; [left; apply Z.leb_gt | right; apply Z.ltb_ge]; lia. }
  rewrite E1, E2. reflexivity.
Qed.

Lemma suggest_split_empty (m : mesh) (k : nat) :
  (k < 3)%nat ->
  bounds m = None \/ extents m = None ->
  suggest_split m (Some (Z.of_nat k)) = Raise TypeError.
Proof.
  intros Hk H. unfold suggest_split. rewrite (index3_of_nat Hk). cbn [bind].
  destruct (extents m) as [[[ex ey] ez]|]; [|reflexivity].
  destruct H as [H|H]; [|discriminate].
  unfold vget. rewrite (index3_of_nat Hk). cbn [bind unwrap].
  rewrite H. reflexivity.
Qed.

(** X14 ([suggest_split] of [SmartSplitter], lines 33-50).  The axis index
    is used as a Python index into arrays of length 3: an index outside
    -3..2 raises [IndexError], the indices -3, -2, -1 stand for 0, 1, 2.
    On a mesh without bounds or extents (an empty mesh) every request,
    automatic or not, raises [TypeError]. *)
Theorem suggest_split_axis_index (m : mesh) :
  (forall i : Z, (i < -3 \/ 3 <= i)%Z ->
     suggest_split m (Some i) = Raise IndexError) /\
  (forall i : Z, (-3 <= i < 0)%Z ->
     suggest_split m (Some i) = suggest_split m (Some (i + 3)%Z)) /\
  (bounds m = None \/ extents m = None ->
   forall axis : option string,
     suggest_split_request m axis = Raise TypeError).
Proof.
  split_all.
  - intros i H. unfold suggest_split. now rewrite (index3_out_of_range H).
  - intros i H. unfold suggest_split, vget, vset.
    now rewrite (index3_wraps H).
  - intros H axis. unfold suggest_split_request.
    destruct (request_axis_idx_valid axis) as [-> | (k & Hk & ->)].
    + destruct (extents m) as [e|] eqn:He.
      * destruct (np_argmax_first_maximum e) as (k & Hk & Hk' & _).
        transitivity (suggest_split m (Some (Z.of_nat k))).
        -- unfold suggest_split. rewrite He, Hk'. reflexivity.
        -- apply suggest_split_empty; [exact Hk|]. destruct H as [H|H]; [now left | congruence].
      * unfold suggest_split. rewrite He. reflexivity.
    + now apply suggest_split_empty.
Qed.

End AxisIndex.

(** ** File names *)

Lemma append_cancel (s a b : string) :
  (s ++ a)%string = (s ++ b)%string -> a = b.
Proof.
  induction s as [|c s IH]; cbn; intro H; [exact H|].
  injection H as H. auto.
Qed.

Lemma append_nil_r (s : string) : (s ++ "")%string = s.
Proof. induction s as [|c s IH]; cbn; congruence. Qed.

Section Names.
Context `{SH : Shapely} `{TM : @Trimesh SH} `{TG : TrigTable}
        `{TP : @TrimeshPath SH} `{IO : TrimeshIO} `{OS : OsPath}.

(** X15 ([save_parts], lines 470-479).  Provided [splitext] splits the
    file name into a root and an extension that is empty or starts with a
    dot, and joining names to the splitter's directory keeps different
    names apart, the two parts are written to two different paths, and
    neither is the path of the input file in that directory: saving never
    overwrites the model it was cut from. *)
Theorem save_parts_keeps_the_input (self : SmartSplitter) (base ext : string) :
  splitext (filename self) = (base, ext) ->
  filename self = (base ++ ext)%string ->
  ext = EmptyString \/ (exists rest, ext = String "." rest) ->
  (forall n n', path_join (base_dir self) n = path_join (base_dir self) n' ->
                n = n') ->
  let input := path_join (base_dir self) (filename self) in
  fst (part_paths self) <> snd (part_paths self) /\
  fst (part_paths self) <> input /\
  snd (part_paths self) <> input.
Proof.
  intros Hsplit Hname Hext Hjoin input. subst input.
  unfold part_paths. rewrite Hsplit. cbn [fst snd]. rewrite Hname.
  split_all; intro H; apply Hjoin in H; apply append_cancel in H.
  - discriminate H.
  - destruct Hext as [-> | [rest ->]]; discriminate H.
  - destruct Hext as [-> | [rest ->]]; discriminate H.
Qed.

End Names.

Lemma sample_join_injective (d n n' : string) :
  path_join (OsPath := SampleHost.os) d n
  = path_join (OsPath := SampleHost.os) d n' -> n = n'.
Proof.
  cbn. destruct (String.eqb d ""); [auto|].
  intro H. apply append_cancel in H. now injection H.
Qed.

(** The splitter of [models/Test.STL]: the parts go to
    [models/Test_part_a.stl] and [models/Test_part_b.stl]. *)
Lemma save_parts_keeps_the_input_witness :
  let self := {| file_path := "models/Test.STL"; mesh_of := Sample.test_box;
                 filename := "Test.STL"; base_dir := "models" |} in
  part_paths (OS := SampleHost.os) self
  = ("models/Test_part_a.stl", "models/Test_part_b.stl")%string /\
  fst (part_paths (OS := SampleHost.os) self)
  <> snd (part_paths (OS := SampleHost.os) self) /\
  fst (part_paths (OS := SampleHost.os) self) <> "models/Test.STL"%string /\
  snd (part_paths (OS := SampleHost.os) self) <> "models/Test.STL"%string.
Proof.
  cbv zeta. split; [reflexivity|].
  refine (@save_parts_keeps_the_input SampleHost.os
            {| file_path := "models/Test.STL"; mesh_of := Sample.test_box;
               filename := "Test.STL"; base_dir := "models" |}
            "Test" ".STL" eq_refl eq_refl _ _).
  - right. eexists. reflexivity.
  - intros n n'. apply sample_join_injective.
Defined.

(** ** The registry of [main.py] *)

Lemma get_set_same {V : Type} (d : Server.dict V) (k : string) (v : V) :
  Server.get (Server.set d k v) k = Some v.
Proof.
  induction d as [|[k' v'] d IH]; cbn.
  - now rewrite String.eqb_refl.
  - destruct (String.eqb k k') eqn:E; cbn.
    + now rewrite String.eqb_refl.
    + now rewrite E.
Qed.

Lemma get_set_other {V : Type} (d : Server.dict V) (k k' : string) (v : V) :
  k' <> k -> Server.get (Server.set d k v) k' = Server.get d k'.
Proof.
  intro Hne. induction d as [|[k0 v0] d IH]; cbn.
  - apply String.eqb_neq in Hne. now rewrite Hne.
  - destruct (String.eqb k k0) eqn:E; cbn.
    + apply String.eqb_eq in E as <-.
      apply String.eqb_neq in Hne. now rewrite Hne.
    + destruct (String.eqb k' k0); [reflexivity | exact IH].
Qed.

Lemma mem_set {V : Type} (d : Server.dict V) (k k' : string) (v : V) :
  Server.mem (Server.set d k v) k' = String.eqb k' k || Server.mem d k'.
Proof.
  unfold Server.mem. destruct (String.eqb k' k) eqn:E.
  - apply String.eqb_eq in E as ->. now rewrite get_set_same.
  - apply String.eqb_neq in E. now rewrite (get_set_other d v E).
Qed.

Section Registry.
Context `{SH : Shapely} `{TM : @Trimesh SH} `{TG : TrigTable}
        `{TP : @TrimeshPath SH} `{IO : TrimeshIO} `{OS : OsPath}.
Variables UPLOAD_DIR OUTPUT_DIR : string.

(** X16 ([suggest_split] and [perform_split] of [main.py], lines 66-69,
    95-97, 101-104 and 170-172).  A request for a file id that is not in the
    registry is answered 404 and changes nothing; a request for a known id
    is never answered 404, its only error status is 500; no exception
    leaves either handler; and a suggestion never changes the registry
    (it has no access to it beyond the lookup). *)
Theorem unknown_file_is_404 (file_registry : Server.dict string)
        (fileId : string) (axis : option string) (origin normal : vec3)
        (addKeys : bool) (id_a id_b : string) :
  let suggested := Server.suggest_split file_registry fileId axis in
  let performed :=
    Server.perform_split OUTPUT_DIR file_registry fileId origin normal addKeys
      id_a id_b in
  (Server.mem file_registry fileId = false ->
   suggested = Server.HTTPException 404 (Server.Text "File not found") /\
   performed
   = (Server.HTTPException 404 (Server.Text "File not found"), file_registry)) /\
  (Server.mem file_registry fileId = true ->
   (forall c d, suggested = Server.HTTPException c d -> c = 500%nat) /\
   (forall c d, fst performed = Server.HTTPException c d -> c = 500%nat)) /\
  (forall e, suggested <> Server.Unhandled e) /\
  (forall e, fst performed <> Server.Unhandled e).
Proof.
  cbv zeta. unfold Server.mem, Server.suggest_split, Server.perform_split.
  destruct (Server.get file_registry fileId) as [path|].
  - split_all; try discriminate.
    + intros _. split.
      * intros c d H.
        destruct (bind (SmartSplitter_init path) _); [discriminate|].
        now injection H as <- _.
      * intros c d H.
        destruct (Server.split_and_export OUTPUT_DIR path origin normal addKeys
                    id_a id_b) as [[[[pa pb] patha] pathb]|];
          [|now injection H as <- _].
        cbn iota beta in H.
        destruct (bind (volume pa) _); cbn [fst] in H; [discriminate|].
        now injection H as <- _.
    + intros e H. destruct (bind (SmartSplitter_init path) _); discriminate.
    + intros e H.
      destruct (Server.split_and_export OUTPUT_DIR path origin normal addKeys
                  id_a id_b) as [[[[pa pb] patha] pathb]|]; [|discriminate].
      cbn iota beta in H.
      destruct (bind (volume pa) _); discriminate.
  - split_all; try discriminate.
    intros _. split; reflexivity.
Qed.

(** X17 ([upload_file] of [main.py], lines 49-62, with the lookups of the
    other two handlers).  After a successful upload the id in the response
    is registered with the path the file was written to, every other id
    maps to what it mapped to before, and a later suggestion or split for
    the returned id is not answered 404.  An upload whose write fails
    leaves the registry as it was. *)
Theorem uploaded_file_is_found (file_registry : Server.dict string)
        (file_id filename : string) :
  let file_path := path_join UPLOAD_DIR (file_id ++ "_" ++ filename)%string in
  let uploaded := Server.upload_file UPLOAD_DIR file_registry file_id filename in
  (forall e, write_upload file_path = Raise e ->
     uploaded = (Server.Unhandled e, file_registry)) /\
  (forall u : unit, write_upload file_path = Ok u ->
     exists body,
       fst uploaded = Server.Response body /\
       Server.fileId body = file_id /\
       Server.get (snd uploaded) (Server.fileId body) = Some file_path /\
       (forall k, k <> file_id ->
          Server.get (snd uploaded) k = Server.get file_registry k) /\
       (forall axis c d,
          Server.suggest_split (snd uploaded) (Server.fileId body) axis
          = Server.HTTPException c d -> c <> 404%nat) /\
       (forall origin normal addKeys id_a id_b c d,
          fst (Server.perform_split OUTPUT_DIR (snd uploaded)
                 (Server.fileId body) origin normal addKeys id_a id_b)
          = Server.HTTPException c d -> c <> 404%nat)).
Proof.
  cbv zeta. unfold Server.upload_file. split.
  - intros e ->. reflexivity.
  - intros u ->. eexists. cbn [fst snd Server.fileId].
    split; [reflexivity|]. split; [reflexivity|].
    split; [apply get_set_same|].
    split; [intros k Hk; now apply get_set_other|].
    split.
    + intros axis c d H. unfold Server.suggest_split in H.
      rewrite get_set_same in H.
      destruct (bind (SmartSplitter_init _) _); [discriminate|].
      injection H as <- _. discriminate.
    + intros origin normal addKeys id_a id_b c d H.
      unfold Server.perform_split in H. rewrite get_set_same in H.
      destruct (Server.split_and_export _ _ _ _ _ _ _)
        as [[[[pa pb] patha] pathb]|]; [|injection H as <- _; discriminate].
      cbn iota beta in H.
      destruct (bind (volume pa) _); cbn [fst] in H; [discriminate|].
      injection H as <- _. discriminate.
Qed.

(** X18 ([perform_split] of [main.py], lines 141-169).  The registry only
    grows: every id known before a split is known after it.  It changes
    only when both parts have been exported, and then by exactly the two
    new ids, mapped to two different file names in the output directory
    (different even if the two uuids coincide).  After a successful answer
    the ids in the response are the two ids drawn and both are in the
    registry, so each part can be split again. *)
Theorem perform_split_registers (file_registry : Server.dict string)
        (fileId : string) (origin normal : vec3) (addKeys : bool)
        (id_a id_b : string) (out : Server.outcome Server.split_body)
        (registry' : Server.dict string) :
  Server.perform_split OUTPUT_DIR file_registry fileId origin normal addKeys
    id_a id_b = (out, registry') ->
  (forall k, Server.mem file_registry k = true -> Server.mem registry' k = true) /\
  (registry' = file_registry \/
   exists file_path part_a part_b base_name,
     Server.get file_registry fileId = Some file_path /\
     base_name = fst (splitext (basename file_path)) /\
     Server.split_and_export OUTPUT_DIR file_path origin normal addKeys id_a id_b
     = Ok (part_a, part_b,
           path_join OUTPUT_DIR (Server.name_a base_name id_a),
           path_join OUTPUT_DIR (Server.name_b base_name id_b)) /\
     export part_a (path_join OUTPUT_DIR (Server.name_a base_name id_a)) = Ok tt /\
     export part_b (path_join OUTPUT_DIR (Server.name_b base_name id_b)) = Ok tt /\
     Server.name_a base_name id_a <> Server.name_b base_name id_b /\
     registry'
     = Server.set (Server.set file_registry id_a
                     (path_join OUTPUT_DIR (Server.name_a base_name id_a)))
                  id_b (path_join OUTPUT_DIR (Server.name_b base_name id_b))) /\
  (forall body, out = Server.Response body ->
     Server.id (Server.partA body) = id_a /\
     Server.id (Server.partB body) = id_b /\
     Server.mem registry' id_a = true /\
     Server.mem registry' id_b = true).
Proof.
  unfold Server.perform_split.
  destruct (Server.get file_registry fileId) as [file_path|] eqn:Hget.
  2: { intro H. injection H as <- <-.
       split_all; [auto | now left | discriminate]. }
  destruct (Server.split_and_export OUTPUT_DIR file_path origin normal addKeys
              id_a id_b) as [[[[part_a part_b] path_a] path_b]|e] eqn:Hsplit.
  2: { intro H. injection H as <- <-.
       split_all; [auto | now left | discriminate]. }
  cbn iota beta.
  set (registry2 := Server.set (Server.set file_registry id_a path_a) id_b path_b).
  intro H.
  assert (Hreg : registry' = registry2).
  { destruct (bind (volume part_a) _); injection H as _ <-; reflexivity. }
  assert (Hexp : exists base_name,
             base_name = fst (splitext (basename file_path)) /\
             path_a = path_join OUTPUT_DIR (Server.name_a base_name id_a) /\
             path_b = path_join OUTPUT_DIR (Server.name_b base_name id_b) /\
             export part_a path_a = Ok tt /\ export part_b path_b = Ok tt).
  { unfold Server.split_and_export in Hsplit.
    apply bind_ok in Hsplit as (splitter & _ & Hsplit).
    apply bind_ok in Hsplit as ([pa pb] & _ & Hsplit). cbv zeta in Hsplit.
    apply bind_ok in Hsplit as ([] & Ha & Hsplit).
    apply bind_ok in Hsplit as ([] & Hb & Hsplit).
    injection Hsplit as <- <- <- <-. eauto 8. }
  destruct Hexp as (base_name & Hbase & -> & -> & Ha & Hb).
  subst registry'. split_all.
  - intros k Hk. unfold registry2. rewrite !mem_set, Hk.
    now rewrite !orb_true_r.
  - right. exists file_path, part_a, part_b, base_name.
    split_all; try assumption; try reflexivity.
    unfold Server.name_a, Server.name_b. intro E.
    apply append_cancel in E. discriminate E.
  - intros body Hout.
    assert (Hids : Server.id (Server.partA body) = id_a /\
                   Server.id (Server.partB body) = id_b).
    { destruct (volume part_a) as [va|]; cbn [bind] in H; [|congruence].
      destruct (volume part_b) as [vb|]; cbn [bind] in H; [|congruence].
      injection H as H. rewrite Hout in H. injection H as <-.
      split; reflexivity. }
    destruct Hids as [Hida Hidb].
    split_all; try assumption; unfold registry2; rewrite !mem_set,
      String.eqb_refl; cbn [orb]; now rewrite ?orb_true_r.
Qed.

End Registry.

(** The box uploaded as [f1], split across X with keys requested: the two
    parts are registered under the ids drawn, and [f1] stays registered. *)
Lemma perform_split_registers_witness :
  let performed :=
    Server.perform_split (TM := SampleHost.trimesh) (TG := Sample.trig)
      (IO := SampleHost.io) (OS := SampleHost.os) "outputs"
      SampleHost.registry "f1" (0, 0, 0) (1, 0, 0) true "a1" "b1" in
  snd performed
  = [ ("f1", "uploads/f1_box.stl"); ("a1", "outputs/f1_box_part_a_a1.stl");
      ("b1", "outputs/f1_box_part_b_b1.stl") ]%string /\
  Server.mem (snd performed) "f1" = true.
Proof.
  cbv zeta. split; [vm_compute; reflexivity|].
  refine (proj1 (@perform_split_registers Sample.shapely SampleHost.trimesh
                   Sample.trig SampleHost.io SampleHost.os "outputs"
                   SampleHost.registry "f1" (0, 0, 0) (1, 0, 0) true "a1" "b1"
                   _ _ (surjective_pairing _)) "f1"%string _).
  reflexivity.
Defined.

(** The bar cut at its foot: two centers, hence two pins and two cutters. *)
Lemma keys_counted_witness :
  (1 <= List.length (centers Sample.bar_cap) <= 3)%nat.
Proof.
  refine (proj1 (@keys_counted Sample.shapely Sample.trimesh Sample.trig
                   Sample.bar (0, 0, 0) (0, 0, 1) Sample.bar_cap _)).
  vm_compute. reflexivity.
Defined.

(** ** The script *)

Section Script.
Context `{SH : Shapely} `{TM : @Trimesh SH} `{TG : TrigTable}
        `{TP : @TrimeshPath SH} `{IO : TrimeshIO} `{OS : OsPath}.

(** X19 (the script of [smart_splitter.py], lines 501-518, with
    [preview_split]).  The parts are saved only when the answer at the
    prompt is the single letter y or Y; they are then written to the two
    paths derived from the input file.  A viewer that fails to open does
    not stop the run: the preview fails only if recolouring the mesh
    does. *)
Theorem script_saves_only_on_yes (INPUT_FILE response : string) :
  (forall paths,
      script INPUT_FILE response = Ok (Some paths) ->
      (response = "y"%string \/ response = "Y"%string) /\
      exists splitter,
        SmartSplitter_init INPUT_FILE = Ok splitter /\
        paths = part_paths splitter) /\
  (forall self origin normal section_mesh e,
      preview_split self origin normal section_mesh = Raise e ->
      set_face_colors (mesh_of self) (200, 200, 200, 100)%nat = Raise e).
Proof.
  split.
  - intros paths H. unfold script in H.
    apply bind_ok in H as (splitter & Hinit & H).
    apply bind_ok in H as ([[origin normal] section_mesh] & _ & H).
    apply bind_ok in H as (splitter' & Hprev & H).
    destruct (String.eqb (lower response) "y") eqn:E; [|discriminate].
    apply bind_ok in H as ([part_a part_b] & _ & H).
    apply bind_ok in H as (u & _ & H). injection H as <-.
    split.
    + rewrite (@lower_eqb_letter response "y") in E by (cbn; tauto).
      apply orb_true_iff in E as [E|E]; apply String.eqb_eq in E; auto.
    + exists splitter. split; [exact Hinit|].
      unfold preview_split in Hprev.
      apply bind_ok in Hprev as (m & _ & Hprev). cbv zeta in Hprev.
      apply bind_ok in Hprev as (u' & _ & Hprev). injection Hprev as <-.
      reflexivity.
  - intros self origin normal section_mesh e H. unfold preview_split in H.
    apply bind_raise in H as [H | (m & _ & H)]; [exact H|].
    cbv zeta in H.
    destruct (scene_show _); cbn in H; discriminate.
Qed.

End Script.

(** ** The further models run on the samples *)

(** The box of the headless test cut at mid-height: the section is one
    rectangle, drawn as two triangles at the height of the cut; a plane
    that misses the box gives no section mesh. *)
Example section_of_the_box :
  section_mesh (TM := SampleHost.trimesh) (TP := SampleHost.path)
    Sample.test_box (100, 50, 20) (0, 0, 0) (0, 0, 1)
  = Ok (Some {| vertices :=
                  map (fun p : pt2 =>
                         dot_mat4_xyz (Sample.translation (0, 0, 0))
                                      (fst p, snd p, 0, 1))
                      [(- 50, - 25); (50, - 25); (50, 25); (- 50, 25)];
                faces := [(0, 1, 2); (0, 2, 3)]%nat |}) /\
  section_mesh (TM := SampleHost.trimesh) (TP := SampleHost.path)
    Sample.test_box (100, 50, 20) (0, 0, 30) (0, 0, 1)
  = Ok None.
Proof. split; vm_compute; reflexivity. Qed.

(** A session: the upload of [box.stl] under the id [f1], a suggestion
    along "X", a split across X with keys requested.  The cap of a cut
    across X cannot be analysed by the stand-ins, so the halves come back
    without keys; their alignment fails and is skipped; both halves are
    50 x 50 x 20 and rest on the plate. *)
Example session :
  snd (Server.upload_file (IO := SampleHost.io) (OS := SampleHost.os)
         "uploads" [] "f1" "box.stl")
  = SampleHost.registry /\
  match Server.suggest_split (TM := SampleHost.trimesh) (IO := SampleHost.io)
          (OS := SampleHost.os) SampleHost.registry "f1" (Some "X"%string) with
  | Server.Response body =>
      Forall2 Qeq (let '(x, y, z) := Server.position body in [x; y; z]) [0; 0; 0] /\
      Server.normal body = (1.0, 0, 0) /\
      Server.visualizationMesh body = None
  | _ => False
  end /\
  Server.suggest_split (TM := SampleHost.trimesh) (IO := SampleHost.io)
    (OS := SampleHost.os) SampleHost.registry "f2" (Some "X"%string)
  = Server.HTTPException 404 (Server.Text "File not found") /\
  match fst (Server.perform_split (TM := SampleHost.trimesh) (TG := Sample.trig)
               (IO := SampleHost.io) (OS := SampleHost.os) "outputs"
               SampleHost.registry "f1" (0, 0, 0) (1, 0, 0) true "a1" "b1") with
  | Server.Response body =>
      Server.part_url (Server.partA body)
      = "http://localhost:8000/outputs/f1_box_part_a_a1.stl"%string /\
      Server.part_volume (Server.partA body) == 50000 /\
      Server.part_volume (Server.partB body) == 50000
  | _ => False
  end.
Proof.
  split_all; vm_compute; try reflexivity.
  - split_all; [repeat constructor | reflexivity | reflexivity].
  - split_all; reflexivity.
Qed.

(** ** The response to a suggestion *)

Section Suggestion.
Context `{SH : Shapely} `{TM : @Trimesh SH} `{TG : TrigTable}
        `{TP : @TrimeshPath SH} `{IO : TrimeshIO} `{OS : OsPath}.

Lemma suggest_split_ok (m : mesh) (k : nat) (r : vec3 * vec3 * option mesh) :
  (k < 3)%nat ->
  suggest_split m (Some (Z.of_nat k)) = Ok r ->
  exists lo hi,
    bounds m = Some (lo, hi) /\
    fst (fst r)
    = replace_coord (centroid m) k ((coord lo k + coord hi k) / 2.0) /\
    snd (fst r) = unit_vector k.
Proof.
  intros Hk H. unfold suggest_split in H.
  rewrite (index3_of_nat Hk) in H. cbn [bind] in H.
  destruct (extents m) as [e|]; [|discriminate].
  destruct (bounds m) as [[lo hi]|]; cbn [unwrap bind] in H.
  2: { unfold vget in H. rewrite (index3_of_nat Hk) in H.
       destruct e as [[ex ey] ez]. discriminate. }
  exists lo, hi. split; [reflexivity|].
  unfold vget, vset in H. rewrite (index3_of_nat Hk) in H.
  cbn [bind fst snd] in H.
  destruct e as [[ex ey] ez], lo as [[lx ly] lz], hi as [[hx hy] hz].
  destruct (centroid m) as [[cx cy] cz].
  destruct k as [|[|[|k]]]; try lia;
    cbn [bind coord replace_coord unit_vector] in *;
    (destruct (section_visualization _ _ _); cbn [bind] in H;
     [injection H as <-; split; reflexivity | discriminate]).
Qed.

(** X20 ([suggest_split] of [main.py], lines 69-94, with the loader and
    [SmartSplitter.suggest_split]).  A successful answer describes a plane
    of the registered file's mesh: for the axis k the request named (or
    the first longest one when it named none) the normal is the unit
    vector of k and the position is the centroid with coordinate k
    replaced by the middle of the bounds.  The field [axis] of the answer
    is "auto" in every case, also when the request chose the axis. *)
Theorem suggestion_response (file_registry : Server.dict string)
        (fileId : string) (axis : option string) (body : Server.suggestion) :
  Server.suggest_split file_registry fileId axis = Server.Response body ->
  exists (file_path : string) (splitter : SmartSplitter) (lo hi : vec3) (k : nat),
    Server.get file_registry fileId = Some file_path /\
    SmartSplitter_init file_path = Ok splitter /\
    bounds (mesh_of splitter) = Some (lo, hi) /\
    (k < 3)%nat /\
    (request_axis_idx axis = Some (Z.of_nat k) \/
     request_axis_idx axis = None /\
     exists e, extents (mesh_of splitter) = Some e /\ np_argmax e = Z.of_nat k) /\
    Server.position body
    = replace_coord (centroid (mesh_of splitter)) k
                    ((coord lo k + coord hi k) / 2.0) /\
    Server.normal body = unit_vector k /\
    Server.axis body = "auto"%string.
Proof.
  unfold Server.suggest_split.
  destruct (Server.get file_registry fileId) as [file_path|]; [|discriminate].
  destruct (bind (SmartSplitter_init file_path) _) as [b|] eqn:H; [|discriminate].
  intro Hb. injection Hb as ->.
  apply bind_ok in H as (splitter & Hinit & H).
  apply bind_ok in H as ([[origin normal] sm] & Hs & H).
  injection H as <-. cbn [Server.position Server.normal Server.axis].
  unfold suggest_split_request in Hs.
  assert (Hk : exists k : nat,
             (k < 3)%nat /\
             (request_axis_idx axis = Some (Z.of_nat k) \/
              request_axis_idx axis = None /\
              exists e, extents (mesh_of splitter) = Some e /\
                        np_argmax e = Z.of_nat k) /\
             suggest_split (mesh_of splitter) (Some (Z.of_nat k))
             = Ok (origin, normal, sm)).
  { destruct (request_axis_idx_valid axis) as [E | (k & Hk & E)]; rewrite E in Hs.
    - destruct (extents (mesh_of splitter)) as [e|] eqn:He.
      + destruct (np_argmax_first_maximum e) as (k & Hk & Hk' & _).
        exists k. split; [exact Hk|]. split; [right; eauto|].
        rewrite <- Hs. unfold suggest_split. rewrite He, Hk'. reflexivity.
      + unfold suggest_split in Hs. rewrite He in Hs. discriminate.
    - exists k. split; [exact Hk|]. split; [now left | exact Hs]. }
  destruct Hk as (k & Hk & Haxis & Hsplit).
  destruct (@suggest_split_ok _ _ _ Hk Hsplit) as (lo & hi & Hbounds & Ho & Hn).
  exists file_path, splitter, lo, hi, k. cbn [fst snd] in Ho, Hn.
  split_all; auto.
Qed.

End Suggestion.

(** The box uploaded as [f1], with the axis "y" requested: the normal is
    the unit vector of Y, and the answer still says "auto". *)
Lemma suggestion_response_witness :
  let body :=
    {| Server.position := ((1 / 2) * (- 50 + 50), (- 25 + 25) / 2.0,
                           (1 / 2) * (- 10 + 10));
       Server.normal := (0, 1.0, 0);
       Server.axis := "auto";
       Server.visualizationMesh := None |} in
  Server.suggest_split (TM := SampleHost.trimesh) (IO := SampleHost.io)
    (OS := SampleHost.os) SampleHost.registry "f1" (Some "y"%string)
  = Server.Response body /\
  exists k : nat,
    (k < 3)%nat /\ Server.normal body = unit_vector k /\
    Server.axis body = "auto"%string.
Proof.
  cbv zeta.
  assert (H : Server.suggest_split (TM := SampleHost.trimesh)
                (IO := SampleHost.io) (OS := SampleHost.os)
                SampleHost.registry "f1" (Some "y"%string)
              = Server.Response
                  {| Server.position := ((1 / 2) * (- 50 + 50), (- 25 + 25) / 2.0,
                                         (1 / 2) * (- 10 + 10));
                     Server.normal := (0, 1.0, 0);
                     Server.axis := "auto";
                     Server.visualizationMesh := None |})
    by (vm_compute; reflexivity).
  split; [exact H|].
  destruct (@suggestion_response Sample.shapely SampleHost.trimesh
              SampleHost.io SampleHost.os _ _ _ _ H)
    as (_ & _ & _ & _ & k & _ & _ & _ & Hk & _ & _ & Hn & Ha).
  exists k. auto.
Defined.

(** ** The keys of the orchestrator as solids *)

(** X21 ([perform_split_and_key], lines 149-192, with
    [_create_chamfered_pin]).  For every safe radius the two shapes the
    key loop builds are closed solids: the pin has 4 rings, 130 vertices
    and 256 triangles, the cutter 3 rings, 98 vertices and 192 triangles;
    each is watertight with consistent winding; the chamfer guard never
    changes their chamfer; and, the angular samples running
    counter-clockwise, all their triangles wind outward. *)
Theorem orchestrator_keys_are_solids `{TG : TrigTable} (max_radius : Q) :
  counter_clockwise ->
  let pr := pin_radius max_radius in
  let ph := pin_height pr in
  let hr := hole_radius pr in
  let pin := chamfered_pin_arrays pr ph (0.1 * (2 * pr)) true true in
  let cutter :=
    chamfered_pin_arrays hr (hole_height ph) (0.1 * (2 * hr)) false true in
  (List.length (fst pin) = 130%nat /\ List.length (snd pin) = 256%nat /\
   watertight (snd pin) = true /\ winding_consistent (snd pin) = true /\
   fitted_chamfer ph (0.1 * (2 * pr)) true true = 0.1 * (2 * pr) /\
   Forall (face_outward ph (fst pin)) (snd pin)) /\
  (List.length (fst cutter) = 98%nat /\ List.length (snd cutter) = 192%nat /\
   watertight (snd cutter) = true /\ winding_consistent (snd cutter) = true /\
   fitted_chamfer ph (0.1 * (2 * hr)) false true = 0.1 * (2 * hr) /\
   Forall (face_outward ph (fst cutter)) (snd cutter)).
Proof.
  intros Hccw pr ph hr pin cutter.
  destruct (orchestrator_keys_outward max_radius Hccw) as (Hcp & Hcc & Hop & Hoc).
  fold pr ph hr in Hcp, Hcc, Hop, Hoc.
  subst pin cutter. unfold hole_height.
  destruct (@pin_faces_closed 4 ltac:(lia)) as (_ & Hw4 & Hc4).
  destruct (@pin_faces_closed 3 ltac:(lia)) as (_ & Hw3 & Hc3).
  pose proof (pin_vertex_count pr ph (0.1 * (2 * pr)) true true) as V4.
  pose proof (pin_vertex_count hr ph (0.1 * (2 * hr)) false true) as V3.
  rewrite profile_length in V4, V3.
  assert (F4 : snd (chamfered_pin_arrays pr ph (0.1 * (2 * pr)) true true)
               = pin_faces 4).
  { rewrite chamfered_pin_arrays_eq, profile_length. reflexivity. }
  assert (F3 : snd (chamfered_pin_arrays hr ph (0.1 * (2 * hr)) false true)
               = pin_faces 3).
  { rewrite chamfered_pin_arrays_eq, profile_length. reflexivity. }
  split.
  - split; [exact V4|]. split; [rewrite F4; reflexivity|].
    split; [rewrite F4; exact Hw4|]. split; [rewrite F4; exact Hc4|].
    split; [exact Hcp | exact Hop].
  - split; [exact V3|]. split; [rewrite F3; reflexivity|].
    split; [rewrite F3; exact Hw3|]. split; [rewrite F3; exact Hc3|].
    split; [exact Hcc | exact Hoc].
Qed.

(** The keys for a safe radius of 5: the 256 triangles of the pin wind
    outward. *)
Lemma orchestrator_keys_are_solids_witness :
  Forall (face_outward (pin_height (pin_radius 5))
            (fst (chamfered_pin_arrays (TG := Sample.trig) (pin_radius 5)
                    (pin_height (pin_radius 5)) (0.1 * (2 * pin_radius 5))
                    true true)))
         (snd (chamfered_pin_arrays (TG := Sample.trig) (pin_radius 5)
                 (pin_height (pin_radius 5)) (0.1 * (2 * pin_radius 5))
                 true true)).
Proof.
  exact (proj2 (proj2 (proj2 (proj2 (proj2 (proj1
    (@orchestrator_keys_are_solids Sample.trig 5 sample_counter_clockwise))))))).
Defined.

(** ** Where the pins go along the centerline *)

Lemma pin_fraction_eq (i n : nat) :
  (0 < n)%nat ->
  pin_fraction i n * (2 * inject_Z (Z.of_nat n))
  == 2 * inject_Z (Z.of_nat i) + 1.
Proof.
  intro Hn. unfold pin_fraction.
  rewrite !Nat2Z.inj_add, !Nat2Z.inj_mul, !inject_Z_plus, !inject_Z_mult.
  change (inject_Z (Z.of_nat 2)) with 2. change (inject_Z (Z.of_nat 1)) with 1.
  field.
  assert (0 < inject_Z (Z.of_nat n)).
  { change 0 with (inject_Z 0). rewrite <- Zlt_Qlt. lia. }
  lra.
Qed.

(** X22 ([_analyze_cap_surface], lines 336-347).  With n pins planned,
    pin i is proposed at the fraction (2 i + 1) / (2 n) of the centerline:
    strictly inside it, one n-th of its length after the pin before, and
    mirrored by pin n - 1 - i about the middle.  The loop keeps, in this
    order, exactly the proposed points that the polygon contains. *)
Theorem pins_evenly_spaced `{SH : Shapely} (P : geometry) (start end_ : pt2)
        (n i : nat) :
  (i < n)%nat ->
  0 < pin_fraction i n < 1 /\
  pin_fraction i n + pin_fraction (n - 1 - i) n == 1 /\
  ((S i < n)%nat ->
   (pin_fraction (S i) n - pin_fraction i n) * inject_Z (Z.of_nat n) == 1) /\
  (forall pts,
      mapM (fun j => line_interpolate start end_ (pin_fraction j n)) (seq 0 n)
      = Ok pts ->
      place_pins P start end_ n (seq 0 n) [] = Ok (filter (contains P) pts)).
Proof.
  intro Hi.
  assert (Hn : (0 < n)%nat) by lia.
  set (b := inject_Z (Z.of_nat n)).
  set (a := inject_Z (Z.of_nat i)).
  assert (Hb : 0 < b).
  { unfold b. change 0 with (inject_Z 0). rewrite <- Zlt_Qlt. lia. }
  assert (Ha : 0 <= a).
  { unfold a. change 0 with (inject_Z 0). rewrite <- Zle_Qle. lia. }
  assert (Hab : a + 1 <= b).
  { unfold a, b. change 1 with (inject_Z 1).
    rewrite <- inject_Z_plus, <- Zle_Qle. lia. }
  pose proof (pin_fraction_eq i Hn) as Ei. fold a b in Ei.
  pose proof (pin_fraction_eq (n - 1 - i) Hn) as Em. fold b in Em.
  assert (Hm : inject_Z (Z.of_nat (n - 1 - i)) == b - 1 - a).
  { unfold a, b. rewrite !Nat2Z.inj_sub by lia.
    rewrite <- !Z.add_opp_r, !inject_Z_plus, !inject_Z_opp. reflexivity. }
  rewrite Hm in Em.
  split_all.
  - nra.
  - nra.
  - nra.
  - intro Hs.
    pose proof (pin_fraction_eq (S i) Hn) as Es. fold b in Es.
    assert (HS : inject_Z (Z.of_nat (S i)) == a + 1).
    { unfold a. rewrite Nat2Z.inj_succ. unfold Z.succ.
      rewrite inject_Z_plus. reflexivity. }
    rewrite HS in Es. nra.
  - intros pts Hpts.
    exact (place_pins_filter P start end_ n (seq 0 n) [] Hpts).
Qed.

(** Two pins: the first at a quarter of the centerline. *)
Lemma pins_evenly_spaced_witness :
  0 < pin_fraction 0 2 < 1 /\ pin_fraction 0 2 + pin_fraction 1 2 == 1.
Proof.
  destruct (@pins_evenly_spaced Sample.shapely (0, 0, 50, 5) (0, 0) (1, 1)
              2 0 ltac:(lia)) as (H1 & H2 & _).
  exact (conj H1 H2).
Defined.

(** ** Further witnesses *)

(** The box that touches the plane x = 0: its two faces on the plane are
    selected, in increasing order. *)
Lemma cap_faces_indices_spec_witness :
  exists idx,
    cap_faces_indices Sample.near_box (0, 0, 0) (1, 0, 0) = Ok idx /\
    StronglySorted lt idx /\
    forall i, In i idx <-> cap_face Sample.near_box (0, 0, 0) (1, 0, 0) i.
Proof.
  exact (proj1 (@cap_faces_indices_spec Sample.shapely Sample.trimesh
                  Sample.near_box (0, 0, 0) (1, 0, 0)) eq_refl).
Defined.

(** The ring of the rectangle 50 x 5 has five coordinates: four edges. *)
Lemma edge_lengths_closed_ring_witness :
  edge_lengths (SH := Sample.shapely) [0; 50; 50; 0; 0] [0; 0; 5; 5; 0]
  = Ok (map (fun i =>
               point_distance (Shapely := Sample.shapely)
                 (nth i [0; 50; 50; 0; 0] 0, nth i [0; 0; 5; 5; 0] 0)
                 (nth (i + 1) [0; 50; 50; 0; 0] 0, nth (i + 1) [0; 0; 5; 5; 0] 0))
            [0; 1; 2; 3]%nat).
Proof.
  exact (proj1 (@edge_lengths_closed_ring Sample.shapely
                  [0; 50; 50; 0; 0] [0; 0; 5; 5; 0])
               (conj (le_n 5) (le_n 5))).
Defined.

(** The bar cut at its foot gets two keys: the rectangle of its cap lists
    the long edge first. *)
Lemma several_keys_need_long_first_edge_witness :
  exists (P : @geometry Sample.shapely) (x0 x1 x2 x3 y0 y1 y2 y3 : Q)
         (xs ys : list Q),
    minimum_rotated_rectangle_xy (Shapely := Sample.shapely) P
    = Ok (x0 :: x1 :: x2 :: x3 :: xs, y0 :: y1 :: y2 :: y3 :: ys) /\
    point_distance (Shapely := Sample.shapely) (x1, y1) (x2, y2)
    <= point_distance (Shapely := Sample.shapely) (x0, y0) (x1, y1).
Proof.
  refine (proj2 (@several_keys_need_long_first_edge Sample.shapely
                   Sample.trimesh Sample.bar (0, 0, 0) (0, 0, 1))
                Sample.bar_cap _ _).
  - vm_compute. reflexivity.
  - vm_compute. repeat constructor.
Defined.

(** Without a boolean backend the keying still returns: half A
    concatenated with the pins, half B as it was. *)
Lemma boolean_failures_fall_back_witness :
  exists a b,
    apply_boolean_operations (TM := Sample.trimesh)
      Sample.bar Sample.empty_mesh (fst Sample.bar_keys) (snd Sample.bar_keys)
    = Ok (a, b).
Proof.
  exact (proj1 (proj2 (@boolean_failures_fall_back Sample.shapely Sample.trimesh
                         Sample.bar Sample.empty_mesh
                         (fst Sample.bar_keys) (snd Sample.bar_keys)))
               _ eq_refl).
Defined.

(** An axis index of 5 raises [IndexError]. *)
Lemma suggest_split_axis_index_witness :
  suggest_split (TM := Sample.trimesh) Sample.test_box (Some 5%Z)
  = Raise IndexError.
Proof.
  refine (proj1 (@suggest_split_axis_index Sample.shapely Sample.trimesh
                   Sample.test_box) 5%Z (or_intror _)).
  discriminate.
Defined.

(** The id [f2] was never registered: 404. *)
Lemma unknown_file_is_404_witness :
  Server.suggest_split (TM := SampleHost.trimesh) (IO := SampleHost.io)
    (OS := SampleHost.os) SampleHost.registry "f2" None
  = Server.HTTPException 404 (Server.Text "File not found") /\
  Server.perform_split (TM := SampleHost.trimesh) (TG := Sample.trig)
    (IO := SampleHost.io) (OS := SampleHost.os) "outputs"
    SampleHost.registry "f2" (0, 0, 0) (1, 0, 0) false "a1" "b1"
  = (Server.HTTPException 404 (Server.Text "File not found"),
     SampleHost.registry).
Proof.
  exact (proj1 (@unknown_file_is_404 Sample.shapely SampleHost.trimesh
                  Sample.trig SampleHost.io SampleHost.os "outputs"
                  SampleHost.registry "f2" None (0, 0, 0) (1, 0, 0) false
                  "a1" "b1") eq_refl).
Defined.

(** The upload of [box.stl] under the id [f1] into an empty registry. *)
Lemma uploaded_file_is_found_witness :
  exists body,
    fst (Server.upload_file (IO := SampleHost.io) (OS := SampleHost.os)
           "uploads" [] "f1" "box.stl") = Server.Response body /\
    Server.fileId body = "f1"%string /\
    Server.get (snd (Server.upload_file (IO := SampleHost.io)
                       (OS := SampleHost.os) "uploads" [] "f1" "box.stl"))
               (Server.fileId body)
    = Some "uploads/f1_box.stl"%string.
Proof.
  destruct (proj2 (@uploaded_file_is_found Sample.shapely SampleHost.trimesh
                     Sample.trig SampleHost.io SampleHost.os "uploads" "outputs"
                     [] "f1" "box.stl") tt eq_refl)
    as (body & H1 & H2 & H3 & _).
  exists body. auto.
Defined.

(** The script run on [box.stl]: with the answer "Y" the two halves are
    saved next to it, with the answer "yes" nothing is. *)
Example script_run :
  script (TM := SampleHost.trimesh) (TG := Sample.trig) (TP := SampleHost.path)
    (IO := SampleHost.io) (OS := SampleHost.os) "box.stl" "Y"
  = Ok (Some ("box_part_a.stl", "box_part_b.stl")%string) /\
  script (TM := SampleHost.trimesh) (TG := Sample.trig) (TP := SampleHost.path)
    (IO := SampleHost.io) (OS := SampleHost.os) "box.stl" "yes"
  = Ok None.
Proof. split; vm_compute; reflexivity. Qed.
